(** * Yacht listing deduplication and scoring (deduplication.py)

    A shallow embedding of [YachtDeduplicator] and [YachtScorer] together
    with the parts of the Python runtime they rest on:

    - Python [float] is IEEE 754 binary64, embedded with the executable
      specification of the Standard Library ([spec_float], round to nearest
      even);
    - Python [str] is embedded as [string]; a character is a code point in
      U+0000..U+00FF, and the Unicode predicates used by [str.lower],
      [str.strip] and the [re] classes are written out for that range;
    - [difflib.SequenceMatcher] follows the CPython implementation
      ([__chain_b], [find_longest_match], [get_matching_blocks], [ratio]);
    - nullable columns are [option]; [processed_ids] is a [gset Z]. *)

From Stdlib Require Import ZArith Bool List Ascii String Lia.
From Stdlib Require Import Floats.SpecFloat.
From stdpp Require Import gmap.
Import ListNotations.

Local Open Scope Z_scope.

(** ** Python floats *)

Module PyFloat.

Definition prec : Z := 53.
Definition emax : Z := 1024.

Definition float := spec_float.

(** [float(n)] for an [int] [n]. *)
Definition of_Z (z : Z) : float := binary_normalize prec emax z 0 false.

Definition add : float -> float -> float := SFadd prec emax.
Definition sub : float -> float -> float := SFsub prec emax.
Definition mul : float -> float -> float := SFmul prec emax.
Definition div : float -> float -> float := SFdiv prec emax.
Definition abs : float -> float := SFabs.

Definition ltb : float -> float -> bool := SFltb.
Definition leb : float -> float -> bool := SFleb.
Definition gtb (x y : float) : bool := SFltb y x.
Definition geb (x y : float) : bool := SFleb y x.

(** The decimal literal [n/d] (for example [0.85] is [lit 85 100]): both
    integers are exact and the division rounds once, to the nearest
    double, which is the value the Python parser gives the literal. *)
Definition lit (n d : Z) : float := div (of_Z n) (of_Z d).

(** [bool(x)]: every float except the two zeros is true (NaN included). *)
Definition truthy (x : float) : bool :=
  match x with
  | S754_zero _ => false
  | _ => true
  end.

(** [max(a, b)] and [min(a, b)] of the builtins: the first argument is
    kept unless the second is strictly better. *)
Definition py_max (a b : float) : float := if gtb b a then b else a.
Definition py_min (a b : float) : float := if ltb b a then b else a.

(** [sum(xs)]: left to right from [0]. (CPython 3.12 and later carry a
    compensation term along, which stays zero up to the first addition;
    the statements below rest on sums of one term.) *)
Definition py_sum (xs : list float) : float := fold_left add xs (of_Z 0).

(** Round half to even of [m * 100 * 2^e] to an integer ([m], [e] a
    finite float's mantissa and exponent). *)
Definition scaled_rne (m : positive) (e : Z) : Z :=
  match e with
  | Zneg p =>
      let d := Z.pow_pos 2 p in
      let q := (Zpos m * 100) / d in
      let r := (Zpos m * 100) mod d in
      match (2 * r) ?= d with
      | Lt => q
      | Gt => q + 1
      | Eq => if Z.even q then q else q + 1
      end
  | _ => Zpos m * 100 * 2 ^ e
  end.

(** [round(x, 2)]: the exact value is rounded half-even to two decimals
    and the decimal result is read back as the nearest double. *)
Definition round2 (x : float) : float :=
  match x with
  | S754_finite s m e =>
      match scaled_rne m e with
      | Zpos n => SFdiv prec emax (S754_finite s n 0) (of_Z 100)
      | _ => S754_zero s
      end
  | _ => x
  end.

End PyFloat.

(** ** Python strings *)

Module PyStr.

Local Open Scope nat_scope.

Definition code (c : ascii) : nat := nat_of_ascii c.

Definition between (lo hi n : nat) : bool := (lo <=? n) && (n <=? hi).

(** [str.isspace] on one character; also [\s] of [re] and the set
    [str.strip] removes. *)
Definition isspace (c : ascii) : bool :=
  let n := code c in
  between 9 13 n || between 28 32 n || (n =? 133) || (n =? 160).

(** [str.isalnum] on one character: alphabetic, decimal, digit or
    numeric. *)
Definition isalnum (c : ascii) : bool :=
  let n := code c in
  between 48 57 n || between 65 90 n || between 97 122 n
  || (n =? 170) || (n =? 181) || (n =? 186)
  || (n =? 178) || (n =? 179) || (n =? 185) || between 188 190 n
  || between 192 214 n || between 216 246 n || between 248 255 n.

(** [\w] of [re] on a [str] pattern: alphanumeric or the underscore. *)
Definition isword (c : ascii) : bool := isalnum c || (code c =? 95).

Definition lower_char (c : ascii) : ascii :=
  let n := code c in
  if between 65 90 n || between 192 214 n || between 216 222 n
  then ascii_of_nat (n + 32) else c.

(** [s.lower()] *)
Fixpoint lower (s : string) : string :=
  match s with
  | EmptyString => EmptyString
  | String c r => String (lower_char c) (lower r)
  end.

(** [bool(s)] *)
Definition truthy (s : string) : bool :=
  match s with
  | EmptyString => false
  | _ => true
  end.

(** [s or ''] for a nullable column. *)
Definition or_empty (s : option string) : string :=
  match s with
  | Some x => x
  | None => EmptyString
  end.

(** Truth value of a nullable string column. *)
Definition opt_truthy (s : option string) : bool :=
  match s with
  | Some x => truthy x
  | None => false
  end.

Fixpoint lstrip (s : string) : string :=
  match s with
  | EmptyString => EmptyString
  | String c r => if isspace c then lstrip r else s
  end.

Fixpoint rstrip (s : string) : string :=
  match s with
  | EmptyString => EmptyString
  | String c r =>
      match rstrip r with
      | EmptyString => if isspace c then EmptyString else String c EmptyString
      | r' => String c r'
      end
  end.

(** [s.strip()] *)
Definition strip (s : string) : string := rstrip (lstrip s).

(** [needle in hay] *)
Fixpoint contains (needle hay : string) : bool :=
  String.prefix needle hay ||
  match hay with
  | EmptyString => false
  | String _ r => contains needle r
  end.

(** Membership of a character in a string. *)
Fixpoint occurs (c : ascii) (s : string) : bool :=
  match s with
  | EmptyString => false
  | String d r => Ascii.eqb c d || occurs c r
  end.

End PyStr.

(** ** The three [re.sub] calls of [normalize_text] *)

Module Re.

Import PyStr.
Local Open Scope nat_scope.
Local Open Scope string_scope.

(** [re.sub(r'[^\w\s]', ' ', text)] *)
Fixpoint sub_non_word_space (s : string) : string :=
  match s with
  | EmptyString => EmptyString
  | String c r =>
      String (if negb (isword c) && negb (isspace c) then " "%char else c)
             (sub_non_word_space r)
  end.

(** The alternatives of the second pattern, in the order written. *)
Definition stop_words : list string :=
  ["the"; "a"; "an"; "and"; "or"; "but"; "in"; "on"; "at"; "to"; "for";
   "of"; "with"; "by"].

Definition word_at (c : option ascii) : bool :=
  match c with
  | Some x => isword x
  | None => false
  end.

(** [\b] between the character before the position and the one at it
    ([None] at either end of the text). *)
Definition boundary (before at_pos : option ascii) : bool :=
  negb (Bool.eqb (word_at before) (word_at at_pos)).

Definition head (s : string) : option ascii :=
  match s with
  | EmptyString => None
  | String c _ => Some c
  end.

(** The literal [w] matched at the front of [s]: its last character and
    what follows it. *)
Fixpoint match_literal (w s : string) (last : option ascii)
  : option (option ascii * string) :=
  match w with
  | EmptyString => Some (last, s)
  | String c w' =>
      match s with
      | EmptyString => None
      | String d s' =>
          if Ascii.eqb c d then match_literal w' s' (Some d) else None
      end
  end.

(** One alternative followed by the closing [\b]. *)
Definition match_alternative (w s : string) : bool :=
  match match_literal w s None with
  | Some (last, rest) => boundary last (head rest)
  | None => false
  end.

(** [\b(the|a|...)\b] tried at one position: the length of the match.
    The alternatives are tried in order, moving on to the next one when
    the closing [\b] fails. *)
Definition match_stop_word (before : option ascii) (s : string)
  : option nat :=
  if boundary before (head s)
  then option_map String.length
         (List.find (fun w => match_alternative w s) stop_words)
  else None.

(** [re.sub(r'\b(the|a|...)\b', ' ', text)]: scan from the left; a match
    is replaced by one space and the scan resumes after it ([skip]
    characters of the match are still to be passed over). *)
Fixpoint sub_stop_words_from (before : option ascii) (skip : nat)
         (s : string) : string :=
  match s with
  | EmptyString => EmptyString
  | String c r =>
      match skip with
      | S k => sub_stop_words_from (Some c) k r
      | O =>
          match match_stop_word before s with
          | Some n => String " " (sub_stop_words_from (Some c) (n - 1) r)
          | None => String c (sub_stop_words_from (Some c) O r)
          end
      end
  end.

Definition sub_stop_words (s : string) : string :=
  sub_stop_words_from None O s.

(** [re.sub(r'\s+', ' ', text)]; [in_run] says that the previous
    character belonged to the run being replaced. *)
Fixpoint sub_spaces_from (in_run : bool) (s : string) : string :=
  match s with
  | EmptyString => EmptyString
  | String c r =>
      if isspace c
      then (if in_run then sub_spaces_from true r
            else String " " (sub_spaces_from true r))
      else String c (sub_spaces_from false r)
  end.

Definition sub_spaces (s : string) : string := sub_spaces_from false s.

End Re.

(** ** [difflib.SequenceMatcher(None, a, b)] *)

Module Difflib.

Local Open Scope nat_scope.

(** A [Match(a, b, size)] triple. *)
Record Match := mkMatch { m_a : nat; m_b : nat; m_size : nat }.

Section Matcher.

Variables a b : list ascii.

Fixpoint indices_from (c : ascii) (s : list ascii) (j : nat) : list nat :=
  match s with
  | [] => []
  | d :: r =>
      if Ascii.eqb c d then j :: indices_from c r (S j)
      else indices_from c r (S j)
  end.

(** [__chain_b]: no element is junk ([isjunk] is [None]); with
    [autojunk] and [len(b) >= 200] an element with more than
    [len(b) // 100 + 1] occurrences is popular and loses its entry. *)
Definition popular (c : ascii) : bool :=
  (200 <=? length b)
  && (length b / 100 + 1 <? length (indices_from c b 0)).

(** [b2j.get(c, [])] *)
Definition b2j_get (c : ascii) : list nat :=
  if popular c then [] else indices_from c b 0.

(** [a[i] == b[j]] *)
Definition same_at (i j : nat) : bool :=
  match a !! i, b !! j with
  | Some x, Some y => Ascii.eqb x y
  | _, _ => false
  end.

(** [j2len.get(j-1, 0)] *)
Definition j2len_prev (j2len : gmap nat nat) (j : nat) : nat :=
  match j with
  | O => 0
  | S j' => default 0 (j2len !! j')
  end.

(** The inner [for j in b2j.get(a[i], nothing)] of
    [find_longest_match]. *)
Fixpoint scan_row (i blo bhi : nat) (js : list nat)
         (j2len newj2len : gmap nat nat) (best : Match)
  : gmap nat nat * Match :=
  match js with
  | [] => (newj2len, best)
  | j :: js' =>
      if j <? blo then scan_row i blo bhi js' j2len newj2len best
      else if bhi <=? j then (newj2len, best)
      else
        let k := j2len_prev j2len j + 1 in
        scan_row i blo bhi js' j2len (<[j := k]> newj2len)
          (if m_size best <? k
           then mkMatch (i + 1 - k) (j + 1 - k) k else best)
  end.

(** The outer [for i in range(alo, ahi)]. *)
Definition scan_rows (alo ahi blo bhi : nat) : Match :=
  snd (fold_left
         (fun (st : gmap nat nat * Match) i =>
            scan_row i blo bhi
              (match a !! i with Some c => b2j_get c | None => [] end)
              (fst st) ∅ (snd st))
         (seq alo (ahi - alo))
         (∅, mkMatch alo blo 0)).

(** First [while]: grow the block to the left. *)
Fixpoint extend_left (alo blo besti bestj bestsize : nat) : Match :=
  match besti, bestj with
  | S i', S j' =>
      if (alo <? besti) && (blo <? bestj) && same_at i' j'
      then extend_left alo blo i' j' (S bestsize)
      else mkMatch besti bestj bestsize
  | _, _ => mkMatch besti bestj bestsize
  end.

(** Second [while]: grow it to the right; [room] is
    [ahi - (besti + bestsize)]. *)
Fixpoint extend_right (bhi besti bestj bestsize room : nat) : nat :=
  match room with
  | O => bestsize
  | S room' =>
      if (bestj + bestsize <? bhi)
         && same_at (besti + bestsize) (bestj + bestsize)
      then extend_right bhi besti bestj (S bestsize) room'
      else bestsize
  end.

(** [find_longest_match(alo, ahi, blo, bhi)]. The last two [while]
    loops of the method extend over junk only and [bjunk] is empty. *)
Definition find_longest_match (alo ahi blo bhi : nat) : Match :=
  let m := scan_rows alo ahi blo bhi in
  let m := extend_left alo blo (m_a m) (m_b m) (m_size m) in
  mkMatch (m_a m) (m_b m)
    (extend_right bhi (m_a m) (m_b m) (m_size m)
       (ahi - (m_a m + m_size m))).

(** The work list of [get_matching_blocks]; its head is the element
    [queue.pop()] takes. *)
Definition queue := list (nat * nat * nat * nat).

Fixpoint run_queue (fuel : nat) (q : queue) (blocks : list Match)
  : list Match :=
  match fuel with
  | O => blocks
  | S fuel' =>
      match q with
      | [] => blocks
      | (alo, ahi, blo, bhi) :: q' =>
          let x := find_longest_match alo ahi blo bhi in
          let i := m_a x in
          let j := m_b x in
          let k := m_size x in
          if k =? 0 then run_queue fuel' q' blocks
          else
            let q1 :=
              if (alo <? i) && (blo <? j)
              then (alo, i, blo, j) :: q' else q' in
            let q2 :=
              if (i + k <? ahi) && (j + k <? bhi)
              then (i + k, ahi, j + k, bhi) :: q1 else q1 in
            run_queue fuel' q2 (blocks ++ [x])
      end
  end.

(** Tuple order of [matching_blocks.sort()]. *)
Definition match_leb (x y : Match) : bool :=
  (m_a x <? m_a y)
  || ((m_a x =? m_a y)
      && ((m_b x <? m_b y)
          || ((m_b x =? m_b y) && (m_size x <=? m_size y)))).

Fixpoint insert_sorted (x : Match) (l : list Match) : list Match :=
  match l with
  | [] => [x]
  | y :: r => if match_leb x y then x :: l else y :: insert_sorted x r
  end.

Definition sort_blocks (l : list Match) : list Match :=
  fold_right insert_sorted [] l.

(** The loop merging adjacent blocks; [cur] is [(i1, j1, k1)]. *)
Fixpoint collapse (cur : Match) (l : list Match) : list Match :=
  match l with
  | [] => if m_size cur =? 0 then [] else [cur]
  | x :: r =>
      if (m_a cur + m_size cur =? m_a x) && (m_b cur + m_size cur =? m_b x)
      then collapse (mkMatch (m_a cur) (m_b cur) (m_size cur + m_size x)) r
      else (if m_size cur =? 0 then [] else [cur]) ++ collapse x r
  end.

(** Every pass of the [while queue] loop that finds a block shortens
    the pending ranges of [a], so [2 * len(a) + 1] passes empty the
    queue (lemma [run_queue_fuel]). *)
Definition get_matching_blocks : list Match :=
  collapse (mkMatch 0 0 0)
    (sort_blocks
       (run_queue (2 * length a + 1) [(0, length a, 0, length b)] []))
  ++ [mkMatch (length a) (length b) 0].

(** [sum(triple[-1] for triple in self.get_matching_blocks())] *)
Definition matches : nat :=
  fold_left (fun acc x => acc + m_size x) get_matching_blocks 0.

(** [ratio()], through [_calculate_ratio(matches, length)]. *)
Definition ratio : PyFloat.float :=
  let len := length a + length b in
  if len =? 0 then PyFloat.of_Z 1
  else PyFloat.div
         (PyFloat.mul (PyFloat.of_Z 2) (PyFloat.of_Z (Z.of_nat matches)))
         (PyFloat.of_Z (Z.of_nat len)).

End Matcher.

End Difflib.

(** ** [json.loads] on arrays of plain strings

    The JSON reader is the standard library's and stays a parameter of
    the scorer. This module follows CPython's decoder ([json.decoder]:
    [JSONDecoder.decode], [JSONArray], [scanstring] in strict mode) on
    one kind of text only: an array whose elements are string literals
    without escapes, the text [json.dumps] writes for a list of plain
    strings. On such a text [json.loads] returns the list of the
    elements, and [plain_array_len] is its length; on any other text
    [plain_array_len] is [None], which says nothing about
    [json.loads]. *)

Module Json.

Local Open Scope nat_scope.

(** [WHITESPACE_STR = ' \t\n\r'] *)
Definition is_ws (c : ascii) : bool :=
  let n := PyStr.code c in (n =? 32) || (n =? 9) || (n =? 10) || (n =? 13).

(** Where the decoder stands: before the opening bracket, after it,
    inside a string literal, after a value, after a comma, after the
    closing bracket. *)
Inductive state :=
| before_array | after_open | in_string | after_value | after_comma
| after_array.

(** One pass over the text; [n] counts the elements read so far. The
    codes are [[] 91, []] 93, the quote 34, the comma 44 and the
    backslash 92; a character below 32 inside a literal is an invalid
    control character. *)
Fixpoint scan (st : state) (n : nat) (s : string) : option nat :=
  match s with
  | EmptyString => match st with after_array => Some n | _ => None end
  | String c r =>
      let k := PyStr.code c in
      match st with
      | before_array =>
          if is_ws c then scan before_array n r
          else if k =? 91 then scan after_open n r
          else None
      | after_open =>
          if is_ws c then scan after_open n r
          else if k =? 93 then scan after_array n r
          else if k =? 34 then scan in_string n r
          else None
      | in_string =>
          if k =? 34 then scan after_value (S n) r
          else if (k =? 92) || (k <? 32) then None
          else scan in_string n r
      | after_value =>
          if is_ws c then scan after_value n r
          else if k =? 93 then scan after_array n r
          else if k =? 44 then scan after_comma n r
          else None
      | after_comma =>
          if is_ws c then scan after_comma n r
          else if k =? 34 then scan in_string n r
          else None
      | after_array =>
          if is_ws c then scan after_array n r else None
      end
  end.

Definition plain_array_len (s : string) : option nat := scan before_array 0 s.

End Json.

(** ** The [YachtListing] row (models.py)

    The columns the two engines read or write, plus the identity columns;
    [created_at] and [updated_at] are read by neither engine and are left
    out. [title], [source_url] and [source_platform] are [nullable=False]. *)

Record YachtListing := mkListing {
  id : Z;
  title : string;
  price : option PyFloat.float;
  currency : option string;
  year : option Z;
  brand : option string;
  model : option string;
  length : option PyFloat.float;
  location : option string;
  condition : option string;
  description : option string;
  seller_name : option string;
  seller_type : option string;
  source_url : string;
  source_platform : string;
  images : option string;
  hin : option string;
  mmsi : option string;
  is_duplicate : bool;
  score : PyFloat.float
}.

(** Truth value of a nullable [Integer] column. *)
Definition int_truthy (x : option Z) : bool :=
  match x with
  | Some n => negb (n =? 0)
  | None => false
  end.

(** Truth value of a nullable [Float] column. *)
Definition float_truthy (x : option PyFloat.float) : bool :=
  match x with
  | Some f => PyFloat.truthy f
  | None => false
  end.

(** ** [YachtDeduplicator] *)

Module YachtDeduplicator.

Import PyFloat.

(** [self.similarity_threshold = 0.85] *)
Definition similarity_threshold : float := lit 85 100.

Definition normalize_text (text : string) : string :=
  if negb (PyStr.truthy text) then EmptyString
  else
    let text := PyStr.lower text in
    let text := Re.sub_non_word_space text in
    let text := Re.sub_stop_words text in
    let text := Re.sub_spaces text in
    PyStr.strip text.

Definition text_similarity (text1 text2 : string) : float :=
  Difflib.ratio (list_ascii_of_string text1) (list_ascii_of_string text2).

(** [f"{listing.brand or ''} {listing.model or ''}".strip()] *)
Definition brand_model (l : YachtListing) : string :=
  PyStr.strip
    (PyStr.or_empty (brand l) ++ " " ++ PyStr.or_empty (model l))%string.

(** [max(0, x)]; the [int] [0] it may return enters the later products
    as the float zero. *)
Definition max0 (x : float) : float := py_max (of_Z 0) x.

Definition title_sim (l1 l2 : YachtListing) : float :=
  text_similarity (normalize_text (title l1)) (normalize_text (title l2)).

Definition brand_sim (l1 l2 : YachtListing) : float :=
  text_similarity (normalize_text (brand_model l1))
                  (normalize_text (brand_model l2)).

Definition year_sim (y1 y2 : Z) : float :=
  let year_diff := Z.abs (y1 - y2) in
  if year_diff =? 0 then of_Z 1
  else max0 (sub (of_Z 1) (div (of_Z year_diff) (of_Z 5))).

Definition length_sim (x1 x2 : float) : float :=
  let length_diff := abs (sub x1 x2) in
  if ltb length_diff (lit 5 10) then of_Z 1
  else max0 (sub (of_Z 1) (div length_diff (of_Z 5))).

Definition price_sim (p1 p2 : float) : float :=
  let price_diff := abs (sub p1 p2) in
  let price_ratio := div price_diff (py_max p1 p2) in
  max0 (sub (of_Z 1) price_ratio).

(** The weights appended next to the scores. *)
Definition w_title : float := lit 4 10.
Definition w_brand : float := lit 3 10.
Definition w_year : float := lit 1 10.
Definition w_length : float := lit 1 10.
Definition w_price : float := lit 1 10.

(** The state [(scores, weights)] of [calculate_similarity] and its five
    guarded blocks, each appending one score and one weight. *)
Definition signals := (list float * list float)%type.

Definition append (st : signals) (s w : float) : signals :=
  (fst st ++ [s], snd st ++ [w]).

Definition add_title (l1 l2 : YachtListing) (st : signals) : signals :=
  if PyStr.truthy (title l1) && PyStr.truthy (title l2)
  then append st (title_sim l1 l2) w_title else st.

Definition add_brand_model (l1 l2 : YachtListing) (st : signals) : signals :=
  if PyStr.truthy (brand_model l1) && PyStr.truthy (brand_model l2)
  then append st (brand_sim l1 l2) w_brand else st.

Definition add_year (l1 l2 : YachtListing) (st : signals) : signals :=
  match year l1, year l2 with
  | Some y1, Some y2 =>
      if negb (y1 =? 0) && negb (y2 =? 0)
      then append st (year_sim y1 y2) w_year else st
  | _, _ => st
  end.

Definition add_length (l1 l2 : YachtListing) (st : signals) : signals :=
  match length l1, length l2 with
  | Some x1, Some x2 =>
      if truthy x1 && truthy x2
      then append st (length_sim x1 x2) w_length else st
  | _, _ => st
  end.

Definition add_price (l1 l2 : YachtListing) (st : signals) : signals :=
  match price l1, price l2 with
  | Some p1, Some p2 =>
      if truthy p1 && truthy p2
      then append st (price_sim p1 p2) w_price else st
  | _, _ => st
  end.

(** [scores] and [weights] as they stand before the weighted average. *)
Definition collect_signals (l1 l2 : YachtListing) : signals :=
  add_price l1 l2
    (add_length l1 l2
       (add_year l1 l2 (add_brand_model l1 l2 (add_title l1 l2 ([], []))))).

Definition calculate_similarity (l1 l2 : YachtListing) : float :=
  let '(scores, weights) := collect_signals l1 l2 in
  match scores with
  | [] => of_Z 0
  | _ =>
      let weighted_sum :=
        py_sum (map (fun sw => mul (fst sw) (snd sw)) (combine scores weights)) in
      let total_weight := py_sum weights in
      if gtb total_weight (of_Z 0) then div weighted_sum total_weight
      else of_Z 0
  end.

Definition are_duplicates (l1 l2 : YachtListing) : bool :=
  if PyStr.opt_truthy (hin l1) && PyStr.opt_truthy (hin l2)
     && bool_decide (hin l1 = hin l2) then true
  else if PyStr.opt_truthy (mmsi l1) && PyStr.opt_truthy (mmsi l2)
          && bool_decide (mmsi l1 = mmsi l2) then true
  else if PyStr.truthy (title l1) && PyStr.truthy (title l2)
          && bool_decide (normalize_text (title l1) = normalize_text (title l2))
  then true
  else geb (calculate_similarity l1 l2) similarity_threshold.

(** The inner loop of [find_duplicates] over [listings[i+1:]]. *)
Fixpoint scan_rest (listing1 : YachtListing) (rest : list YachtListing)
         (current_group : list YachtListing) (processed_ids : gset Z)
  : list YachtListing * gset Z :=
  match rest with
  | [] => (current_group, processed_ids)
  | listing2 :: rest' =>
      if bool_decide (id listing2 ∈ processed_ids)
      then scan_rest listing1 rest' current_group processed_ids
      else if are_duplicates listing1 listing2
      then scan_rest listing1 rest' (current_group ++ [listing2])
             ({[id listing2]} ∪ processed_ids)
      else scan_rest listing1 rest' current_group processed_ids
  end.

(** The outer loop; [listings] is what is left of the input at index
    [i]. *)
Fixpoint find_duplicates_from (listings : list YachtListing)
         (duplicate_groups : list (list YachtListing))
         (processed_ids : gset Z) : list (list YachtListing) :=
  match listings with
  | [] => duplicate_groups
  | listing1 :: rest =>
      if bool_decide (id listing1 ∈ processed_ids)
      then find_duplicates_from rest duplicate_groups processed_ids
      else
        let '(current_group, processed_ids) :=
          scan_rest listing1 rest [listing1] ({[id listing1]} ∪ processed_ids) in
        find_duplicates_from rest
          (if (1 <? List.length current_group)%nat
           then duplicate_groups ++ [current_group] else duplicate_groups)
          processed_ids
  end.

Definition find_duplicates (listings : list YachtListing)
  : list (list YachtListing) :=
  find_duplicates_from listings [] ∅.

End YachtDeduplicator.

(** ** [YachtScorer] *)

Module YachtScorer.

Import PyFloat.
Local Open Scope string_scope.

(** The scorer object: [__init__] stores [datetime.now().year]. *)
Record Scorer := mkScorer { current_year : Z }.

(** [YachtScorer()] built when the clock shows the year [now_year]. *)
Definition init (now_year : Z) : Scorer := mkScorer now_year.

Definition premium_brands : list string :=
  ["bavaria"; "jeanneau"; "beneteau"; "hanse"; "dehler";
   "x-yachts"; "hallberg-rassy"; "najad"; "swan"; "oyster"].

(** ['lübeck'], with U+00FC as one character. *)
Definition luebeck : string :=
  String "l" (String (ascii_of_nat 252) "beck").

Definition major_locations : list string :=
  ["hamburg"; "kiel"; "bremen"; "rostock"; "flensburg";
   luebeck; "stralsund"; "greifswald"].

(** [any(x in text for x in xs)] *)
Definition any_in (xs : list string) (text : string) : bool :=
  existsb (fun x => PyStr.contains x text) xs.

Section Score.

Variable self : Scorer.

(** [len(json.loads(s))] inside the [try]: [None] when [json.loads] or
    [len] raises, which the bare [except] swallows. The JSON reader is
    the standard library's and stays a parameter. *)
Variable json_len : string -> option nat.

Definition age_factor (l : YachtListing) (score : float) : float :=
  match year l with
  | Some y =>
      if negb (y =? 0)%Z then
        let age := current_year self - y in
        if (age <=? 5)%Z then add score (of_Z 2)
        else if (age <=? 10)%Z then add score (lit 15 10)
        else if (age <=? 15)%Z then add score (of_Z 1)
        else if (age <=? 20)%Z then add score (lit 5 10)
        else score
      else score
  | None => score
  end.

Definition price_factor (l : YachtListing) (score : float) : float :=
  match price l, length l with
  | Some p, Some len =>
      if truthy p && truthy len then
        let price_per_meter := div p len in
        if leb (of_Z 10000) price_per_meter
           && leb price_per_meter (of_Z 50000)
        then add score (of_Z 2)
        else if leb (of_Z 5000) price_per_meter
                && leb price_per_meter (of_Z 80000)
        then add score (of_Z 1)
        else if ltb price_per_meter (of_Z 5000)
        then add score (lit 5 10)
        else score
      else score
  | _, _ => score
  end.

Definition length_factor (l : YachtListing) (score : float) : float :=
  match length l with
  | Some len =>
      if truthy len then
        if leb (of_Z 10) len && leb len (of_Z 15)
        then add score (lit 15 10)
        else if leb (of_Z 8) len && leb len (of_Z 20)
        then add score (of_Z 1)
        else if gtb len (of_Z 20) then add score (lit 5 10)
        else score
      else score
  | None => score
  end.

Definition brand_factor (l : YachtListing) (score : float) : float :=
  if PyStr.opt_truthy (brand l) then
    let brand_lower := PyStr.lower (PyStr.or_empty (brand l)) in
    if any_in premium_brands brand_lower then add score (of_Z 1)
    else score
  else score.

Definition seller_factor (l : YachtListing) (score : float) : float :=
  if bool_decide (seller_type l = Some "dealer")
  then add score (lit 5 10) else score.

Definition location_factor (l : YachtListing) (score : float) : float :=
  if PyStr.opt_truthy (location l) then
    let location_lower := PyStr.lower (PyStr.or_empty (location l)) in
    if any_in major_locations location_lower then add score (lit 5 10)
    else score
  else score.

Definition description_factor (l : YachtListing) (score : float) : float :=
  if PyStr.opt_truthy (description l) then
    let desc_length := String.length (PyStr.or_empty (description l)) in
    if (500 <? desc_length)%nat then add score (of_Z 1)
    else if (200 <? desc_length)%nat then add score (lit 5 10)
    else score
  else score.

Definition images_factor (l : YachtListing) (score : float) : float :=
  if PyStr.opt_truthy (images l) then
    match json_len (PyStr.or_empty (images l)) with
    | Some n =>
        if (5 <=? n)%nat then add score (of_Z 1)
        else if (2 <=? n)%nat then add score (lit 5 10)
        else score
    | None => score
    end
  else score.

Definition condition_factor (l : YachtListing) (score : float) : float :=
  if PyStr.opt_truthy (condition l) then
    let condition_lower := PyStr.lower (PyStr.or_empty (condition l)) in
    if PyStr.contains "new" condition_lower then add score (lit 15 10)
    else if PyStr.contains "excellent" condition_lower
            || PyStr.contains "very good" condition_lower
    then add score (of_Z 1)
    else if PyStr.contains "good" condition_lower
    then add score (lit 5 10)
    else score
  else score.

(** The value of [score] when the normalisation is reached. *)
Definition raw_score (l : YachtListing) : float :=
  let score := of_Z 0 in
  let score := add score (of_Z 1) in
  let score := age_factor l score in
  let score := price_factor l score in
  let score := length_factor l score in
  let score := brand_factor l score in
  let score := seller_factor l score in
  let score := location_factor l score in
  let score := description_factor l score in
  let score := images_factor l score in
  condition_factor l score.

Definition max_possible_score : float := of_Z 12.

(** [(score / max_possible_score) * 10.0] *)
Definition scaled (score : float) : float :=
  mul (div score max_possible_score) (of_Z 10).

Definition calculate_score (l : YachtListing) : float :=
  let normalized_score := py_min (of_Z 10) (scaled (raw_score l)) in
  round2 normalized_score.

End Score.

End YachtScorer.

(** ** The listing store and the two batch runs *)

Module Engine.

(** An exception, by its description. *)
Definition exn := string.

Inductive outcome (A : Type) :=
| Returns (a : A)
| Raises (e : exn).
Arguments Returns {A} a.
Arguments Raises {A} e.

(** Modelled from the spec: the listing store and its session
    ([SessionLocal], [db.query], [db.commit], [db.rollback], [db.close])
    are an external collaborator. A session reads the committed rows in
    insertion order, keeps the objects written to during the batch by
    primary key, and [commit] applies all of those writes or none. *)
Record Session := mkSession {
  rows : list YachtListing;
  dirty : gmap Z YachtListing
}.

(** Which store calls fail in a run, and with what. *)
Record Faults := mkFaults {
  query_fault : option exn;
  commit_fault : option exn
}.

(** A computation inside the [try] block: it reads the faults, threads
    the session and may raise. *)
Definition M (A : Type) : Type := Faults -> Session -> outcome A * Session.

Definition ret {A} (a : A) : M A := fun _ db => (Returns a, db).

Definition bind {A B} (m : M A) (k : A -> M B) : M B :=
  fun f db =>
    match m f db with
    | (Returns a, db') => k a f db'
    | (Raises e, db') => (Raises e, db')
    end.

Notation "x <- m ;; k" := (bind m (fun x => k))
  (at level 100, m at next level, right associativity).
Notation "m ;;; k" := (bind m (fun _ => k))
  (at level 100, right associativity).

Definition SessionLocal (store : list YachtListing) : Session :=
  mkSession store ∅.

(** [db.query(YachtListing).filter(YachtListing.is_duplicate == False).all()] *)
Definition query_active : M (list YachtListing) :=
  fun f db =>
    match query_fault f with
    | Some e => (Raises e, db)
    | None => (Returns (List.filter (fun l => negb (is_duplicate l)) (rows db)), db)
    end.

(** The object the session holds for the row of [l]. *)
Definition current (db : Session) (l : YachtListing) : YachtListing :=
  default l (dirty db !! id l).

Definition with_is_duplicate (v : bool) (l : YachtListing) : YachtListing :=
  mkListing (id l) (title l) (price l) (currency l) (year l) (brand l)
    (model l) (length l) (location l) (condition l) (description l)
    (seller_name l) (seller_type l) (source_url l) (source_platform l)
    (images l) (hin l) (mmsi l) v (score l).

Definition with_score (v : PyFloat.float) (l : YachtListing) : YachtListing :=
  mkListing (id l) (title l) (price l) (currency l) (year l) (brand l)
    (model l) (length l) (location l) (condition l) (description l)
    (seller_name l) (seller_type l) (source_url l) (source_platform l)
    (images l) (hin l) (mmsi l) (is_duplicate l) v.

(** [listing.is_duplicate = True] *)
Definition set_is_duplicate (l : YachtListing) : M unit :=
  fun _ db =>
    (Returns tt,
     mkSession (rows db)
       (<[id l := with_is_duplicate true (current db l)]> (dirty db))).

(** [listing.score = score] *)
Definition set_score (l : YachtListing) (v : PyFloat.float) : M unit :=
  fun _ db =>
    (Returns tt,
     mkSession (rows db) (<[id l := with_score v (current db l)]> (dirty db))).

(** [db.commit()] *)
Definition commit : M unit :=
  fun f db =>
    match commit_fault f with
    | Some e => (Raises e, db)
    | None =>
        (Returns tt,
         mkSession (map (fun r => default r (dirty db !! id r)) (rows db)) ∅)
    end.

(** [db.rollback()] *)
Definition rollback (db : Session) : Session := mkSession (rows db) ∅.

(** [db.close()]: what the store holds once the session is gone. *)
Definition close (db : Session) : list YachtListing := rows db.

(** [try: body  except Exception as e: db.rollback(); raise e
    finally: db.close()] on a fresh session. *)
Definition run_in_session {A} (body : M A) (f : Faults)
           (store : list YachtListing) : outcome A * list YachtListing :=
  match body f (SessionLocal store) with
  | (Returns a, db) => (Returns a, close db)
  | (Raises e, db) => (Raises e, close (rollback db))
  end.

(** [for x in xs: body(x)] *)
Fixpoint for_each {A} (xs : list A) (body : A -> M unit) : M unit :=
  match xs with
  | [] => ret tt
  | x :: r => body x ;;; for_each r body
  end.

Record DedupResults := mkDedupResults {
  processed : Z;
  duplicates_found : Z;
  duplicates_marked : Z
}.

(** The two counters after the marking loop. *)
Definition count_marked (groups : list (list YachtListing)) : Z :=
  fold_left (fun n g => n + Z.of_nat (List.length (tl g))) groups 0.

Definition count_found (groups : list (list YachtListing)) : Z :=
  fold_left (fun n g => n + (Z.of_nat (List.length g) - 1)) groups 0.

Definition deduplicate_body : M DedupResults :=
  listings <- query_active ;;
  let duplicates := YachtDeduplicator.find_duplicates listings in
  for_each duplicates
    (fun duplicate_group => for_each (tl duplicate_group) set_is_duplicate) ;;;
  commit ;;;
  ret (mkDedupResults (Z.of_nat (List.length listings))
         (count_found duplicates) (count_marked duplicates)).

Definition deduplicate_listings
  : Faults -> list YachtListing -> outcome DedupResults * list YachtListing :=
  run_in_session deduplicate_body.

Record ScoreResults := mkScoreResults {
  s_processed : Z;
  scored : Z
}.

Section Scoring.

Variable self : YachtScorer.Scorer.
Variable json_len : string -> option nat.

Definition score_body : M ScoreResults :=
  listings <- query_active ;;
  for_each listings
    (fun listing =>
       set_score listing (YachtScorer.calculate_score self json_len listing)) ;;;
  commit ;;;
  ret (mkScoreResults (Z.of_nat (List.length listings))
         (Z.of_nat (List.length listings))).

Definition score_all_listings
  : Faults -> list YachtListing -> outcome ScoreResults * list YachtListing :=
  run_in_session score_body.

End Scoring.

(** [run_deduplication_and_scoring()]: the two runs one after the other,
    each on a session of its own, their results under the keys
    ['deduplication'] and ['scoring']. [now_year] is the year the clock
    shows when [YachtScorer()] is built, after the deduplication; an
    exception of either run leaves the function. *)
Definition run_deduplication_and_scoring
           (now_year : Z) (json_len : string -> option nat)
           (f_dedup f_score : Faults) (store : list YachtListing)
  : outcome (DedupResults * ScoreResults) * list YachtListing :=
  match deduplicate_listings f_dedup store with
  | (Raises e, store1) => (Raises e, store1)
  | (Returns dedup_results, store1) =>
      match score_all_listings (YachtScorer.init now_year) json_len f_score store1 with
      | (Raises e, store2) => (Raises e, store2)
      | (Returns scoring_results, store2) =>
          (Returns (dedup_results, scoring_results), store2)
      end
  end.

End Engine.

(** ** Sample rows *)

Module Samples.

Import PyFloat.
Local Open Scope string_scope.

(** A row with the mandatory columns only. *)
Definition bare (i : Z) (t : string) : YachtListing :=
  mkListing i t None None None None None None None None None None None
    "https://example.org/listing" "example" None None None false (of_Z 0).

(** A row identified by its title and the two vessel identifiers. *)
Definition vessel (i : Z) (t : string) (h m : option string) : YachtListing :=
  mkListing i t None None None None None None None None None None None
    "https://example.org/listing" "example" None h m false (of_Z 0).

(** The pair of the end-to-end HIN example. *)
Definition ger_a : YachtListing :=
  mkListing 1 "Bavaria 46" (Some (of_Z 185000)) (Some "EUR") (Some 2018)
    None None (Some (lit 1427 100)) None None None None None
    "https://example.org/a" "example" None (Some "GER123") None false (of_Z 0).

Definition ger_b : YachtListing :=
  mkListing 2 "Completely Different Name" (Some (of_Z 50000)) (Some "EUR")
    (Some 2005) None None (Some (of_Z 8)) None None None None None
    "https://example.org/b" "example" None (Some "GER123") None false (of_Z 0).

(** A chain: [chain_a] and [chain_b] share a HIN, [chain_b] and
    [chain_c] share an MMSI, [chain_a] and [chain_c] share nothing. *)
Definition chain_a : YachtListing :=
  vessel 1 "Bavaria 46" (Some "GER123") None.
Definition chain_b : YachtListing :=
  vessel 2 "Sailing yacht" (Some "GER123") (Some "211234560").
Definition chain_c : YachtListing :=
  vessel 3 "Hanse 315" None (Some "211234560").

(** Rows that carry a year and nothing else to compare. *)
Definition only_year (i : Z) (y : Z) : YachtListing :=
  mkListing i "" None None (Some y) None None None None None None None None
    "https://example.org/listing" "example" None None None false (of_Z 0).

(** A row with a brand and a model. *)
Definition branded (i : Z) (t : string) (b m : option string) : YachtListing :=
  mkListing i t None None None b m None None None None None None
    "https://example.org/listing" "example" None None None false (of_Z 0).

(** A row for the scorer: year, brand and seller. *)
Definition scored_row (i : Z) (t : string) (y : Z) : YachtListing :=
  mkListing i t (Some (of_Z 300000)) (Some "EUR") (Some y) (Some "Bavaria")
    None (Some (of_Z 14)) (Some "Hamburg") (Some "excellent") None None
    (Some "dealer") "https://example.org/listing" "example" None None None
    false (of_Z 0).

(** One listing with a brand and a model, one with neither. *)
Definition with_brand : YachtListing :=
  branded 1 "Bavaria 46" (Some "Bavaria") (Some "46").
Definition without_brand : YachtListing := bare 2 "Bavaria 46 Cruiser".

Definition no_json (s : string) : option nat := None.

Fixpoint filler (n : nat) : string :=
  match n with
  | O => EmptyString
  | S k => String "x" (filler k)
  end.

(** A row that takes the largest addition of every rule but the images
    rule in 2024: its [images] text is no JSON. *)
Definition best_row : YachtListing :=
  mkListing 7 "Bavaria 46" (Some (of_Z 300000)) (Some "EUR") (Some 2024)
    (Some "Bavaria") (Some "46") (Some (of_Z 14)) (Some "Hamburg")
    (Some "new") (Some (filler 600)) (Some "Yachts GmbH") (Some "dealer")
    "https://example.org/listing" "example" (Some "[...]") None None
    false (of_Z 0).

(** The quote character. *)
Definition quote : string := String "034" EmptyString.

(** The text [json.dumps] writes for a list of strings of plain ASCII
    that hold neither a quote nor a backslash, as scrapers.py fills the
    [images] column. *)
Fixpoint image_items (urls : list string) : string :=
  match urls with
  | [] => ""
  | [u] => quote ++ u ++ quote
  | u :: r => quote ++ u ++ quote ++ ", " ++ image_items r
  end.

Definition image_list (urls : list string) : string :=
  "[" ++ image_items urls ++ "]".

Definition six_urls : list string :=
  ["https://example.com/yacht7_1.jpg"; "https://example.com/yacht7_2.jpg";
   "https://example.com/yacht7_3.jpg"; "https://example.com/yacht7_4.jpg";
   "https://example.com/yacht7_5.jpg"; "https://example.com/yacht7_6.jpg"].

(** A row that takes the largest addition of every rule in 2024, its
    [images] column holding six addresses. *)
Definition top_row : YachtListing :=
  mkListing 8 "Bavaria 46" (Some (of_Z 300000)) (Some "EUR") (Some 2024)
    (Some "Bavaria") (Some "46") (Some (of_Z 14)) (Some "Hamburg")
    (Some "new") (Some (filler 600)) (Some "Yachts GmbH") (Some "dealer")
    "https://example.org/listing" "example" (Some (image_list six_urls))
    None None false (of_Z 0).

End Samples.

(** ** Sample stores *)

Module Fleet.

Import PyFloat.
Local Open Scope string_scope.

(** The chain of [Samples] as a store. *)
Definition chain : list YachtListing :=
  [Samples.chain_a; Samples.chain_b; Samples.chain_c].

(** Its two ends, which share nothing. *)
Definition ends : list YachtListing := [Samples.chain_a; Samples.chain_c].

Definition no_faults : Engine.Faults := Engine.mkFaults None None.

Definition disk_full : Engine.Faults := Engine.mkFaults None (Some "disk full").

(** Two titles that differ in case, punctuation and a stop word. *)
Definition plain : YachtListing := Samples.bare 1 "Bavaria 46".
Definition shouting : YachtListing := Samples.bare 2 "The BAVARIA 46!".

(** Two rows with nothing to compare. *)
Definition blank_a : YachtListing := Samples.bare 1 "".
Definition blank_b : YachtListing := Samples.bare 2 "Hanse 315".

End Fleet.

(** * Vocabulary of the statements *)

Import PyFloat.

(** What a guarded block leaves in [weights]: the old list followed by at
    most one weight. *)
Definition appends_weight (w : float) (st st' : YachtDeduplicator.signals) : Prop :=
  snd st' = snd st \/ snd st' = snd st ++ [w].

(** The columns [calculate_score] reads. *)
Definition same_scoring_fields (l1 l2 : YachtListing) : Prop :=
  year l1 = year l2 /\ price l1 = price l2 /\ length l1 = length l2
  /\ brand l1 = brand l2 /\ seller_type l1 = seller_type l2
  /\ location l1 = location l2 /\ description l1 = description l2
  /\ images l1 = images l2 /\ condition l1 = condition l2.

#[local] Instance float_eq_dec : EqDecision spec_float.
Proof. solve_decision. Defined.

(** The float [k / 2], exact for the small [k] met here. *)
Definition half (k : Z) : float := binary_normalize prec emax k (-1) false.

(** What one rule does to the running score: nothing, or one addition of
    [j / 2]. *)
Definition bump (j : Z) (s : float) : float :=
  match j with
  | 0 => s
  | _ => add s (half j)
  end.

Definition Zrange (lo : Z) (n : nat) : list Z :=
  map (fun i => lo + Z.of_nat i) (seq 0 n).

(** A rule adds [j / 2] for some [j] up to [jmax], the same [j] whatever
    the running score. *)
Definition adds_at_most (jmax : Z) (rule : float -> float) : Prop :=
  exists j, 0 <= j <= jmax /\ forall s, rule s = bump j s.

(** The number of hundredths [round2] settles on, for a positive finite
    float. *)
Definition cents (x : float) : Z :=
  match x with
  | S754_finite false m e => scaled_rne m e
  | _ => 0
  end.

(** Everything the two range theorems need, at the raw score [k / 2]. *)
Definition score_row_ok (k : Z) : bool :=
  let raw := half k in
  let normalized := py_min (of_Z 10) (YachtScorer.scaled raw) in
  let r := round2 normalized in
  leb raw (of_Z 12)
  && leb (YachtScorer.scaled raw) (of_Z 10)
  && bool_decide (normalized = YachtScorer.scaled raw)
  && leb (of_Z 0) r && leb r (of_Z 10)
  && (0 <=? cents normalized) && (cents normalized <=? 1000)
  && bool_decide (r = lit (cents normalized) 100).

(** The base [1.0] followed by the largest addition of each rule, in the
    order of the rules. *)
Definition max_contributions : list float :=
  [of_Z 1; of_Z 2; of_Z 2; lit 15 10; of_Z 1; lit 5 10; lit 5 10; of_Z 1;
   of_Z 1; lit 15 10].

(** The rules of [calculate_score] after the base score, in order. *)
Definition rules (self : YachtScorer.Scorer) (json_len : string -> option nat)
  : list (YachtListing -> float -> float) :=
  [YachtScorer.age_factor self; YachtScorer.price_factor;
   YachtScorer.length_factor; YachtScorer.brand_factor;
   YachtScorer.seller_factor; YachtScorer.location_factor;
   YachtScorer.description_factor; YachtScorer.images_factor json_len;
   YachtScorer.condition_factor].

(** [m] is the largest addition of [rule]: whatever the running score,
    every listing takes nothing or an addition [j / 2] up to [m], and
    some listing takes [m]. *)
Definition largest_addition (m : float)
           (rule : YachtListing -> float -> float) : Prop :=
  exists jmax,
    m = half jmax
    /\ (forall l, adds_at_most jmax (rule l))
    /\ exists l, forall s, rule l s = add s m.

(** The reader does what [json.loads] and [len] do on an array of plain
    strings. *)
Definition reads_plain_arrays (json_len : string -> option nat) : Prop :=
  forall s n, Json.plain_array_len s = Some n -> json_len s = Some n.

(** No character of [s] occurs in [t]. *)
Fixpoint no_common_char (s t : string) : bool :=
  match s with
  | EmptyString => true
  | String c r => negb (PyStr.occurs c t) && no_common_char r t
  end.

(** Every run length recorded in a row is at most [n]. *)
Definition runs_within (n : nat) (d : gmap nat nat) : Prop :=
  forall j v, d !! j = Some v -> (v <= n)%nat.

(** The block starts at or after [lo] and ends at or before [hi] in [a]. *)
Definition block_within (lo hi : nat) (m : Difflib.Match) : Prop :=
  (lo <= Difflib.m_a m /\ Difflib.m_a m + Difflib.m_size m <= hi)%nat.

(** Passes of the [while queue] loop still owed to a work list. *)
Fixpoint passes (q : Difflib.queue) : nat :=
  match q with
  | [] => 0%nat
  | (alo, ahi, _, _) :: q' => (2 * (ahi - alo) + 1 + passes q')%nat
  end.

Definition ordered (r : nat * nat * nat * nat) : Prop :=
  let '(alo, ahi, _, _) := r in (alo <= ahi)%nat.

(** ** Clusters and marks *)

(** The primary keys of a list of rows. *)
Definition ids (ls : list YachtListing) : list Z := map id ls.

(** No later listing of the list is a duplicate of an earlier one. *)
Fixpoint no_later_duplicate (ls : list YachtListing) : Prop :=
  match ls with
  | [] => True
  | x :: r =>
      Forall (fun y => YachtDeduplicator.are_duplicates x y = false) r
      /\ no_later_duplicate r
  end.

(** The keys of the listings a run marks: every member of a cluster
    after its first. *)
Definition marked_ids (groups : list (list YachtListing)) : list Z :=
  ids (concat (map (@tl YachtListing) groups)).

Definition is_marked (groups : list (list YachtListing)) (l : YachtListing) : bool :=
  existsb (Z.eqb (id l)) (marked_ids groups).

(** The listings of the input that the clusters leave unmarked. *)
Definition survivors (groups : list (list YachtListing))
           (listings : list YachtListing) : list YachtListing :=
  List.filter (fun l => negb (is_marked groups l)) listings.

(** A cluster as [find_duplicates] builds it from [listings]: an anchor
    and at least one member, each standing after the anchor in the input
    and a duplicate of the anchor. *)
Definition cluster_of (listings : list YachtListing) (g : list YachtListing) : Prop :=
  exists a ms before after,
    g = a :: ms /\ ms <> [] /\ listings = before ++ a :: after
    /\ Forall (fun m => In m after
                        /\ YachtDeduplicator.are_duplicates a m = true) ms.

(** The row a successful deduplication leaves in place of [r]. *)
Definition mark (groups : list (list YachtListing)) (r : YachtListing) : YachtListing :=
  if is_marked groups r then Engine.with_is_duplicate true r else r.

(** The rows a run reads. *)
Definition active (store : list YachtListing) : list YachtListing :=
  List.filter (fun l => negb (is_duplicate l)) store.

(** The session's objects after the rows [ms] were written to one by one,
    each write turning the object [x] held for the row [l] into [u l x]. *)
Definition written (u : YachtListing -> YachtListing -> YachtListing)
           (ms : list YachtListing) (d : gmap Z YachtListing) : gmap Z YachtListing :=
  fold_left (fun d l => <[id l := u l (default l (d !! id l))]> d) ms d.

(** The row a successful scoring run leaves in place of [r]. *)
Definition rescore (self : YachtScorer.Scorer) (json_len : string -> option nat)
           (r : YachtListing) : YachtListing :=
  if is_duplicate r then r
  else Engine.with_score (YachtScorer.calculate_score self json_len r) r.

(** ** Scores *)

(** The score [calculate_score] returns at the raw score [k / 2]. *)
Definition final_score (k : Z) : float :=
  round2 (py_min (of_Z 10) (YachtScorer.scaled (half k))).

(** The half points of the age rule. *)
Definition age_points (self : YachtScorer.Scorer) (y : Z) : Z :=
  let age := YachtScorer.current_year self - y in
  if age <=? 5 then 4 else if age <=? 10 then 3
  else if age <=? 15 then 2 else if age <=? 20 then 1 else 0.

(** The row with the [images] column cleared. *)
Definition without_images (l : YachtListing) : YachtListing :=
  mkListing (id l) (title l) (price l) (currency l) (year l) (brand l)
    (model l) (length l) (location l) (condition l) (description l)
    (seller_name l) (seller_type l) (source_url l) (source_platform l)
    None (hin l) (mmsi l) (is_duplicate l) (score l).

(** The row with another [year]. *)
Definition with_year (y : option Z) (l : YachtListing) : YachtListing :=
  mkListing (id l) (title l) (price l) (currency l) y (brand l)
    (model l) (length l) (location l) (condition l) (description l)
    (seller_name l) (seller_type l) (source_url l) (source_platform l)
    (images l) (hin l) (mmsi l) (is_duplicate l) (score l).

(** The rules after the age rule, in order. *)
Definition later_rules (json_len : string -> option nat) (l : YachtListing)
           (s : float) : float :=
  YachtScorer.condition_factor l
    (YachtScorer.images_factor json_len l
       (YachtScorer.description_factor l
          (YachtScorer.location_factor l
             (YachtScorer.seller_factor l
                (YachtScorer.brand_factor l
                   (YachtScorer.length_factor l
                      (YachtScorer.price_factor l s))))))).

(** ** Normalised text *)

(** The word characters a string starts with. *)
Fixpoint word_prefix (s : string) : string :=
  match s with
  | EmptyString => EmptyString
  | String c r => if PyStr.isword c then String c (word_prefix r) else EmptyString
  end.

Fixpoint allword (s : string) : bool :=
  match s with
  | EmptyString => true
  | String c r => PyStr.isword c && allword r
  end.

(** [s] without its first [k] characters. *)
Fixpoint skip_chars (k : nat) (s : string) : string :=
  match k, s with
  | S k', String _ r => skip_chars k' r
  | _, _ => s
  end.

(** The second pattern matches where a word starts ([bw] says whether the
    character before is a word character) and the word is a stop word. *)
Definition stop_word_here (bw : bool) (s : string) : bool :=
  negb bw && existsb (fun w => String.eqb (word_prefix s) w) Re.stop_words.

(** The second pattern matches nowhere in [s]. *)
Fixpoint no_stop_word (bw : bool) (s : string) : Prop :=
  match s with
  | EmptyString => True
  | String c r => stop_word_here bw s = false /\ no_stop_word (PyStr.isword c) r
  end.

(** Every whitespace character is a single U+0020 between two others;
    [in_run] says that the character before is a space. *)
Fixpoint single_spaced (in_run : bool) (s : string) : Prop :=
  match s with
  | EmptyString => True
  | String c r =>
      if PyStr.isspace c
      then in_run = false /\ c = " "%char /\ single_spaced true r
      else single_spaced false r
  end.

(** ** Matching blocks *)

(** Total size of a list of blocks. *)
Definition total_size (l : list Difflib.Match) : nat :=
  fold_right (fun x n => (Difflib.m_size x + n)%nat) O l.

(** Every run recorded at key [j] starts at or after [blo] in [b]. *)
Definition runs_from (blo : nat) (d : gmap nat nat) : Prop :=
  forall j v, d !! j = Some v -> (blo + v <= S j)%nat.

(** The block lies in [blo, bhi) of [b]. *)
Definition block_within_b (lo hi : nat) (m : Difflib.Match) : Prop :=
  (lo <= Difflib.m_b m /\ Difflib.m_b m + Difflib.m_size m <= hi)%nat.

(** Characters of [a] and of [b] still pending in a work list. *)
Fixpoint pending_a (q : Difflib.queue) : nat :=
  match q with
  | [] => 0%nat
  | (alo, ahi, _, _) :: q' => (ahi - alo + pending_a q')%nat
  end.

Fixpoint pending_b (q : Difflib.queue) : nat :=
  match q with
  | [] => 0%nat
  | (_, _, blo, bhi) :: q' => (bhi - blo + pending_b q')%nat
  end.

Definition ordered_b (r : nat * nat * nat * nat) : Prop :=
  let '(_, _, blo, bhi) := r in (blo <= bhi)%nat.

(** The indices from [lo] on, in increasing order. *)
Fixpoint above (lo : nat) (js : list nat) : Prop :=
  match js with
  | [] => True
  | j :: r => (lo <= j)%nat /\ above (S j) r
  end.

(** The character of [s] at [i] has an entry in [b2j]. *)
Definition kept (s : list ascii) (i : nat) : bool :=
  match s !! i with
  | Some c => negb (Difflib.popular s c)
  | None => false
  end.

(** Number of consecutive kept positions of [s] that end just before [i]. *)
Fixpoint diag (s : list ascii) (i : nat) : nat :=
  match i with
  | O => O
  | S i' => if kept s i' then S (diag s i') else O
  end.

(** What the rows before [i] leave behind when [s] is matched against
    itself: the runs recorded for row [i - 1] and the best block so far. *)
Definition row_state (s : list ascii) (i : nat)
           (st : gmap nat nat * Difflib.Match) : Prop :=
  (forall j v, fst st !! j = Some v -> (v <= diag s i /\ v <= diag s (S j))%nat)
  /\ (forall i', i = S i' -> kept s i' = true -> fst st !! i' = Some (diag s i))
  /\ Difflib.m_a (snd st) = Difflib.m_b (snd st)
  /\ (forall j, (j < i)%nat -> (diag s (S j) <= Difflib.m_size (snd st))%nat).

(** * Properties *)


(** ** Duplicate decision *)

(** C2: two listings whose [hin] values are non-empty and equal are
    duplicates, whatever their other fields hold. *)
Theorem are_duplicates_same_hin (l1 l2 : YachtListing) (h : string) :
  h <> EmptyString ->
  hin l1 = Some h ->
  hin l2 = Some h ->
  YachtDeduplicator.are_duplicates l1 l2 = true.
Proof.
  intros Hne H1 H2. unfold YachtDeduplicator.are_duplicates.
  rewrite H1, H2. simpl.
  destruct h as [|c r]; [congruence|]. simpl.
  rewrite bool_decide_eq_true_2 by reflexivity. reflexivity.
Qed.

Lemma are_duplicates_same_hin_witness :
  YachtDeduplicator.are_duplicates Samples.ger_a Samples.ger_b = true.
Proof.
  apply (are_duplicates_same_hin Samples.ger_a Samples.ger_b "GER123"%string).
  - discriminate.
  - reflexivity.
  - reflexivity.
Defined.

(** ** Composite similarity *)

Lemma add_title_skip l1 l2 st :
  PyStr.truthy (title l1) && PyStr.truthy (title l2) = false ->
  YachtDeduplicator.add_title l1 l2 st = st.
Proof. intros H. unfold YachtDeduplicator.add_title. now rewrite H. Qed.

Lemma add_brand_model_skip l1 l2 st :
  PyStr.truthy (YachtDeduplicator.brand_model l1)
  && PyStr.truthy (YachtDeduplicator.brand_model l2) = false ->
  YachtDeduplicator.add_brand_model l1 l2 st = st.
Proof. intros H. unfold YachtDeduplicator.add_brand_model. now rewrite H. Qed.

Lemma add_length_skip l1 l2 st :
  float_truthy (length l1) && float_truthy (length l2) = false ->
  YachtDeduplicator.add_length l1 l2 st = st.
Proof.
  unfold YachtDeduplicator.add_length, float_truthy.
  destruct (length l1), (length l2); intros H; try reflexivity.
  now rewrite H.
Qed.

Lemma add_price_skip l1 l2 st :
  float_truthy (price l1) && float_truthy (price l2) = false ->
  YachtDeduplicator.add_price l1 l2 st = st.
Proof.
  unfold YachtDeduplicator.add_price, float_truthy.
  destruct (price l1), (price l2); intros H; try reflexivity.
  now rewrite H.
Qed.

Lemma year_sim_same y : YachtDeduplicator.year_sim y y = of_Z 1.
Proof.
  unfold YachtDeduplicator.year_sim.
  replace (y - y)%Z with 0%Z by lia. reflexivity.
Qed.

(** C3: when the title, brand+model, length and price signals are all
    unavailable and both years are present (not [None], not [0]) and
    equal, the composite similarity is exactly [1.0], which reaches the
    [0.85] threshold, so the pair is a duplicate. *)
Theorem calculate_similarity_year_only (l1 l2 : YachtListing) :
  PyStr.truthy (title l1) && PyStr.truthy (title l2) = false ->
  PyStr.truthy (YachtDeduplicator.brand_model l1)
  && PyStr.truthy (YachtDeduplicator.brand_model l2) = false ->
  float_truthy (length l1) && float_truthy (length l2) = false ->
  float_truthy (price l1) && float_truthy (price l2) = false ->
  int_truthy (year l1) = true ->
  year l1 = year l2 ->
  YachtDeduplicator.calculate_similarity l1 l2 = of_Z 1
  /\ geb (of_Z 1) YachtDeduplicator.similarity_threshold = true
  /\ YachtDeduplicator.are_duplicates l1 l2 = true.
Proof.
  intros Ht Hb Hl Hp Hy Heq.
  assert (Hsim : YachtDeduplicator.calculate_similarity l1 l2 = of_Z 1).
  { unfold YachtDeduplicator.calculate_similarity,
      YachtDeduplicator.collect_signals.
    rewrite add_title_skip, add_brand_model_skip by assumption.
    rewrite add_price_skip, add_length_skip by assumption.
    unfold YachtDeduplicator.add_year. rewrite <- Heq.
    destruct (year l1) as [y|]; [|discriminate]. simpl in Hy.
    rewrite Hy. simpl. rewrite year_sim_same. vm_compute. reflexivity. }
  split; [exact Hsim|]. split; [vm_compute; reflexivity|].
  unfold YachtDeduplicator.are_duplicates. rewrite Hsim.
  repeat match goal with |- (if ?c then true else _) = true => destruct c; [reflexivity|] end.
  vm_compute. reflexivity.
Qed.

Lemma calculate_similarity_year_only_witness :
  YachtDeduplicator.calculate_similarity
    (Samples.only_year 1 2018) (Samples.only_year 2 2018) = of_Z 1
  /\ geb (of_Z 1) YachtDeduplicator.similarity_threshold = true
  /\ YachtDeduplicator.are_duplicates
       (Samples.only_year 1 2018) (Samples.only_year 2 2018) = true.
Proof.
  apply (calculate_similarity_year_only
           (Samples.only_year 1 2018) (Samples.only_year 2 2018));
    reflexivity.
Defined.

Lemma w_brand_not_title : YachtDeduplicator.w_brand <> YachtDeduplicator.w_title.
Proof. vm_compute. discriminate. Qed.

Lemma w_brand_not_tenth : YachtDeduplicator.w_brand <> YachtDeduplicator.w_year.
Proof. vm_compute. discriminate. Qed.


Lemma add_title_weight l1 l2 st :
  appends_weight YachtDeduplicator.w_title st (YachtDeduplicator.add_title l1 l2 st).
Proof.
  unfold YachtDeduplicator.add_title, appends_weight.
  destruct (_ && _); simpl; auto.
Qed.

Lemma add_year_weight l1 l2 st :
  appends_weight YachtDeduplicator.w_year st (YachtDeduplicator.add_year l1 l2 st).
Proof.
  unfold YachtDeduplicator.add_year, appends_weight.
  destruct (year l1), (year l2); auto. destruct (_ && _); simpl; auto.
Qed.

Lemma add_length_weight l1 l2 st :
  appends_weight YachtDeduplicator.w_length st (YachtDeduplicator.add_length l1 l2 st).
Proof.
  unfold YachtDeduplicator.add_length, appends_weight.
  destruct (length l1), (length l2); auto. destruct (_ && _); simpl; auto.
Qed.

Lemma add_price_weight l1 l2 st :
  appends_weight YachtDeduplicator.w_price st (YachtDeduplicator.add_price l1 l2 st).
Proof.
  unfold YachtDeduplicator.add_price, appends_weight.
  destruct (price l1), (price l2); auto. destruct (_ && _); simpl; auto.
Qed.

Lemma appends_other_weight w st st' :
  YachtDeduplicator.w_brand <> w ->
  appends_weight w st st' ->
  (In YachtDeduplicator.w_brand (snd st') <-> In YachtDeduplicator.w_brand (snd st)).
Proof.
  intros Hw [H|H]; rewrite H; [tauto|].
  rewrite in_app_iff. simpl. split; [|tauto].
  intros [?|[?|[]]]; [assumption|]. congruence.
Qed.

(** C6, as the code has it: the brand+model weight [0.3] is among the
    weights of the composite exactly when both trimmed concatenations are
    non-empty; one empty concatenation is enough to skip the signal. *)
Theorem brand_model_signal_iff (l1 l2 : YachtListing) :
  In YachtDeduplicator.w_brand (snd (YachtDeduplicator.collect_signals l1 l2))
  <-> YachtDeduplicator.brand_model l1 <> EmptyString
      /\ YachtDeduplicator.brand_model l2 <> EmptyString.
Proof.
  unfold YachtDeduplicator.collect_signals.
  rewrite (appends_other_weight _ _ _ w_brand_not_tenth (add_price_weight _ _ _)).
  rewrite (appends_other_weight _ _ _ w_brand_not_tenth (add_length_weight _ _ _)).
  rewrite (appends_other_weight _ _ _ w_brand_not_tenth (add_year_weight _ _ _)).
  unfold YachtDeduplicator.add_brand_model.
  destruct (YachtDeduplicator.brand_model l1) as [|c1 r1] eqn:E1;
    destruct (YachtDeduplicator.brand_model l2) as [|c2 r2] eqn:E2; simpl.
  all: try (rewrite (appends_other_weight _ _ _ w_brand_not_title (add_title_weight _ _ _));
            simpl; split; [intros [] | intros [H1 H2]; congruence]).
  rewrite in_app_iff. simpl. split; [|tauto].
  intros _. split; discriminate.
Qed.

(** C6 as stated fails: one concatenation is ["Bavaria 46"], the other is
    empty, and the weights hold the title weight alone. *)
Lemma brand_model_signal_one_sided :
  YachtDeduplicator.brand_model
    Samples.with_brand
  = "Bavaria 46"%string
  /\ YachtDeduplicator.brand_model Samples.without_brand
     = EmptyString
  /\ snd (YachtDeduplicator.collect_signals
            Samples.with_brand
            Samples.without_brand)
     = [YachtDeduplicator.w_title]
  /\ ~ In YachtDeduplicator.w_brand
         (snd (YachtDeduplicator.collect_signals
                 Samples.with_brand
                 Samples.without_brand)).
Proof.
  split; [reflexivity|]. split; [reflexivity|].
  assert (H : snd (YachtDeduplicator.collect_signals
            Samples.with_brand
            Samples.without_brand)
     = [YachtDeduplicator.w_title]) by (vm_compute; reflexivity).
  split; [exact H|]. rewrite H. simpl.
  intros [E|[]]. exact (w_brand_not_title (eq_sym E)).
Qed.

(** ** Clustering *)

Lemma find_duplicates_anchor_only (A B C : YachtListing) :
  id A <> id B -> id A <> id C -> id B <> id C ->
  YachtDeduplicator.are_duplicates A B = true ->
  YachtDeduplicator.are_duplicates A C = false ->
  YachtDeduplicator.find_duplicates [A; B; C] = [[A; B]].
Proof.
  intros Hab Hac Hbc HAB HAC.
  unfold YachtDeduplicator.find_duplicates. simpl.
  rewrite (bool_decide_eq_false_2 (id A ∈ (∅ : gset Z)))
    by apply not_elem_of_empty.
  rewrite (bool_decide_eq_false_2 (id B ∈ _))
    by (rewrite elem_of_union, elem_of_singleton, elem_of_empty; intuition congruence).
  rewrite HAB.
  rewrite (bool_decide_eq_false_2 (id C ∈ _))
    by (rewrite !elem_of_union, !elem_of_singleton, elem_of_empty; intuition congruence).
  rewrite HAC. simpl.
  rewrite (bool_decide_eq_true_2 (id B ∈ _))
    by (rewrite !elem_of_union, !elem_of_singleton; tauto).
  rewrite (bool_decide_eq_false_2 (id C ∈ _))
    by (rewrite !elem_of_union, !elem_of_singleton, elem_of_empty; intuition congruence).
  reflexivity.
Qed.

(** C1, as the code has it: with A–B duplicate, B–C duplicate and A–C not
    duplicate (and the three primary keys distinct), the input [A, B, C]
    yields the single cluster [A, B]; C is compared with the anchor A
    only and stays out. *)
Theorem find_duplicates_chain (A B C : YachtListing) :
  id A <> id B -> id A <> id C -> id B <> id C ->
  YachtDeduplicator.are_duplicates A B = true ->
  YachtDeduplicator.are_duplicates B C = true ->
  YachtDeduplicator.are_duplicates A C = false ->
  YachtDeduplicator.find_duplicates [A; B; C] = [[A; B]].
Proof.
  intros Hab Hac Hbc HAB _ HAC. now apply find_duplicates_anchor_only.
Qed.

Lemma find_duplicates_chain_witness :
  YachtDeduplicator.find_duplicates
    [Samples.chain_a; Samples.chain_b; Samples.chain_c]
  = [[Samples.chain_a; Samples.chain_b]].
Proof.
  apply (find_duplicates_chain Samples.chain_a Samples.chain_b Samples.chain_c).
  - discriminate.
  - discriminate.
  - discriminate.
  - vm_compute; reflexivity.
  - vm_compute; reflexivity.
  - vm_compute; reflexivity.
Defined.

(** C1 as stated fails on the chain: the three pairwise premises hold and
    the result is not the cluster of all three. *)
Lemma find_duplicates_chain_not_joined :
  YachtDeduplicator.are_duplicates Samples.chain_a Samples.chain_b = true
  /\ YachtDeduplicator.are_duplicates Samples.chain_b Samples.chain_c = true
  /\ YachtDeduplicator.are_duplicates Samples.chain_a Samples.chain_c = false
  /\ YachtDeduplicator.find_duplicates
       [Samples.chain_a; Samples.chain_b; Samples.chain_c]
     <> [[Samples.chain_a; Samples.chain_b; Samples.chain_c]].
Proof.
  repeat split; try (vm_compute; reflexivity).
  rewrite (find_duplicates_anchor_only Samples.chain_a Samples.chain_b Samples.chain_c);
    try discriminate; try (vm_compute; reflexivity).
Qed.

(** ** Batch runs and the store *)

Lemma for_each_returns {A} (xs : list A) (body : A -> Engine.M unit) f db :
  (forall x db0, exists db1, body x f db0 = (Engine.Returns tt, db1) /\ Engine.rows db1 = Engine.rows db0) ->
  exists db', Engine.for_each xs body f db = (Engine.Returns tt, db')
              /\ Engine.rows db' = Engine.rows db.
Proof.
  intros Hbody. revert db. induction xs as [|x r IH]; intros db; simpl.
  - exists db. split; reflexivity.
  - unfold Engine.bind. destruct (Hbody x db) as [db1 [E1 R1]]. rewrite E1.
    destruct (IH db1) as [db2 [E2 R2]]. exists db2. split; [exact E2|congruence].
Qed.

Lemma set_is_duplicate_returns l f db :
  exists db', Engine.set_is_duplicate l f db = (Engine.Returns tt, db')
              /\ Engine.rows db' = Engine.rows db.
Proof. eexists. split; reflexivity. Qed.

Lemma set_score_returns l v f db :
  exists db', Engine.set_score l v f db = (Engine.Returns tt, db')
              /\ Engine.rows db' = Engine.rows db.
Proof. eexists. split; reflexivity. Qed.

(** A run whose query raises [e] raises [e] and leaves the store as it
    was. *)
Lemma deduplicate_query_fails f store e :
  Engine.query_fault f = Some e ->
  Engine.deduplicate_listings f store = (Engine.Raises e, store).
Proof.
  intros Hq. unfold Engine.deduplicate_listings, Engine.run_in_session,
    Engine.deduplicate_body, Engine.bind, Engine.query_active.
  rewrite Hq. reflexivity.
Qed.

Lemma score_query_fails self json_len f store e :
  Engine.query_fault f = Some e ->
  Engine.score_all_listings self json_len f store = (Engine.Raises e, store).
Proof.
  intros Hq. unfold Engine.score_all_listings, Engine.run_in_session,
    Engine.score_body, Engine.bind, Engine.query_active.
  rewrite Hq. reflexivity.
Qed.

(** A run whose commit raises [e] has marked listings in the session by
    then; the rollback discards the marks. *)
Lemma deduplicate_commit_fails f store e :
  Engine.query_fault f = None ->
  Engine.commit_fault f = Some e ->
  Engine.deduplicate_listings f store = (Engine.Raises e, store).
Proof.
  intros Hq Hc. unfold Engine.deduplicate_listings, Engine.run_in_session,
    Engine.deduplicate_body, Engine.bind, Engine.query_active.
  rewrite Hq.
  match goal with |- context [Engine.for_each ?xs ?body f ?db] =>
    destruct (for_each_returns xs body f db) as [db' [E R]] end.
  { intros g db0. apply for_each_returns. intros l db1.
    apply set_is_duplicate_returns. }
  rewrite E. unfold Engine.commit. rewrite Hc.
  unfold Engine.close, Engine.rollback. simpl. now rewrite R.
Qed.

Lemma score_commit_fails self json_len f store e :
  Engine.query_fault f = None ->
  Engine.commit_fault f = Some e ->
  Engine.score_all_listings self json_len f store = (Engine.Raises e, store).
Proof.
  intros Hq Hc. unfold Engine.score_all_listings, Engine.run_in_session,
    Engine.score_body, Engine.bind, Engine.query_active.
  rewrite Hq.
  match goal with |- context [Engine.for_each ?xs ?body f ?db] =>
    destruct (for_each_returns xs body f db) as [db' [E R]] end.
  { intros l db0. apply set_score_returns. }
  rewrite E. unfold Engine.commit. rewrite Hc.
  unfold Engine.close, Engine.rollback. simpl. now rewrite R.
Qed.

(** C8: in either engine, a failure [e] of the query or of the commit
    ends the run with [e] itself raised to the caller and the store
    holding exactly the rows it held before the run. *)
Theorem batch_failure_rolls_back
        (self : YachtScorer.Scorer) (json_len : string -> option nat)
        (f : Engine.Faults) (store : list YachtListing) (e : Engine.exn) :
  Engine.query_fault f = Some e
  \/ (Engine.query_fault f = None /\ Engine.commit_fault f = Some e) ->
  Engine.deduplicate_listings f store = (Engine.Raises e, store)
  /\ Engine.score_all_listings self json_len f store = (Engine.Raises e, store).
Proof.
  intros [Hq | [Hq Hc]].
  - split; [now apply deduplicate_query_fails | now apply score_query_fails].
  - split; [now apply deduplicate_commit_fails | now apply score_commit_fails].
Qed.

Lemma batch_failure_rolls_back_witness :
  Engine.deduplicate_listings
    (Engine.mkFaults None (Some "disk full"%string)) [Samples.ger_a; Samples.ger_b]
  = (Engine.Raises "disk full"%string, [Samples.ger_a; Samples.ger_b])
  /\ Engine.score_all_listings (YachtScorer.init 2024) Samples.no_json
       (Engine.mkFaults None (Some "disk full"%string)) [Samples.ger_a; Samples.ger_b]
     = (Engine.Raises "disk full"%string, [Samples.ger_a; Samples.ger_b]).
Proof.
  apply (batch_failure_rolls_back (YachtScorer.init 2024) Samples.no_json
           (Engine.mkFaults None (Some "disk full"%string))
           [Samples.ger_a; Samples.ger_b] "disk full"%string).
  right. split; reflexivity.
Defined.

(** Without a fault the same run commits its mark: the second row of the
    HIN pair comes back flagged. *)
Example deduplicate_commits :
  Engine.deduplicate_listings (Engine.mkFaults None None)
    [Samples.ger_a; Samples.ger_b]
  = (Engine.Returns (Engine.mkDedupResults 2 1 1),
     [Samples.ger_a; Engine.with_is_duplicate true Samples.ger_b]).
Proof. vm_compute. reflexivity. Qed.

(** ** Scoring: what the score depends on *)


Section SameColumns.

Variable self : YachtScorer.Scorer.
Variable json_len : string -> option nat.
Variables l1 l2 : YachtListing.

Lemma age_factor_ext :
  year l1 = year l2 ->
  forall s, YachtScorer.age_factor self l1 s = YachtScorer.age_factor self l2 s.
Proof. intros H s. unfold YachtScorer.age_factor. now rewrite H. Qed.

Lemma price_factor_ext :
  price l1 = price l2 -> length l1 = length l2 ->
  forall s, YachtScorer.price_factor l1 s = YachtScorer.price_factor l2 s.
Proof. intros H H' s. unfold YachtScorer.price_factor. now rewrite H, H'. Qed.

Lemma length_factor_ext :
  length l1 = length l2 ->
  forall s, YachtScorer.length_factor l1 s = YachtScorer.length_factor l2 s.
Proof. intros H s. unfold YachtScorer.length_factor. now rewrite H. Qed.

Lemma brand_factor_ext :
  brand l1 = brand l2 ->
  forall s, YachtScorer.brand_factor l1 s = YachtScorer.brand_factor l2 s.
Proof. intros H s. unfold YachtScorer.brand_factor. now rewrite H. Qed.

Lemma seller_factor_ext :
  seller_type l1 = seller_type l2 ->
  forall s, YachtScorer.seller_factor l1 s = YachtScorer.seller_factor l2 s.
Proof. intros H s. unfold YachtScorer.seller_factor. now rewrite H. Qed.

Lemma location_factor_ext :
  location l1 = location l2 ->
  forall s, YachtScorer.location_factor l1 s = YachtScorer.location_factor l2 s.
Proof. intros H s. unfold YachtScorer.location_factor. now rewrite H. Qed.

Lemma description_factor_ext :
  description l1 = description l2 ->
  forall s, YachtScorer.description_factor l1 s
            = YachtScorer.description_factor l2 s.
Proof. intros H s. unfold YachtScorer.description_factor. now rewrite H. Qed.

Lemma images_factor_ext :
  images l1 = images l2 ->
  forall s, YachtScorer.images_factor json_len l1 s
            = YachtScorer.images_factor json_len l2 s.
Proof. intros H s. unfold YachtScorer.images_factor. now rewrite H. Qed.

Lemma condition_factor_ext :
  condition l1 = condition l2 ->
  forall s, YachtScorer.condition_factor l1 s
            = YachtScorer.condition_factor l2 s.
Proof. intros H s. unfold YachtScorer.condition_factor. now rewrite H. Qed.

End SameColumns.

(** C9, as the code has it: the score is a function of the scorer's
    [current_year] (the calendar year read when the scorer was built) and
    of the nine columns read from the listing; two listings that agree on
    those columns get the same score from the same scorer, whatever their
    other columns hold. *)
Theorem calculate_score_reads_listing_and_year
        (self : YachtScorer.Scorer) (json_len : string -> option nat)
        (l1 l2 : YachtListing) :
  same_scoring_fields l1 l2 ->
  YachtScorer.calculate_score self json_len l1
  = YachtScorer.calculate_score self json_len l2.
Proof.
  intros (Hy & Hp & Hl & Hb & Hs & Hloc & Hd & Hi & Hc).
  unfold YachtScorer.calculate_score, YachtScorer.raw_score.
  rewrite (condition_factor_ext l1 l2 Hc).
  rewrite (images_factor_ext json_len l1 l2 Hi).
  rewrite (description_factor_ext l1 l2 Hd).
  rewrite (location_factor_ext l1 l2 Hloc).
  rewrite (seller_factor_ext l1 l2 Hs).
  rewrite (brand_factor_ext l1 l2 Hb).
  rewrite (length_factor_ext l1 l2 Hl).
  rewrite (price_factor_ext l1 l2 Hp Hl).
  rewrite (age_factor_ext self l1 l2 Hy).
  reflexivity.
Qed.

Lemma calculate_score_reads_listing_and_year_witness :
  YachtScorer.calculate_score (YachtScorer.init 2024) Samples.no_json
    (Samples.scored_row 1 "Bavaria 46" 2018)
  = YachtScorer.calculate_score (YachtScorer.init 2024) Samples.no_json
      (Samples.scored_row 2 "Sailing yacht, well kept" 2018).
Proof.
  apply (calculate_score_reads_listing_and_year (YachtScorer.init 2024)
           Samples.no_json (Samples.scored_row 1 "Bavaria 46" 2018)
           (Samples.scored_row 2 "Sailing yacht, well kept" 2018)).
  repeat split.
Defined.

(** C9 as stated fails: one listing, built in 2015, scored by a scorer
    created in 2020 and by one created in 2026. *)
Lemma calculate_score_depends_on_clock :
  YachtScorer.calculate_score (YachtScorer.init 2020) Samples.no_json
    (Samples.scored_row 1 "Bavaria 46" 2015) = lit 792 100
  /\ YachtScorer.calculate_score (YachtScorer.init 2026) Samples.no_json
       (Samples.scored_row 1 "Bavaria 46" 2015) = lit 708 100
  /\ YachtScorer.calculate_score (YachtScorer.init 2020) Samples.no_json
       (Samples.scored_row 1 "Bavaria 46" 2015)
     <> YachtScorer.calculate_score (YachtScorer.init 2026) Samples.no_json
          (Samples.scored_row 1 "Bavaria 46" 2015).
Proof.
  split; [vm_compute; reflexivity|]. split; [vm_compute; reflexivity|].
  vm_compute. discriminate.
Qed.

(** ** Text normalisation *)

Section NormalizeChars.

Import PyStr.

Lemma occurs_cons c d r :
  occurs c (String d r) = true <-> c = d \/ occurs c r = true.
Proof.
  simpl. rewrite orb_true_iff, Ascii.eqb_eq. reflexivity.
Qed.

Lemma occurs_sub_non_word_space c s :
  occurs c (Re.sub_non_word_space s) = true ->
  isword c = true \/ isspace c = true.
Proof.
  induction s as [|d r IH]; simpl; [discriminate|].
  rewrite orb_true_iff, Ascii.eqb_eq. intros [E|H]; [|auto].
  subst c. destruct (isword d) eqn:W; [auto|].
  destruct (isspace d) eqn:S; simpl; auto.
Qed.

Lemma occurs_sub_stop_words_from c s :
  forall before skip,
    occurs c (Re.sub_stop_words_from before skip s) = true ->
    c = " "%char \/ occurs c s = true.
Proof.
  induction s as [|d r IH]; intros before skip; simpl; [discriminate|].
  destruct skip as [|k].
  - destruct (Re.match_stop_word before (String d r)) as [n|]; simpl;
      rewrite !orb_true_iff, !Ascii.eqb_eq; intros [E|H]; auto;
      destruct (IH _ _ H); auto.
  - intros H. destruct (IH _ _ H); auto. right. now rewrite H0, orb_true_r.
Qed.

Lemma occurs_sub_spaces_from c s :
  forall in_run,
    occurs c (Re.sub_spaces_from in_run s) = true ->
    c = " "%char \/ (occurs c s = true /\ isspace c = false).
Proof.
  induction s as [|d r IH]; intros in_run; simpl; [discriminate|].
  destruct (isspace d) eqn:S.
  - destruct in_run; simpl.
    + intros H. destruct (IH _ H) as [?|[? ?]]; auto.
      right. split; [|assumption]. now rewrite H0, orb_true_r.
    + rewrite orb_true_iff, Ascii.eqb_eq. intros [E|H]; [auto|].
      destruct (IH _ H) as [?|[? ?]]; auto.
      right. split; [|assumption]. now rewrite H0, orb_true_r.
  - simpl. rewrite orb_true_iff, Ascii.eqb_eq. intros [E|H].
    + subst c. right. split; [|assumption]. now rewrite Ascii.eqb_refl.
    + destruct (IH _ H) as [?|[? ?]]; auto.
      right. split; [|assumption]. now rewrite H0, orb_true_r.
Qed.

Lemma occurs_lstrip c s : occurs c (lstrip s) = true -> occurs c s = true.
Proof.
  induction s as [|d r IH]; simpl; [discriminate|].
  destruct (isspace d); simpl; [|auto].
  intros H. now rewrite (IH H), orb_true_r.
Qed.

Lemma occurs_rstrip c s : occurs c (rstrip s) = true -> occurs c s = true.
Proof.
  induction s as [|d r IH]; simpl; [discriminate|].
  destruct (rstrip r) as [|e r'] eqn:E.
  - destruct (isspace d); simpl; [discriminate|].
    rewrite orb_false_r. intros ->. reflexivity.
  - change (occurs c (String d (String e r')) = true ->
            Ascii.eqb c d || occurs c r = true).
    rewrite occurs_cons, orb_true_iff, Ascii.eqb_eq.
    intros [?|H]; auto.
Qed.

Lemma occurs_strip c s : occurs c (strip s) = true -> occurs c s = true.
Proof. intros H. now apply occurs_lstrip, occurs_rstrip. Qed.

End NormalizeChars.




(** ** Scoring: range of the score *)





Lemma In_Zrange lo n k : lo <= k < lo + Z.of_nat n -> In k (Zrange lo n).
Proof.
  intros H. unfold Zrange. apply in_map_iff.
  exists (Z.to_nat (k - lo)). split; [lia|]. apply in_seq. lia.
Qed.

Lemma add_half (k j : Z) :
  0 <= k <= 24 -> 0 <= j <= 4 -> add (half k) (half j) = half (k + j).
Proof.
  intros Hk Hj.
  assert (T : forallb (fun k => forallb (fun j =>
                bool_decide (add (half k) (half j) = half (k + j)))
                (Zrange 0 5)) (Zrange 0 25) = true) by (vm_compute; reflexivity).
  rewrite forallb_forall in T. specialize (T k (In_Zrange 0 25 k ltac:(lia))).
  rewrite forallb_forall in T. specialize (T j (In_Zrange 0 5 j ltac:(lia))).
  now apply bool_decide_eq_true_1 in T.
Qed.

Lemma bump_half (k j : Z) :
  0 <= k <= 24 -> 0 <= j <= 4 -> bump j (half k) = half (k + j).
Proof.
  intros Hk Hj. destruct j as [|p|p]; unfold bump.
  - now rewrite Z.add_0_r.
  - now apply add_half.
  - lia.
Qed.

Section Rules.

Variable self : YachtScorer.Scorer.
Variable json_len : string -> option nat.
Variable l : YachtListing.


Ltac pick j := exists j; split; [lia | intros s; reflexivity].

Lemma age_factor_bound : adds_at_most 4 (YachtScorer.age_factor self l).
Proof.
  unfold adds_at_most, YachtScorer.age_factor.
  destruct (year l) as [y|]; [|pick 0].
  destruct (negb _); [|pick 0].
  destruct (_ <=? 5); [pick 4|]. destruct (_ <=? 10); [pick 3|].
  destruct (_ <=? 15); [pick 2|]. destruct (_ <=? 20); [pick 1|pick 0].
Qed.

Lemma price_factor_bound : adds_at_most 4 (YachtScorer.price_factor l).
Proof.
  unfold adds_at_most, YachtScorer.price_factor.
  destruct (price l) as [p|]; [|pick 0].
  destruct (length l) as [len|]; [|pick 0].
  destruct (_ && _); [|pick 0].
  destruct (_ && _); [pick 4|]. destruct (_ && _); [pick 2|].
  destruct (ltb _ _); [pick 1|pick 0].
Qed.

Lemma length_factor_bound : adds_at_most 3 (YachtScorer.length_factor l).
Proof.
  unfold adds_at_most, YachtScorer.length_factor.
  destruct (length l) as [len|]; [|pick 0].
  destruct (truthy len); [|pick 0].
  destruct (_ && _); [pick 3|]. destruct (_ && _); [pick 2|].
  destruct (gtb _ _); [pick 1|pick 0].
Qed.

Lemma brand_factor_bound : adds_at_most 2 (YachtScorer.brand_factor l).
Proof.
  unfold adds_at_most, YachtScorer.brand_factor.
  destruct (PyStr.opt_truthy _); [|pick 0].
  destruct (YachtScorer.any_in _ _); [pick 2|pick 0].
Qed.

Lemma seller_factor_bound : adds_at_most 1 (YachtScorer.seller_factor l).
Proof.
  unfold adds_at_most, YachtScorer.seller_factor.
  destruct (bool_decide _); [pick 1|pick 0].
Qed.

Lemma location_factor_bound : adds_at_most 1 (YachtScorer.location_factor l).
Proof.
  unfold adds_at_most, YachtScorer.location_factor.
  destruct (PyStr.opt_truthy _); [|pick 0].
  destruct (YachtScorer.any_in _ _); [pick 1|pick 0].
Qed.

Lemma description_factor_bound :
  adds_at_most 2 (YachtScorer.description_factor l).
Proof.
  unfold adds_at_most, YachtScorer.description_factor.
  destruct (PyStr.opt_truthy _); [|pick 0].
  destruct (_ <? _)%nat; [pick 2|]. destruct (_ <? _)%nat; [pick 1|pick 0].
Qed.

Lemma images_factor_bound :
  adds_at_most 2 (YachtScorer.images_factor json_len l).
Proof.
  unfold adds_at_most, YachtScorer.images_factor.
  destruct (PyStr.opt_truthy _); [|pick 0].
  destruct (json_len _) as [n|]; [|pick 0].
  destruct (_ <=? _)%nat; [pick 2|]. destruct (_ <=? _)%nat; [pick 1|pick 0].
Qed.

Lemma condition_factor_bound :
  adds_at_most 3 (YachtScorer.condition_factor l).
Proof.
  unfold adds_at_most, YachtScorer.condition_factor.
  destruct (PyStr.opt_truthy _); [|pick 0].
  destruct (PyStr.contains _ _); [pick 3|].
  destruct (_ || _); [pick 2|].
  destruct (PyStr.contains _ _); [pick 1|pick 0].
Qed.

Lemma rule_step jmax rule k hi :
  adds_at_most jmax rule ->
  0 <= jmax <= 4 -> 2 <= k <= hi -> hi <= 24 ->
  exists k', 2 <= k' <= hi + jmax /\ rule (half k) = half k'.
Proof.
  intros (j & Hj & E) Hmax Hk Hhi. exists (k + j). split; [lia|].
  rewrite E. apply bump_half; lia.
Qed.

(** The raw score is one of [1.0, 1.5, ..., 12.0]. *)
Lemma raw_score_half :
  exists k, 2 <= k <= 24 /\ YachtScorer.raw_score self json_len l = half k.
Proof.
  unfold YachtScorer.raw_score.
  change (add (of_Z 0) (of_Z 1)) with (half 2).
  destruct (rule_step 4 _ 2 2 age_factor_bound) as (k1 & B1 & ->); try lia.
  destruct (rule_step 4 _ k1 6 price_factor_bound) as (k2 & B2 & ->); try lia.
  destruct (rule_step 3 _ k2 10 length_factor_bound) as (k3 & B3 & ->); try lia.
  destruct (rule_step 2 _ k3 13 brand_factor_bound) as (k4 & B4 & ->); try lia.
  destruct (rule_step 1 _ k4 15 seller_factor_bound) as (k5 & B5 & ->); try lia.
  destruct (rule_step 1 _ k5 16 location_factor_bound) as (k6 & B6 & ->); try lia.
  destruct (rule_step 2 _ k6 17 description_factor_bound) as (k7 & B7 & ->); try lia.
  destruct (rule_step 2 _ k7 19 images_factor_bound) as (k8 & B8 & ->); try lia.
  destruct (rule_step 3 _ k8 21 condition_factor_bound) as (k9 & B9 & ->); try lia.
  exists k9. split; [lia | reflexivity].
Qed.

End Rules.



Lemma score_table : forallb score_row_ok (Zrange 2 23) = true.
Proof. vm_compute. reflexivity. Qed.

Lemma score_row (k : Z) : 2 <= k <= 24 -> score_row_ok k = true.
Proof.
  intros H. pose proof score_table as T. rewrite forallb_forall in T.
  apply T, In_Zrange. lia.
Qed.

Lemma score_row_facts (k : Z) :
  2 <= k <= 24 ->
  leb (half k) (of_Z 12) = true
  /\ leb (YachtScorer.scaled (half k)) (of_Z 10) = true
  /\ py_min (of_Z 10) (YachtScorer.scaled (half k)) = YachtScorer.scaled (half k)
  /\ leb (of_Z 0) (round2 (py_min (of_Z 10) (YachtScorer.scaled (half k)))) = true
  /\ leb (round2 (py_min (of_Z 10) (YachtScorer.scaled (half k)))) (of_Z 10) = true
  /\ 0 <= cents (py_min (of_Z 10) (YachtScorer.scaled (half k))) <= 1000
  /\ round2 (py_min (of_Z 10) (YachtScorer.scaled (half k)))
     = lit (cents (py_min (of_Z 10) (YachtScorer.scaled (half k)))) 100.
Proof.
  intros H. pose proof (score_row k H) as T. unfold score_row_ok in T.
  rewrite !andb_true_iff in T.
  destruct T as (((((((T1 & T2) & T3) & T4) & T5) & T6) & T7) & T8).
  apply bool_decide_eq_true in T3, T8. apply Z.leb_le in T6, T7.
  repeat split; assumption.
Qed.


Lemma half_apart :
  forallb (fun j => forallb (fun j' => (j =? j') || negb (bool_decide
                                          (half (2 + j) = half (2 + j'))))
                      (Zrange 0 5))
          (Zrange 0 5) = true.
Proof. vm_compute. reflexivity. Qed.

(** The addition a rule makes is known from the score it gives at the
    base score. *)
Lemma adds_exactly jmax rule J :
  adds_at_most jmax rule -> 0 <= jmax <= 4 -> 0 <= J <= 4 ->
  rule (half 2) = half (2 + J) -> forall s, rule s = bump J s.
Proof.
  intros (j & Hj & E) Hmax HJ Ev.
  rewrite E, bump_half in Ev by lia.
  assert (j = J); [|now subst].
  pose proof half_apart as T. rewrite forallb_forall in T.
  specialize (T j (In_Zrange 0 5 j ltac:(lia))). rewrite forallb_forall in T.
  specialize (T J (In_Zrange 0 5 J ltac:(lia))).
  apply orb_prop in T. destruct T as [T|T]; [now apply Z.eqb_eq in T|].
  apply negb_true_iff, bool_decide_eq_false in T. contradiction.
Qed.

(** The rules on [Samples.top_row]. *)
Lemma top_row_age s :
  YachtScorer.age_factor (YachtScorer.init 2024) Samples.top_row s
  = add s (of_Z 2).
Proof. reflexivity. Qed.

Lemma top_row_price s :
  YachtScorer.price_factor Samples.top_row s = add s (of_Z 2).
Proof.
  revert s.
  apply (adds_exactly 4 _ 4 (price_factor_bound Samples.top_row));
    [lia | lia | vm_compute; reflexivity].
Qed.

Lemma top_row_length s :
  YachtScorer.length_factor Samples.top_row s = add s (lit 15 10).
Proof.
  revert s.
  apply (adds_exactly 3 _ 3 (length_factor_bound Samples.top_row));
    [lia | lia | vm_compute; reflexivity].
Qed.

Lemma top_row_brand s :
  YachtScorer.brand_factor Samples.top_row s = add s (of_Z 1).
Proof.
  revert s.
  apply (adds_exactly 2 _ 2 (brand_factor_bound Samples.top_row));
    [lia | lia | vm_compute; reflexivity].
Qed.

Lemma top_row_seller s :
  YachtScorer.seller_factor Samples.top_row s = add s (lit 5 10).
Proof.
  revert s.
  apply (adds_exactly 1 _ 1 (seller_factor_bound Samples.top_row));
    [lia | lia | vm_compute; reflexivity].
Qed.

Lemma top_row_location s :
  YachtScorer.location_factor Samples.top_row s = add s (lit 5 10).
Proof.
  revert s.
  apply (adds_exactly 1 _ 1 (location_factor_bound Samples.top_row));
    [lia | lia | vm_compute; reflexivity].
Qed.

Lemma top_row_description s :
  YachtScorer.description_factor Samples.top_row s = add s (of_Z 1).
Proof.
  revert s.
  apply (adds_exactly 2 _ 2 (description_factor_bound Samples.top_row));
    [lia | lia | vm_compute; reflexivity].
Qed.

Lemma top_row_condition s :
  YachtScorer.condition_factor Samples.top_row s = add s (lit 15 10).
Proof.
  revert s.
  apply (adds_exactly 3 _ 3 (condition_factor_bound Samples.top_row));
    [lia | lia | vm_compute; reflexivity].
Qed.

(** The six addresses of [Samples.top_row] are read as six images. *)
Lemma top_row_images json_len s :
  reads_plain_arrays json_len ->
  YachtScorer.images_factor json_len Samples.top_row s = add s (of_Z 1).
Proof.
  intros H.
  assert (R : json_len (PyStr.or_empty (images Samples.top_row)) = Some 6%nat)
    by (apply H; vm_compute; reflexivity).
  unfold YachtScorer.images_factor. rewrite R.
  replace (PyStr.opt_truthy (images Samples.top_row)) with true
    by (vm_compute; reflexivity).
  reflexivity.
Qed.

(** A boat built in the scorer's year (or the year before the year 0,
    which counts as no year) takes the whole of the age rule. *)
Lemma age_factor_reached self :
  exists l, forall s, YachtScorer.age_factor self l s = add s (of_Z 2).
Proof.
  exists (Samples.only_year 1
            (if YachtScorer.current_year self =? 0 then -1
             else YachtScorer.current_year self)).
  intros s. unfold YachtScorer.age_factor, Samples.only_year. cbn [year].
  destruct (Z.eqb_spec (YachtScorer.current_year self) 0) as [E|E].
  - rewrite E. reflexivity.
  - apply Z.eqb_neq in E. rewrite E. cbn [negb]. rewrite Z.sub_diag.
    reflexivity.
Qed.

Lemma rules_largest_additions self json_len :
  reads_plain_arrays json_len ->
  List.Forall2 largest_addition (tl max_contributions) (rules self json_len).
Proof.
  intros H. unfold max_contributions, rules. cbn [tl].
  repeat apply List.Forall2_cons; [..|apply List.Forall2_nil].
  - exists 4. split; [reflexivity|]. split; [apply age_factor_bound|].
    apply age_factor_reached.
  - exists 4. split; [reflexivity|]. split; [apply price_factor_bound|].
    exists Samples.top_row. apply top_row_price.
  - exists 3. split; [reflexivity|]. split; [apply length_factor_bound|].
    exists Samples.top_row. apply top_row_length.
  - exists 2. split; [reflexivity|]. split; [apply brand_factor_bound|].
    exists Samples.top_row. apply top_row_brand.
  - exists 1. split; [reflexivity|]. split; [apply seller_factor_bound|].
    exists Samples.top_row. apply top_row_seller.
  - exists 1. split; [reflexivity|]. split; [apply location_factor_bound|].
    exists Samples.top_row. apply top_row_location.
  - exists 2. split; [reflexivity|]. split; [apply description_factor_bound|].
    exists Samples.top_row. apply top_row_description.
  - exists 2. split; [reflexivity|]. split; [apply images_factor_bound|].
    exists Samples.top_row. intros s. now apply top_row_images.
  - exists 3. split; [reflexivity|]. split; [apply condition_factor_bound|].
    exists Samples.top_row. apply top_row_condition.
Qed.

Lemma top_row_raw_score json_len :
  reads_plain_arrays json_len ->
  YachtScorer.raw_score (YachtScorer.init 2024) json_len Samples.top_row
  = of_Z 12.
Proof.
  intros H. unfold YachtScorer.raw_score.
  rewrite top_row_condition, (top_row_images json_len _ H).
  rewrite top_row_description, top_row_location, top_row_seller.
  rewrite top_row_brand, top_row_length, top_row_price, top_row_age.
  vm_compute. reflexivity.
Qed.

(** C10: the raw score never exceeds [12.0]. It is the base score passed
    through the nine rules in order; the listed values are the base and
    the largest addition of every rule, each taken by some listing, and
    they sum to exactly [12.0], which a listing reaches (for the images
    rule: with a reader that does what [json.loads] does on an array of
    plain strings); so [raw_score / 12.0 * 10.0] stays within [10.0] and
    [min(10.0, .)] returns its second argument unchanged. *)
Theorem raw_score_at_most_12
        (self : YachtScorer.Scorer) (json_len : string -> option nat)
        (l : YachtListing) :
  leb (YachtScorer.raw_score self json_len l) (of_Z 12) = true
  /\ py_sum max_contributions = YachtScorer.max_possible_score
  /\ YachtScorer.raw_score self json_len l
     = fold_left (fun s rule => rule l s) (rules self json_len)
         (add (of_Z 0) (hd (of_Z 0) max_contributions))
  /\ (reads_plain_arrays json_len ->
      List.Forall2 largest_addition (tl max_contributions) (rules self json_len)
      /\ YachtScorer.raw_score (YachtScorer.init 2024) json_len
           Samples.top_row = of_Z 12)
  /\ leb (YachtScorer.scaled (YachtScorer.raw_score self json_len l)) (of_Z 10)
     = true
  /\ py_min (of_Z 10) (YachtScorer.scaled (YachtScorer.raw_score self json_len l))
     = YachtScorer.scaled (YachtScorer.raw_score self json_len l).
Proof.
  split; [|split; [vm_compute; reflexivity|]].
  - destruct (raw_score_half self json_len l) as (k & Hk & ->).
    now destruct (score_row_facts k Hk) as (T1 & _).
  - split; [reflexivity|]. split.
    + intros H. split.
      * now apply rules_largest_additions.
      * now apply top_row_raw_score.
    + destruct (raw_score_half self json_len l) as (k & Hk & ->).
      destruct (score_row_facts k Hk) as (_ & T2 & T3 & _).
      split; assumption.
Qed.

Lemma raw_score_at_most_12_witness :
  Json.plain_array_len (PyStr.or_empty (images Samples.top_row)) = Some 6%nat
  /\ List.Forall2 largest_addition (tl max_contributions)
       (rules (YachtScorer.init 2024) Json.plain_array_len)
  /\ YachtScorer.raw_score (YachtScorer.init 2024) Json.plain_array_len
       Samples.top_row = of_Z 12.
Proof.
  split; [vm_compute; reflexivity|].
  apply (raw_score_at_most_12 (YachtScorer.init 2024) Json.plain_array_len
           Samples.top_row).
  intros s n H. exact H.
Defined.

(** ** Text similarity *)

Section Bounds.

Variables a b : list ascii.
Local Open Scope nat_scope.



Lemma j2len_prev_within n d j :
  runs_within n d -> Difflib.j2len_prev d j <= n.
Proof.
  intros H. destruct j as [|j']; simpl; [lia|].
  destruct (d !! j') as [v|] eqn:E; simpl; [eauto | lia].
Qed.

Lemma scan_row_within alo i blo bhi js :
  forall j2len newj2len best,
    alo <= i ->
    runs_within (i - alo) j2len ->
    runs_within (S i - alo) newj2len ->
    block_within alo (S i) best ->
    runs_within (S i - alo) (fst (Difflib.scan_row i blo bhi js j2len newj2len best))
    /\ block_within alo (S i) (snd (Difflib.scan_row i blo bhi js j2len newj2len best)).
Proof.
  induction js as [|j js IH]; intros j2len newj2len best Hi Hold Hnew Hbest;
    simpl; [auto|].
  destruct (j <? blo); [now apply IH|].
  destruct (bhi <=? j); [auto|].
  pose proof (j2len_prev_within _ _ j Hold) as Hk.
  apply IH; try assumption.
  - intros j' v. rewrite lookup_insert. destruct (decide (j = j')).
    + intros [= <-]. lia.
    + apply Hnew.
  - destruct (_ <? _); [|assumption]. unfold block_within. simpl. lia.
Qed.

Lemma scan_rows_within alo ahi blo bhi :
  block_within alo (alo + (ahi - alo)) (Difflib.scan_rows a b alo ahi blo bhi).
Proof.
  unfold Difflib.scan_rows.
  set (step := fun (st : gmap nat nat * Difflib.Match) i => _).
  assert (G : forall n i st,
             alo <= i ->
             runs_within (i - alo) (fst st) -> block_within alo i (snd st) ->
             block_within alo (i + n) (snd (fold_left step (seq i n) st))).
  { induction n as [|n IH]; intros i st Hi Hd Hm; simpl.
    - now rewrite Nat.add_0_r.
    - replace (i + S n) with (S i + n) by lia. apply IH; [lia| |].
      + unfold step. apply scan_row_within; try assumption.
        * intros j v. rewrite lookup_empty. discriminate.
        * destruct Hm. split; lia.
      + unfold step. apply scan_row_within; try assumption.
        * intros j v. rewrite lookup_empty. discriminate.
        * destruct Hm. split; lia. }
  apply G; [lia| |].
  - intros j v. simpl. rewrite lookup_empty. discriminate.
  - split; simpl; lia.
Qed.

Lemma extend_left_within alo blo besti :
  forall bestj k,
    alo <= besti ->
    alo <= Difflib.m_a (Difflib.extend_left a b alo blo besti bestj k)
    /\ Difflib.m_a (Difflib.extend_left a b alo blo besti bestj k)
       + Difflib.m_size (Difflib.extend_left a b alo blo besti bestj k)
       = besti + k.
Proof.
  induction besti as [|i IH]; intros bestj k H; simpl; [lia|].
  destruct bestj as [|j]; simpl; [lia|].
  destruct (alo <? S i) eqn:E; simpl; [|lia].
  destruct (_ && _); simpl; [|lia].
  apply Nat.ltb_lt in E. destruct (IH j (S k)) as [H1 H2]; lia.
Qed.

Lemma extend_right_within bhi besti bestj room :
  forall k, Difflib.extend_right a b bhi besti bestj k room <= k + room.
Proof.
  induction room as [|r IH]; intros k; simpl; [lia|].
  destruct (_ && _); [|lia]. specialize (IH (S k)). lia.
Qed.

Lemma find_longest_match_within alo ahi blo bhi :
  alo <= ahi ->
  block_within alo ahi (Difflib.find_longest_match a b alo ahi blo bhi).
Proof.
  intros H. unfold Difflib.find_longest_match.
  pose proof (scan_rows_within alo ahi blo bhi) as [S1 S2].
  replace (alo + (ahi - alo)) with ahi in S2 by lia.
  set (m := Difflib.scan_rows a b alo ahi blo bhi) in *.
  destruct (extend_left_within alo blo (Difflib.m_a m) (Difflib.m_b m)
              (Difflib.m_size m) S1) as [L1 L2].
  set (m' := Difflib.extend_left a b alo blo _ _ _) in *.
  pose proof (extend_right_within bhi (Difflib.m_a m') (Difflib.m_b m')
                (ahi - (Difflib.m_a m' + Difflib.m_size m')) (Difflib.m_size m')).
  split; simpl; lia.
Qed.



Lemma run_queue_fuel :
  forall f1 f2 q blocks,
    Forall ordered q -> passes q <= f1 -> passes q <= f2 ->
    Difflib.run_queue a b f1 q blocks = Difflib.run_queue a b f2 q blocks.
Proof.
  induction f1 as [|f1 IH]; intros f2 q blocks Hq H1 H2.
  - destruct q as [|[[[alo ahi] blo] bhi] q']; [|simpl in H1; lia].
    destruct f2; reflexivity.
  - destruct q as [|[[[alo ahi] blo] bhi] q']; [destruct f2; reflexivity|].
    destruct f2 as [|f2]; [simpl in H2; lia|].
    inversion Hq as [|x l Hr Hq']; subst. unfold ordered in Hr. simpl in Hr, H1, H2.
    cbn [Difflib.run_queue].
    pose proof (find_longest_match_within alo ahi blo bhi Hr) as [B1 B2].
    remember (Difflib.find_longest_match a b alo ahi blo bhi) as x eqn:Ex.
    clear Ex. destruct (Difflib.m_size x =? 0) eqn:Ek.
    + apply IH; [assumption|lia|lia].
    + apply Nat.eqb_neq in Ek.
      destruct ((alo <? Difflib.m_a x) && (blo <? Difflib.m_b x));
        destruct ((Difflib.m_a x + Difflib.m_size x <? ahi)
                  && (Difflib.m_b x + Difflib.m_size x <? bhi));
        (apply IH;
         [repeat (apply List.Forall_cons; [unfold ordered; simpl; lia|]); assumption
         | simpl; lia | simpl; lia]).
Qed.

(** Any fuel from [2 * len(a) + 1] on gives the blocks that
    [get_matching_blocks] sorts. *)
Lemma run_queue_enough fuel :
  2 * List.length a + 1 <= fuel ->
  Difflib.run_queue a b fuel [(0, List.length a, 0, List.length b)] []
  = Difflib.run_queue a b (2 * List.length a + 1)
      [(0, List.length a, 0, List.length b)] [].
Proof.
  intros H. apply run_queue_fuel.
  - apply List.Forall_cons; [unfold ordered; simpl; lia | apply List.Forall_nil].
  - simpl. lia.
  - simpl. lia.
Qed.

End Bounds.

Section Disjoint.

Variables a b : list ascii.
Hypothesis disjoint : forall c, In c a -> ~ In c b.

Lemma indices_from_absent c s j :
  ~ In c s -> Difflib.indices_from c s j = [].
Proof.
  revert j. induction s as [|d r IH]; intros j H; simpl; [reflexivity|].
  destruct (Ascii.eqb c d) eqn:E.
  - apply Ascii.eqb_eq in E. subst. exfalso. apply H. now left.
  - apply IH. intros H'. apply H. now right.
Qed.

Lemma b2j_get_absent c : In c a -> Difflib.b2j_get b c = [].
Proof.
  intros H. unfold Difflib.b2j_get. destruct (Difflib.popular b c); [reflexivity|].
  apply indices_from_absent. now apply disjoint.
Qed.

Lemma same_at_disjoint i j : Difflib.same_at a b i j = false.
Proof.
  unfold Difflib.same_at.
  destruct (a !! i) as [x|] eqn:Ea; [|reflexivity].
  destruct (b !! j) as [y|] eqn:Eb; [|reflexivity].
  destruct (Ascii.eqb x y) eqn:E; [|reflexivity].
  apply Ascii.eqb_eq in E. subst y. exfalso.
  apply (disjoint x).
  - apply list_elem_of_In. eapply list_elem_of_lookup_2. exact Ea.
  - apply list_elem_of_In. eapply list_elem_of_lookup_2. exact Eb.
Qed.

Lemma scan_rows_disjoint alo ahi blo bhi :
  Difflib.scan_rows a b alo ahi blo bhi = Difflib.mkMatch alo blo 0.
Proof.
  unfold Difflib.scan_rows.
  generalize (ahi - alo)%nat as n. intros n. generalize alo at 1 as i.
  induction n as [|n IH]; intros i; [reflexivity|].
  simpl. destruct (a !! i) as [c|] eqn:E.
  - rewrite b2j_get_absent.
    + simpl. apply IH.
    + apply list_elem_of_In. eapply list_elem_of_lookup_2. exact E.
  - simpl. apply IH.
Qed.

Lemma extend_left_at_lo alo blo bestj k :
  Difflib.extend_left a b alo blo alo bestj k = Difflib.mkMatch alo bestj k.
Proof.
  destruct alo as [|i]; [reflexivity|]. destruct bestj as [|j]; [reflexivity|].
  simpl. rewrite same_at_disjoint, andb_false_r. reflexivity.
Qed.

Lemma extend_right_disjoint bhi besti bestj k room :
  Difflib.extend_right a b bhi besti bestj k room = k.
Proof.
  destruct room; [reflexivity|]. simpl.
  now rewrite same_at_disjoint, andb_false_r.
Qed.

Lemma find_longest_match_disjoint alo ahi blo bhi :
  Difflib.find_longest_match a b alo ahi blo bhi = Difflib.mkMatch alo blo 0.
Proof.
  unfold Difflib.find_longest_match. rewrite scan_rows_disjoint. simpl.
  rewrite extend_left_at_lo. simpl. now rewrite extend_right_disjoint.
Qed.

Lemma matches_disjoint : Difflib.matches a b = 0%nat.
Proof.
  unfold Difflib.matches, Difflib.get_matching_blocks.
  replace (2 * List.length a + 1)%nat with (S (2 * List.length a)) by lia.
  cbn [Difflib.run_queue]. rewrite find_longest_match_disjoint.
  cbn [Difflib.m_size Nat.eqb]. destruct (2 * List.length a)%nat; reflexivity.
Qed.

End Disjoint.

Lemma occurs_In c s :
  PyStr.occurs c s = true <-> In c (list_ascii_of_string s).
Proof.
  induction s as [|d r IH]; simpl; [split; [discriminate | tauto]|].
  rewrite orb_true_iff, Ascii.eqb_eq, IH. split; intros [?|?]; auto.
Qed.

Lemma no_common_char_In s t :
  no_common_char s t = true ->
  forall c, In c (list_ascii_of_string s) -> ~ In c (list_ascii_of_string t).
Proof.
  induction s as [|d r IH]; simpl; intros H c; [tauto|].
  apply andb_prop in H. destruct H as [H1 H2].
  intros [<-|Hc].
  - rewrite <- occurs_In. now destruct (PyStr.occurs d t).
  - now apply IH.
Qed.

(** With no character in common no block is found in either order: the
    ratio is [0.0], or [1.0] when both strings are empty. *)
Lemma ratio_disjoint (a b : list ascii) :
  (forall c, In c a -> ~ In c b) ->
  Difflib.ratio a b
  = if (List.length a + List.length b =? 0)%nat then of_Z 1
    else div (mul (of_Z 2) (of_Z 0)) (of_Z (Z.of_nat (List.length a + List.length b))).
Proof.
  intros H. unfold Difflib.ratio. now rewrite matches_disjoint.
Qed.

(** C4, as the code has it: the two orders agree when the strings are
    equal or have no character in common; for other pairs the order of the
    arguments can change the result. *)
Theorem text_similarity_sym_disjoint (text1 text2 : string) :
  text1 = text2 \/ no_common_char text1 text2 = true ->
  YachtDeduplicator.text_similarity text1 text2
  = YachtDeduplicator.text_similarity text2 text1.
Proof.
  intros [-> | H]; [reflexivity|].
  pose proof (no_common_char_In _ _ H) as D.
  unfold YachtDeduplicator.text_similarity.
  rewrite !ratio_disjoint.
  - now rewrite (Nat.add_comm (List.length (list_ascii_of_string text2))).
  - intros c H2 H1. exact (D c H1 H2).
  - exact D.
Qed.

Lemma text_similarity_sym_disjoint_witness :
  no_common_char "bavaria"%string "x-302"%string = true
  /\ YachtDeduplicator.text_similarity "bavaria"%string "x-302"%string
     = YachtDeduplicator.text_similarity "x-302"%string "bavaria"%string.
Proof.
  split; [reflexivity|].
  apply (text_similarity_sym_disjoint "bavaria"%string "x-302"%string).
  right. reflexivity.
Defined.

(** C4 as stated fails: [SequenceMatcher] anchors on the first argument,
    and the two orders of ["tide"] and ["diet"] give [0.25] and [0.5]. *)
Lemma text_similarity_not_symmetric :
  YachtDeduplicator.text_similarity "tide"%string "diet"%string = lit 1 4
  /\ YachtDeduplicator.text_similarity "diet"%string "tide"%string = lit 1 2
  /\ YachtDeduplicator.text_similarity "tide"%string "diet"%string
     <> YachtDeduplicator.text_similarity "diet"%string "tide"%string.
Proof.
  split; [vm_compute; reflexivity|]. split; [vm_compute; reflexivity|].
  vm_compute. discriminate.
Qed.

(** * Further properties *)

(** ** Duplicate decision: the other short cuts *)

Lemma truthy_nonempty (s : string) : s <> EmptyString -> PyStr.truthy s = true.
Proof. destruct s; [congruence | reflexivity]. Qed.

(** X1: two listings whose [mmsi] values are non-empty and equal are
    duplicates, whatever their other columns (their [hin] too) hold. *)
Theorem are_duplicates_same_mmsi (l1 l2 : YachtListing) (m : string) :
  m <> EmptyString -> mmsi l1 = Some m -> mmsi l2 = Some m ->
  YachtDeduplicator.are_duplicates l1 l2 = true.
Proof.
  intros Hne H1 H2. unfold YachtDeduplicator.are_duplicates.
  destruct (_ && _ && _); [reflexivity|].
  rewrite H1, H2. cbn [PyStr.opt_truthy].
  rewrite (truthy_nonempty m Hne). cbn [andb].
  rewrite bool_decide_eq_true_2 by reflexivity. reflexivity.
Qed.

Lemma are_duplicates_same_mmsi_witness :
  YachtDeduplicator.are_duplicates Samples.chain_b Samples.chain_c = true.
Proof.
  apply (are_duplicates_same_mmsi Samples.chain_b Samples.chain_c
           "211234560"%string).
  - discriminate.
  - reflexivity.
  - reflexivity.
Defined.

(** X2: two listings with non-empty titles that normalise to the same
    text are duplicates, whatever their other columns hold. *)
Theorem are_duplicates_same_normalized_title (l1 l2 : YachtListing) :
  title l1 <> EmptyString -> title l2 <> EmptyString ->
  YachtDeduplicator.normalize_text (title l1)
  = YachtDeduplicator.normalize_text (title l2) ->
  YachtDeduplicator.are_duplicates l1 l2 = true.
Proof.
  intros H1 H2 E. unfold YachtDeduplicator.are_duplicates.
  destruct (_ && _ && _); [reflexivity|].
  destruct (_ && _ && _); [reflexivity|].
  rewrite (truthy_nonempty _ H1), (truthy_nonempty _ H2). cbn [andb].
  rewrite bool_decide_eq_true_2 by exact E. reflexivity.
Qed.

Lemma are_duplicates_same_normalized_title_witness :
  YachtDeduplicator.are_duplicates Fleet.plain Fleet.shouting = true.
Proof.
  apply (are_duplicates_same_normalized_title Fleet.plain Fleet.shouting).
  - discriminate.
  - discriminate.
  - vm_compute. reflexivity.
Defined.

Lemma add_year_skip l1 l2 st :
  int_truthy (year l1) && int_truthy (year l2) = false ->
  YachtDeduplicator.add_year l1 l2 st = st.
Proof.
  unfold YachtDeduplicator.add_year, int_truthy.
  destruct (year l1), (year l2); intros H; try reflexivity.
  now rewrite H.
Qed.

(** X3: when no identifier, no title and none of the five signals is
    present on both sides, the composite similarity is [0.0] and the two
    listings are not duplicates. *)
Theorem no_signal_not_duplicate (l1 l2 : YachtListing) :
  PyStr.opt_truthy (hin l1) && PyStr.opt_truthy (hin l2) = false ->
  PyStr.opt_truthy (mmsi l1) && PyStr.opt_truthy (mmsi l2) = false ->
  PyStr.truthy (title l1) && PyStr.truthy (title l2) = false ->
  PyStr.truthy (YachtDeduplicator.brand_model l1)
  && PyStr.truthy (YachtDeduplicator.brand_model l2) = false ->
  int_truthy (year l1) && int_truthy (year l2) = false ->
  float_truthy (length l1) && float_truthy (length l2) = false ->
  float_truthy (price l1) && float_truthy (price l2) = false ->
  YachtDeduplicator.calculate_similarity l1 l2 = of_Z 0
  /\ YachtDeduplicator.are_duplicates l1 l2 = false.
Proof.
  intros Hh Hm Ht Hb Hy Hl Hp.
  assert (Hsim : YachtDeduplicator.calculate_similarity l1 l2 = of_Z 0).
  { unfold YachtDeduplicator.calculate_similarity, YachtDeduplicator.collect_signals.
    rewrite add_title_skip, add_brand_model_skip by assumption.
    rewrite add_price_skip, add_length_skip, add_year_skip by assumption.
    reflexivity. }
  split; [exact Hsim|].
  unfold YachtDeduplicator.are_duplicates. rewrite Hh, Hm, Ht, Hsim.
  cbn [andb]. vm_compute. reflexivity.
Qed.

Lemma no_signal_not_duplicate_witness :
  YachtDeduplicator.calculate_similarity Fleet.blank_a Fleet.blank_b = of_Z 0
  /\ YachtDeduplicator.are_duplicates Fleet.blank_a Fleet.blank_b = false.
Proof.
  apply (no_signal_not_duplicate Fleet.blank_a Fleet.blank_b); reflexivity.
Defined.

(** ** Clustering: shape of the result *)

Section Clusters.

Import YachtDeduplicator.

Lemma in_added (x k : Z) (s : gset Z) : x ∈ {[k]} ∪ s <-> x = k \/ x ∈ s.
Proof. rewrite elem_of_union, elem_of_singleton. reflexivity. Qed.

Lemma scan_rest_spec (listing1 : YachtListing) (rest : list YachtListing) :
  forall current_group processed_ids,
  exists ms,
    fst (scan_rest listing1 rest current_group processed_ids) = current_group ++ ms
    /\ Forall (fun m => In m rest /\ are_duplicates listing1 m = true) ms
    /\ List.NoDup (ids ms)
    /\ (forall x, x ∈ snd (scan_rest listing1 rest current_group processed_ids)
                  <-> x ∈ processed_ids \/ In x (ids ms))
    /\ (forall x, In x (ids ms) -> x ∉ processed_ids)
    /\ (forall y, In y rest ->
                  id y ∉ snd (scan_rest listing1 rest current_group processed_ids) ->
                  are_duplicates listing1 y = false).
Proof.
  induction rest as [|y rest IH]; intros cg pr; simpl.
  - exists []. rewrite app_nil_r.
    split; [reflexivity|]. split; [constructor|]. split; [constructor|].
    split; [simpl; tauto|]. split; [intros x []|intros y []].
  - destruct (bool_decide (id y ∈ pr)) eqn:Ein.
    + apply bool_decide_eq_true in Ein.
      destruct (IH cg pr) as (ms & E & F & N & P & Q & C).
      exists ms. split; [exact E|]. split.
      { eapply List.Forall_impl; [|exact F]. simpl. intros m [? ?]. split; [now right|assumption]. }
      split; [exact N|]. split; [exact P|]. split; [exact Q|].
      intros z [<-|Hz] Hn; [|now apply C].
      exfalso. apply Hn. apply P. now left.
    + apply bool_decide_eq_false in Ein.
      destruct (are_duplicates listing1 y) eqn:D.
      * destruct (IH (cg ++ [y]) ({[id y]} ∪ pr)) as (ms & E & F & N & P & Q & C).
        exists (y :: ms). split; [rewrite E, <- app_assoc; reflexivity|]. split.
        { constructor; [split; [now left|assumption]|].
          eapply List.Forall_impl; [|exact F]. simpl. intros m [? ?]. split; [now right|assumption]. }
        split.
        { simpl. constructor; [|assumption].
          intros Hin. apply (Q _ Hin). apply in_added. now left. }
        split.
        { intros x. rewrite P, in_added. simpl. intuition congruence. }
        split.
        { simpl. intros x [<-|Hx]; [assumption|].
          intros Hp. apply (Q _ Hx). apply in_added. now right. }
        intros z [<-|Hz] Hn; [|now apply C].
        exfalso. apply Hn. apply P. left. apply in_added. now left.
      * destruct (IH cg pr) as (ms & E & F & N & P & Q & C).
        exists ms. split; [exact E|]. split.
        { eapply List.Forall_impl; [|exact F]. simpl. intros m [? ?]. split; [now right|assumption]. }
        split; [exact N|]. split; [exact P|]. split; [exact Q|].
        intros z [<-|Hz] Hn; [assumption|now apply C].
Qed.


Lemma is_marked_iff groups l :
  is_marked groups l = true <-> In (id l) (marked_ids groups).
Proof.
  unfold is_marked. rewrite existsb_exists. split.
  - intros (x & Hx & E). apply Z.eqb_eq in E. now subst.
  - intros H. exists (id l). split; [assumption|apply Z.eqb_refl].
Qed.

Lemma marked_ids_app g1 g2 : marked_ids (g1 ++ g2) = marked_ids g1 ++ marked_ids g2.
Proof. unfold marked_ids, ids. now rewrite map_app, concat_app, map_app. Qed.

Lemma marked_in_all groups x : In x (marked_ids groups) -> In x (ids (concat groups)).
Proof.
  unfold marked_ids, ids. induction groups as [|g gs IH]; simpl; [tauto|].
  rewrite !map_app, !in_app_iff. intros [H|H]; [left|right; auto].
  destruct g as [|a ms]; simpl in *; [assumption|now right].
Qed.

Lemma cluster_of_cons l ls g : cluster_of ls g -> cluster_of (l :: ls) g.
Proof.
  intros (a & ms & pre & post & E & Hne & Ha & F). exists a, ms, (l :: pre), post.
  split; [assumption|]. split; [assumption|]. split; [now rewrite Ha|assumption].
Qed.

(** What one call of the outer loop adds to [duplicate_groups], for any
    state it is entered with. *)
Lemma find_duplicates_from_spec (listings : list YachtListing) :
  forall duplicate_groups processed_ids,
  exists new,
    find_duplicates_from listings duplicate_groups processed_ids
    = duplicate_groups ++ new
    /\ Forall (cluster_of listings) new
    /\ List.NoDup (ids (concat new))
    /\ (forall x, In x (ids (concat new)) -> x ∉ processed_ids)
    /\ (List.NoDup (ids listings) ->
        no_later_duplicate
          (List.filter (fun l => negb (bool_decide (id l ∈ processed_ids))
                            && negb (is_marked new l)) listings)).
Proof.
  induction listings as [|l1 rest IH]; intros groups pr.
  - exists []. simpl. rewrite app_nil_r.
    split; [reflexivity|]. split; [constructor|]. split; [constructor|].
    split; [intros x []|constructor].
  - cbn [find_duplicates_from].
    destruct (bool_decide (id l1 ∈ pr)) eqn:Ein.
    + destruct (IH groups pr) as (new & E & F & N & Q & S).
      exists new. split; [exact E|]. split.
      { eapply List.Forall_impl; [|exact F]. apply cluster_of_cons. }
      split; [exact N|]. split; [exact Q|].
      intros ND. cbn [List.filter]. rewrite Ein. cbn [negb andb].
      apply S. now inversion ND.
    + apply bool_decide_eq_false in Ein.
      destruct (scan_rest_spec l1 rest [l1] ({[id l1]} ∪ pr))
        as (ms & Eg & Fm & Nm & P & Qm & C).
      destruct (scan_rest l1 rest [l1] ({[id l1]} ∪ pr)) as [g p'] eqn:Es.
      cbn [fst snd] in Eg, P, C. subst g.
      set (groups' := if (1 <? List.length ([l1] ++ ms))%nat
                      then groups ++ [[l1] ++ ms] else groups).
      destruct (IH groups' p') as (new' & E & F & N & Q & S).
      set (here := match ms with [] => [] | _ => [l1 :: ms] end).
      assert (Eg' : groups' = groups ++ here).
      { unfold groups', here. destruct ms; simpl; [now rewrite app_nil_r|reflexivity]. }
      assert (Mh : marked_ids here = ids ms).
      { unfold here, marked_ids. destruct ms; simpl; [reflexivity|].
        now rewrite app_nil_r. }
      assert (Ih : forall x, In x (ids (concat here)) -> x = id l1 \/ In x (ids ms)).
      { unfold here. destruct ms; simpl; [tauto|]. rewrite app_nil_r. simpl. intuition. }
      assert (Hl1 : ~ In (id l1) (ids ms)).
      { intros H. apply (Qm _ H). apply in_added. now left. }
      exists (here ++ new'). split; [rewrite E, Eg', <- app_assoc; reflexivity|].
      split.
      { apply List.Forall_app. split.
        - unfold here. destruct ms as [|m ms']; constructor; [|constructor].
          exists l1, (m :: ms'), [], rest.
          split; [reflexivity|]. split; [discriminate|].
          split; [reflexivity|exact Fm].
        - eapply List.Forall_impl; [|exact F]. apply cluster_of_cons. }
      split.
      { unfold ids. rewrite concat_app, map_app. apply List.NoDup_app; [| exact N |].
        - unfold here. destruct ms as [|m ms']; [constructor|].
          simpl. rewrite app_nil_r. simpl. constructor; [exact Hl1|exact Nm].
        - intros x Hx Hx'. apply Ih in Hx. apply (Q _ Hx'). apply P.
          destruct Hx as [->|Hx]; [left; apply in_added; now left|now right]. }
      split.
      { intros x. unfold ids. rewrite concat_app, map_app, in_app_iff.
        intros [Hx|Hx] Hp.
        - apply Ih in Hx. destruct Hx as [->|Hx]; [contradiction|].
          apply (Qm _ Hx). apply in_added. now right.
        - apply (Q _ Hx). apply P. left. apply in_added. now right. }
      intros ND. inversion ND as [|? ? Hn1 ND']; subst.
      assert (K1 : is_marked (here ++ new') l1 = false).
      { apply not_true_is_false. rewrite is_marked_iff, marked_ids_app, in_app_iff, Mh.
        intros [H|H]; [contradiction|].
        apply marked_in_all in H. apply (Q _ H). apply P. left. apply in_added. now left. }
      cbn [List.filter]. rewrite (bool_decide_eq_false_2 _ Ein), K1. cbn [negb andb].
      assert (Ext : forall y, In y rest ->
                (negb (bool_decide (id y ∈ pr)) && negb (is_marked (here ++ new') y))
                = (negb (bool_decide (id y ∈ p')) && negb (is_marked new' y))).
      { intros y Hy.
        assert (Hne : id y <> id l1).
        { intros Ey. apply Hn1. rewrite <- Ey. now apply in_map. }
        apply eq_true_iff_eq.
        rewrite !andb_true_iff, !negb_true_iff, !bool_decide_eq_false.
        rewrite <- !not_true_iff_false, !is_marked_iff, marked_ids_app, in_app_iff, Mh, P, in_added.
        tauto. }
      rewrite (filter_ext_in _ _ rest Ext). split; [|now apply S].
      apply List.Forall_forall. intros y Hy. apply filter_In in Hy. destruct Hy as [Hy K].
      apply C; [assumption|].
      apply andb_prop in K. destruct K as [K _].
      apply negb_true_iff, bool_decide_eq_false in K. exact K.
Qed.


Lemma scan_rest_none listing1 rest :
  Forall (fun y => are_duplicates listing1 y = false) rest ->
  forall current_group processed_ids,
    scan_rest listing1 rest current_group processed_ids
    = (current_group, processed_ids).
Proof.
  induction 1 as [|y rest Hy _ IH]; intros cg pr; [reflexivity|].
  cbn [scan_rest]. rewrite Hy. destruct (bool_decide _); apply IH.
Qed.

Lemma find_duplicates_from_none listings :
  no_later_duplicate listings ->
  forall duplicate_groups processed_ids,
    find_duplicates_from listings duplicate_groups processed_ids = duplicate_groups.
Proof.
  induction listings as [|l1 rest IH]; intros H groups pr; [reflexivity|].
  destruct H as [H1 H2]. cbn [find_duplicates_from].
  destruct (bool_decide _); [now apply IH|].
  rewrite (scan_rest_none _ _ H1). cbn [List.length Nat.ltb Nat.leb]. now apply IH.
Qed.

Lemma find_duplicates_shape (listings : list YachtListing) :
  Forall (cluster_of listings) (find_duplicates listings)
  /\ List.NoDup (ids (concat (find_duplicates listings))).
Proof.
  unfold find_duplicates.
  destruct (find_duplicates_from_spec listings [] ∅) as (new & E & F & N & _).
  rewrite E. split; assumption.
Qed.

Lemma survivors_no_later_duplicate (listings : list YachtListing) :
  List.NoDup (ids listings) ->
  no_later_duplicate (survivors (find_duplicates listings) listings).
Proof.
  intros ND. unfold find_duplicates, survivors.
  destruct (find_duplicates_from_spec listings [] ∅) as (new & E & _ & _ & _ & S).
  rewrite E. cbn [app]. specialize (S ND).
  erewrite filter_ext; [exact S|].
  intros l. cbn beta. rewrite bool_decide_eq_false_2 by apply not_elem_of_empty.
  reflexivity.
Qed.

Lemma find_duplicates_survivors (listings : list YachtListing) :
  List.NoDup (ids listings) ->
  find_duplicates (survivors (find_duplicates listings) listings) = [].
Proof.
  intros ND. now apply find_duplicates_from_none, survivors_no_later_duplicate.
Qed.

End Clusters.

(** X4: every cluster [find_duplicates] returns is an anchor followed by
    at least one member, and each member stands after the anchor in the
    input and is a duplicate of the anchor. *)
Theorem find_duplicates_clusters (listings : list YachtListing) :
  Forall (cluster_of listings) (YachtDeduplicator.find_duplicates listings).
Proof. apply find_duplicates_shape. Qed.

(** X5: no primary key occurs twice in the clusters, neither within one
    cluster nor in two of them. *)
Theorem find_duplicates_disjoint (listings : list YachtListing) :
  List.NoDup (ids (concat (YachtDeduplicator.find_duplicates listings))).
Proof. apply find_duplicates_shape. Qed.

(** X6: when no listing is a duplicate of an earlier one, no cluster is
    returned. *)
Theorem find_duplicates_none (listings : list YachtListing) :
  no_later_duplicate listings -> YachtDeduplicator.find_duplicates listings = [].
Proof. intros H. now apply find_duplicates_from_none. Qed.

Lemma find_duplicates_none_witness :
  YachtDeduplicator.find_duplicates Fleet.ends = [].
Proof.
  apply (find_duplicates_none Fleet.ends).
  split; [|split; [constructor|exact I]].
  apply List.Forall_cons; [vm_compute; reflexivity|constructor].
Defined.

(** X25: with distinct primary keys the converse holds: an empty result
    means that no listing is a duplicate of an earlier one, so a
    duplicate of an earlier listing always gives a cluster. *)
Theorem find_duplicates_finds_any (listings : list YachtListing) :
  List.NoDup (ids listings) ->
  YachtDeduplicator.find_duplicates listings = [] ->
  no_later_duplicate listings.
Proof.
  intros ND E. pose proof (survivors_no_later_duplicate listings ND) as S.
  rewrite E in S. unfold survivors in S.
  replace (List.filter (fun l => negb (is_marked [] l)) listings) with listings in S;
    [exact S|].
  clear. induction listings as [|l ls IH]; [reflexivity|].
  change (List.filter (fun l => negb (is_marked [] l)) (l :: ls))
    with (l :: List.filter (fun l => negb (is_marked [] l)) ls).
  now rewrite <- IH.
Qed.

Lemma find_duplicates_finds_any_witness : no_later_duplicate Fleet.ends.
Proof.
  apply (find_duplicates_finds_any Fleet.ends).
  - repeat constructor; simpl; lia.
  - vm_compute. reflexivity.
Defined.

(** X7: with distinct primary keys, the listings left once the members of
    the clusters are taken out hold no duplicate of an earlier one: a
    second pass over them returns no cluster. *)
Theorem find_duplicates_second_pass (listings : list YachtListing) :
  List.NoDup (ids listings) ->
  YachtDeduplicator.find_duplicates
    (survivors (YachtDeduplicator.find_duplicates listings) listings) = [].
Proof.
  intros ND. apply find_duplicates_from_none.
  now apply survivors_no_later_duplicate.
Qed.

Lemma find_duplicates_second_pass_witness :
  YachtDeduplicator.find_duplicates
    (survivors (YachtDeduplicator.find_duplicates Fleet.chain) Fleet.chain) = [].
Proof.
  apply (find_duplicates_second_pass Fleet.chain).
  repeat constructor; simpl; lia.
Defined.

(** ** The deduplication run *)

Section Writes.

Import Engine.

Variable u : YachtListing -> YachtListing -> YachtListing.
Variable body : YachtListing -> M unit.
Hypothesis body_writes :
  forall l f db,
    body l f db
    = (Returns tt, mkSession (rows db) (<[id l := u l (current db l)]> (dirty db))).

Lemma for_each_written ms f db :
  for_each ms body f db
  = (Returns tt, mkSession (rows db) (written u ms (dirty db))).
Proof.
  revert db. induction ms as [|l ms IH]; intros db.
  - destruct db. reflexivity.
  - cbn [for_each]. unfold bind. rewrite body_writes, IH. reflexivity.
Qed.

Lemma written_cons m ms d :
  written u (m :: ms) d
  = written u ms (<[id m := u m (default m (d !! id m))]> d).
Proof. reflexivity. Qed.

Lemma written_lookup ms :
  List.NoDup (ids ms) ->
  forall d k,
    (forall m, In m ms -> d !! id m = None) ->
    written u ms d !! k
    = match List.find (fun m => id m =? k) ms with
      | Some m => Some (u m m)
      | None => d !! k
      end.
Proof.
  induction ms as [|m ms IH]; intros ND d k Hd; [reflexivity|].
  inversion ND as [|? ? Hn ND']; subst.
  rewrite written_cons. cbn [List.find].
  rewrite (Hd m (or_introl eq_refl)). cbn [default].
  rewrite IH; [|assumption|].
  - destruct (id m =? k) eqn:E.
    + apply Z.eqb_eq in E. subst k.
      destruct (List.find _ ms) as [m'|] eqn:Ef.
      * apply find_some in Ef. destruct Ef as [Hin Em]. apply Z.eqb_eq in Em.
        exfalso. apply Hn. rewrite <- Em. now apply in_map.
      * apply lookup_insert_eq.
    + apply Z.eqb_neq in E. destruct (List.find _ ms); [reflexivity|].
      now apply lookup_insert_ne.
  - intros m' Hm'. rewrite lookup_insert_ne; [apply Hd; now right|].
    intros Em. apply Hn. rewrite Em. now apply in_map.
Qed.

End Writes.

Lemma same_id_same_row (store : list YachtListing) (x y : YachtListing) :
  List.NoDup (ids store) -> In x store -> In y store -> id x = id y -> x = y.
Proof.
  induction store as [|z store IH]; intros ND Hx Hy E; [destruct Hx|].
  inversion ND as [|? ? Hn ND']; subst.
  destruct Hx as [<-|Hx], Hy as [<-|Hy]; try reflexivity.
  - exfalso. apply Hn. rewrite E. now apply in_map.
  - exfalso. apply Hn. rewrite <- E. now apply in_map.
  - now apply IH.
Qed.

Lemma find_id_none k ms :
  List.find (fun m : YachtListing => id m =? k) ms = None <-> ~ In k (ids ms).
Proof.
  induction ms as [|m ms IH]; simpl; [tauto|].
  destruct (id m =? k) eqn:E.
  - apply Z.eqb_eq in E. split; [discriminate|]. intros H. exfalso. apply H. now left.
  - apply Z.eqb_neq in E. rewrite IH. tauto.
Qed.

Lemma for_each_app {A} (xs ys : list A) (body : A -> Engine.M unit) f db :
  Engine.for_each (xs ++ ys) body f db
  = Engine.bind (Engine.for_each xs body) (fun _ => Engine.for_each ys body) f db.
Proof.
  revert db. induction xs as [|x xs IH]; intros db; [reflexivity|].
  cbn [app Engine.for_each]. unfold Engine.bind.
  destruct (body x f db) as [[[]|e] db1]; [|reflexivity].
  rewrite IH. reflexivity.
Qed.

Lemma for_each_nested {A B} (xss : list A) (sel : A -> list B)
      (body : B -> Engine.M unit) f db :
  Engine.for_each xss (fun xs => Engine.for_each (sel xs) body) f db
  = Engine.for_each (concat (map sel xss)) body f db.
Proof.
  revert db. induction xss as [|xs xss IH]; intros db; [reflexivity|].
  cbn [map concat Engine.for_each]. rewrite for_each_app. unfold Engine.bind.
  destruct (Engine.for_each (sel xs) body f db) as [[[]|e] db1]; [|reflexivity].
  apply IH.
Qed.

Lemma commit_written u ms store :
  List.NoDup (ids store) -> List.NoDup (ids ms) ->
  (forall m, In m ms -> In m store) ->
  map (fun r => default r (written u ms ∅ !! id r)) store
  = map (fun r => if existsb (Z.eqb (id r)) (ids ms) then u r r else r) store.
Proof.
  intros NS NM Sub. apply map_ext_in. intros r Hr.
  rewrite written_lookup; [|assumption|intros; apply lookup_empty].
  rewrite lookup_empty.
  destruct (List.find _ ms) as [m|] eqn:Ef.
  - apply find_some in Ef. destruct Ef as [Hm Em]. apply Z.eqb_eq in Em.
    assert (m = r) by (apply (same_id_same_row store); auto). subst m.
    replace (existsb _ _) with true; [reflexivity|].
    symmetry. apply existsb_exists. exists (id r). split; [now apply in_map|apply Z.eqb_refl].
  - apply find_id_none in Ef.
    replace (existsb _ _) with false; [reflexivity|].
    symmetry. apply not_true_is_false. rewrite existsb_exists.
    intros (x & Hx & E). apply Z.eqb_eq in E. now subst.
Qed.

Lemma active_in store l : In l (active store) -> In l store.
Proof. unfold active. rewrite filter_In. tauto. Qed.

Lemma members_in_listings listings groups m :
  Forall (cluster_of listings) groups ->
  In m (concat (map (@tl YachtListing) groups)) -> In m listings.
Proof.
  induction 1 as [|g gs Hg _ IH]; simpl; [tauto|].
  rewrite in_app_iff. intros [H|H]; [|now apply IH].
  destruct Hg as (a & ms & pre & post & -> & _ & -> & F). simpl in H.
  rewrite List.Forall_forall in F. destruct (F m H) as [Hin _].
  apply in_app_iff. right. now right.
Qed.

Lemma members_nodup groups :
  List.NoDup (ids (concat groups)) ->
  List.NoDup (ids (concat (map (@tl YachtListing) groups))).
Proof.
  unfold ids. induction groups as [|g gs IH]; simpl; [constructor|].
  rewrite !map_app. intros H.
  pose proof (NoDup_app_remove_l _ _ H) as Hr.
  pose proof (NoDup_app_remove_r _ _ H) as Hl.
  apply List.NoDup_app.
  - destruct g as [|a ms]; [constructor|]. simpl in *. now inversion Hl.
  - now apply IH.
  - intros x Hx Hx'.
    assert (In x (map id g)) by (destruct g; simpl in *; [assumption|now right]).
    assert (In x (map id (concat gs))).
    { clear -Hx'. induction gs as [|g' gs IH]; simpl in *; [assumption|].
      rewrite map_app, in_app_iff in *. destruct Hx' as [H|H]; [left|right; auto].
      destruct g'; simpl in *; [assumption|now right]. }
    clear -H H0 H1. induction (map id g) as [|y ys IH]; simpl in *; [assumption|].
    inversion H as [|? ? Hn Hnd]; subst. destruct H0 as [->|H0].
    + apply Hn. apply in_app_iff. now right.
    + now apply IH.
Qed.

Lemma NoDup_ids_filter (p : YachtListing -> bool) store :
  List.NoDup (ids store) -> List.NoDup (ids (List.filter p store)).
Proof.
  unfold ids. induction store as [|r store IH]; simpl; [constructor|].
  intros H. inversion H as [|? ? Hn Hnd]; subst.
  destruct (p r); simpl; [|now apply IH].
  constructor; [|now apply IH].
  intros Hin. apply Hn. apply in_map_iff in Hin. destruct Hin as (x & E & Hx).
  apply filter_In in Hx. rewrite <- E. apply in_map. tauto.
Qed.

(** A [try] block that returns leaves the rows of its session. *)
Lemma run_in_session_returns {A} (body : Engine.M A) f store a store' :
  body f (Engine.SessionLocal store) = (Engine.Returns a, Engine.SessionLocal store') ->
  Engine.run_in_session body f store = (Engine.Returns a, store').
Proof. intros H. unfold Engine.run_in_session. now rewrite H. Qed.

(** The [try] block of [deduplicate_listings] without faults, on a store
    with distinct primary keys: what it returns and the session it
    leaves. *)
Lemma deduplicate_body_run (f : Engine.Faults) (store : list YachtListing) :
  List.NoDup (ids store) ->
  Engine.query_fault f = None -> Engine.commit_fault f = None ->
  Engine.deduplicate_body f (Engine.SessionLocal store)
  = (Engine.Returns
       (Engine.mkDedupResults
          (Z.of_nat (List.length (active store)))
          (Engine.count_found (YachtDeduplicator.find_duplicates (active store)))
          (Engine.count_marked (YachtDeduplicator.find_duplicates (active store)))),
     Engine.SessionLocal
       (map (mark (YachtDeduplicator.find_duplicates (active store))) store)).
Proof.
  intros NS Hq Hc.
  unfold Engine.deduplicate_body, Engine.bind, Engine.query_active.
  rewrite Hq. cbn [Engine.SessionLocal Engine.rows]. fold (active store).
  set (groups := YachtDeduplicator.find_duplicates (active store)).
  rewrite (for_each_nested groups (@tl YachtListing) Engine.set_is_duplicate).
  rewrite (for_each_written (fun _ x => Engine.with_is_duplicate true x)
             Engine.set_is_duplicate) by reflexivity.
  unfold Engine.commit. rewrite Hc. cbn [Engine.rows Engine.dirty].
  unfold Engine.ret, Engine.SessionLocal. cbn [Engine.rows]. f_equal. f_equal.
  rewrite commit_written.
  - reflexivity.
  - assumption.
  - apply members_nodup, find_duplicates_shape.
  - intros m Hm. apply active_in.
    apply (members_in_listings _ groups); [apply find_duplicates_shape|assumption].
Qed.

Lemma deduplicate_run (f : Engine.Faults) (store : list YachtListing) :
  List.NoDup (ids store) ->
  Engine.query_fault f = None -> Engine.commit_fault f = None ->
  Engine.deduplicate_listings f store
  = (Engine.Returns
       (Engine.mkDedupResults
          (Z.of_nat (List.length (active store)))
          (Engine.count_found (YachtDeduplicator.find_duplicates (active store)))
          (Engine.count_marked (YachtDeduplicator.find_duplicates (active store)))),
     map (mark (YachtDeduplicator.find_duplicates (active store))) store).
Proof.
  intros NS Hq Hc. apply run_in_session_returns.
  now apply deduplicate_body_run.
Qed.

(** X8: on a store with distinct primary keys and without a fault of the
    query or the commit, [deduplicate_listings] returns the number of
    rows read and the two counters, and leaves the store with the later
    members of every cluster flagged and every other row, column and
    row order as they were. *)
Theorem deduplicate_listings_success (f : Engine.Faults) (store : list YachtListing) :
  List.NoDup (ids store) ->
  Engine.query_fault f = None -> Engine.commit_fault f = None ->
  Engine.deduplicate_listings f store
  = (Engine.Returns
       (Engine.mkDedupResults
          (Z.of_nat (List.length (active store)))
          (Engine.count_found (YachtDeduplicator.find_duplicates (active store)))
          (Engine.count_marked (YachtDeduplicator.find_duplicates (active store)))),
     map (mark (YachtDeduplicator.find_duplicates (active store))) store).
Proof.
  intros NS Hq Hc. unfold Engine.deduplicate_listings.
  rewrite (run_in_session_returns _ _ _ _ _ (deduplicate_body_run f store NS Hq Hc)).
  reflexivity.
Qed.

Lemma deduplicate_listings_success_witness :
  Engine.deduplicate_listings Fleet.no_faults Fleet.chain
  = (Engine.Returns
       (Engine.mkDedupResults
          (Z.of_nat (List.length (active Fleet.chain)))
          (Engine.count_found (YachtDeduplicator.find_duplicates (active Fleet.chain)))
          (Engine.count_marked (YachtDeduplicator.find_duplicates (active Fleet.chain)))),
     map (mark (YachtDeduplicator.find_duplicates (active Fleet.chain))) Fleet.chain).
Proof.
  apply (deduplicate_listings_success Fleet.no_faults Fleet.chain).
  - repeat constructor; simpl; lia.
  - reflexivity.
  - reflexivity.
Defined.

Lemma count_found_marked groups :
  Forall (fun g : list YachtListing => g <> []) groups ->
  Engine.count_found groups = Z.of_nat (List.length (marked_ids groups))
  /\ Engine.count_marked groups = Z.of_nat (List.length (marked_ids groups)).
Proof.
  unfold Engine.count_found, Engine.count_marked, marked_ids, ids.
  rewrite length_map.
  assert (G : forall gs n,
             Forall (fun g : list YachtListing => g <> []) gs ->
             fold_left (fun n g => n + (Z.of_nat (List.length g) - 1)) gs n
             = n + Z.of_nat (List.length (concat (map (@tl YachtListing) gs)))
             /\ fold_left (fun n g => n + Z.of_nat (List.length (tl g))) gs n
                = n + Z.of_nat (List.length (concat (map (@tl YachtListing) gs)))).
  { induction gs as [|g gs IH]; intros n H; cbn [fold_left map concat]; [simpl; lia|].
    inversion H as [|? ? Hg Hgs]; subst.
    destruct (IH (n + (Z.of_nat (List.length g) - 1)) Hgs) as [E1 _].
    destruct (IH (n + Z.of_nat (List.length (tl g))) Hgs) as [_ E2].
    rewrite E1, E2, length_app.
    destruct g as [|a ms]; [congruence|]. cbn [tl List.length]. lia. }
  intros H. destruct (G groups 0 H) as [E1 E2]. rewrite E1, E2. lia.
Qed.

Lemma all_ids_length groups :
  List.length (concat groups)
  = (List.length (marked_ids groups)
     + List.length (List.filter (fun g : list YachtListing =>
                                   negb (Nat.eqb (List.length g) 0)) groups))%nat.
Proof.
  unfold marked_ids, ids. rewrite length_map.
  induction groups as [|g gs IH]; [reflexivity|].
  cbn [concat map List.filter]. rewrite !length_app, IH.
  destruct g as [|a ms]; cbn [List.length tl Nat.eqb negb]; lia.
Qed.

Lemma marked_at_most listings :
  (List.length (marked_ids (YachtDeduplicator.find_duplicates listings))
   <= List.length listings)%nat.
Proof.
  destruct (find_duplicates_shape listings) as [F N].
  rewrite <- (length_map id listings). fold (ids listings).
  apply List.NoDup_incl_length; [apply members_nodup, N|].
  intros x Hx. unfold marked_ids, ids in Hx. apply in_map_iff in Hx.
  destruct Hx as (m & <- & Hm). apply in_map.
  now apply (members_in_listings listings _ m F).
Qed.

Lemma deduplicate_returns f store r store' :
  Engine.deduplicate_listings f store = (Engine.Returns r, store') ->
  r = Engine.mkDedupResults
        (Z.of_nat (List.length (active store)))
        (Engine.count_found (YachtDeduplicator.find_duplicates (active store)))
        (Engine.count_marked (YachtDeduplicator.find_duplicates (active store))).
Proof.
  unfold Engine.deduplicate_listings, Engine.run_in_session,
    Engine.deduplicate_body, Engine.bind, Engine.query_active.
  destruct (Engine.query_fault f) as [e|]; [discriminate|].
  cbn [Engine.SessionLocal Engine.rows]. fold (active store).
  rewrite (for_each_nested (YachtDeduplicator.find_duplicates (active store))
             (@tl YachtListing) Engine.set_is_duplicate).
  rewrite (for_each_written (fun _ x => Engine.with_is_duplicate true x)
             Engine.set_is_duplicate) by reflexivity.
  unfold Engine.commit. destruct (Engine.commit_fault f) as [e|]; [discriminate|].
  unfold Engine.ret. intros [= <- _]. reflexivity.
Qed.

(** X9: whenever [deduplicate_listings] returns, its two counters agree:
    [duplicates_found] equals [duplicates_marked], and neither exceeds
    [processed]. *)
Theorem deduplicate_counts (f : Engine.Faults) (store store' : list YachtListing)
        (r : Engine.DedupResults) :
  Engine.deduplicate_listings f store = (Engine.Returns r, store') ->
  Engine.duplicates_found r = Engine.duplicates_marked r
  /\ 0 <= Engine.duplicates_marked r <= Engine.processed r.
Proof.
  intros H. apply deduplicate_returns in H. subst r.
  cbn [Engine.duplicates_found Engine.duplicates_marked Engine.processed].
  destruct (count_found_marked (YachtDeduplicator.find_duplicates (active store)))
    as [E1 E2].
  - eapply List.Forall_impl; [|apply find_duplicates_shape].
    intros g (a & ms & _ & _ & -> & _). discriminate.
  - rewrite E1, E2. pose proof (marked_at_most (active store)). lia.
Qed.

Lemma deduplicate_counts_witness :
  Engine.duplicates_found (Engine.mkDedupResults 3 1 1)
  = Engine.duplicates_marked (Engine.mkDedupResults 3 1 1)
  /\ 0 <= Engine.duplicates_marked (Engine.mkDedupResults 3 1 1)
     <= Engine.processed (Engine.mkDedupResults 3 1 1).
Proof.
  apply (deduplicate_counts Fleet.no_faults Fleet.chain
           [Samples.chain_a; Engine.with_is_duplicate true Samples.chain_b;
            Samples.chain_c]
           (Engine.mkDedupResults 3 1 1)).
  vm_compute. reflexivity.
Defined.

Lemma anchor_not_marked groups a ms :
  List.NoDup (ids (concat groups)) -> In (a :: ms) groups ->
  is_marked groups a = false.
Proof.
  intros ND Hin. apply not_true_is_false. rewrite is_marked_iff.
  unfold marked_ids, ids in *. revert ND Hin.
  induction groups as [|g gs IH]; intros ND Hin; [destruct Hin|].
  simpl in *. rewrite map_app in *. rewrite in_app_iff.
  pose proof (NoDup_app_remove_l _ _ ND) as Hr.
  destruct Hin as [->|Hin].
  - simpl in ND. inversion ND as [|? ? Hn _]; subst. intros [H|H].
    + apply Hn. apply in_app_iff. now left.
    + apply Hn. apply in_app_iff. right. now apply (marked_in_all gs).
  - intros [H|H]; [|now apply IH].
    assert (Ha : In (id a) (map id (concat gs))).
    { apply in_map. apply in_concat. exists (a :: ms). split; [assumption|now left]. }
    assert (Hg : In (id a) (map id g)) by (destruct g; simpl in *; [assumption|now right]).
    clear -ND Ha Hg. induction (map id g) as [|y ys IH]; simpl in *; [assumption|].
    inversion ND as [|? ? Hn Hnd]; subst. destruct Hg as [->|Hg].
    + apply Hn. apply in_app_iff. now right.
    + now apply IH.
Qed.

Lemma member_marked groups a ms m :
  In (a :: ms) groups -> In m ms -> is_marked groups m = true.
Proof.
  intros Hg Hm. apply is_marked_iff. unfold marked_ids, ids.
  apply in_map. apply in_concat. exists ms. split; [|assumption].
  apply in_map_iff. exists (a :: ms). split; [reflexivity|assumption].
Qed.

(** X10: after a run without faults on a store with distinct primary
    keys, the anchor of every cluster is in the store as it was, still
    unflagged, and every other member is in the store with the flag
    set. *)
Theorem deduplicate_keeps_anchor (f : Engine.Faults) (store g : list YachtListing) :
  List.NoDup (ids store) ->
  Engine.query_fault f = None -> Engine.commit_fault f = None ->
  In g (YachtDeduplicator.find_duplicates (active store)) ->
  exists a ms,
    g = a :: ms
    /\ is_duplicate a = false
    /\ In a (snd (Engine.deduplicate_listings f store))
    /\ Forall (fun m => In (Engine.with_is_duplicate true m)
                          (snd (Engine.deduplicate_listings f store))) ms.
Proof.
  intros NS Hq Hc Hg. rewrite (deduplicate_run f store NS Hq Hc). cbn [snd].
  destruct (find_duplicates_shape (active store)) as [F N].
  pose proof F as F'. rewrite List.Forall_forall in F'.
  destruct (F' g Hg) as (a & ms & pre & post & -> & _ & Ea & Fm).
  assert (Ha : In a (active store)).
  { rewrite Ea. apply in_app_iff. right. now left. }
  exists a, ms. split; [reflexivity|]. split.
  { unfold active in Ha. apply filter_In in Ha. now apply negb_true_iff. }
  split.
  - apply in_map_iff. exists a. split; [|now apply active_in].
    unfold mark. now rewrite (anchor_not_marked _ a ms N Hg).
  - apply List.Forall_forall. intros m Hm.
    apply in_map_iff. exists m. split.
    + unfold mark. now rewrite (member_marked _ a ms m Hg Hm).
    + apply active_in. rewrite Ea. apply in_app_iff. right. right.
      rewrite List.Forall_forall in Fm. now apply Fm.
Qed.

Lemma deduplicate_keeps_anchor_witness :
  exists a ms,
    [Samples.chain_a; Samples.chain_b] = a :: ms
    /\ is_duplicate a = false
    /\ In a (snd (Engine.deduplicate_listings Fleet.no_faults Fleet.chain))
    /\ Forall (fun m => In (Engine.with_is_duplicate true m)
                          (snd (Engine.deduplicate_listings Fleet.no_faults
                                  Fleet.chain))) ms.
Proof.
  apply (deduplicate_keeps_anchor Fleet.no_faults Fleet.chain
           [Samples.chain_a; Samples.chain_b]).
  - repeat constructor; simpl; lia.
  - reflexivity.
  - reflexivity.
  - vm_compute. left. reflexivity.
Defined.

Lemma id_mark groups r : id (mark groups r) = id r.
Proof. unfold mark. destruct (is_marked groups r); reflexivity. Qed.

Lemma ids_map_mark groups store : ids (map (mark groups) store) = ids store.
Proof.
  unfold ids. rewrite map_map. apply map_ext. intros r. apply id_mark.
Qed.

Lemma active_map_mark groups store :
  active (map (mark groups) store) = survivors groups (active store).
Proof.
  unfold active, survivors. induction store as [|r store IH]; [reflexivity|].
  cbn [map List.filter]. unfold mark at 1 2.
  destruct (is_marked groups r) eqn:Em; destruct (is_duplicate r) eqn:Ed;
    cbn [Engine.with_is_duplicate is_duplicate negb List.filter];
    rewrite ?Ed, ?Em; cbn [negb]; rewrite IH; try reflexivity.
Qed.

Lemma mark_nil r : mark [] r = r.
Proof. reflexivity. Qed.

(** X11: a second run right after a first one, both without faults,
    finds no duplicate: it returns zero for both counters and leaves the
    store as the first run left it. *)
Theorem deduplicate_listings_twice (f : Engine.Faults) (store : list YachtListing) :
  List.NoDup (ids store) ->
  Engine.query_fault f = None -> Engine.commit_fault f = None ->
  Engine.deduplicate_listings f (snd (Engine.deduplicate_listings f store))
  = (Engine.Returns
       (Engine.mkDedupResults
          (Z.of_nat (List.length (active (snd (Engine.deduplicate_listings f store)))))
          0 0),
     snd (Engine.deduplicate_listings f store)).
Proof.
  intros NS Hq Hc. rewrite (deduplicate_run f store NS Hq Hc). cbn [snd].
  set (groups := YachtDeduplicator.find_duplicates (active store)).
  rewrite deduplicate_run; [| now rewrite ids_map_mark | assumption | assumption].
  rewrite active_map_mark. unfold groups.
  rewrite find_duplicates_survivors by (apply NoDup_ids_filter; assumption).
  f_equal. rewrite <- (map_id (map _ store)) at 2. apply map_ext. intros r. apply mark_nil.
Qed.

Lemma deduplicate_listings_twice_witness :
  Engine.deduplicate_listings Fleet.no_faults
    (snd (Engine.deduplicate_listings Fleet.no_faults Fleet.chain))
  = (Engine.Returns
       (Engine.mkDedupResults
          (Z.of_nat (List.length
                       (active (snd (Engine.deduplicate_listings Fleet.no_faults
                                       Fleet.chain)))))
          0 0),
     snd (Engine.deduplicate_listings Fleet.no_faults Fleet.chain)).
Proof.
  apply (deduplicate_listings_twice Fleet.no_faults Fleet.chain).
  - repeat constructor; simpl; lia.
  - reflexivity.
  - reflexivity.
Defined.

(** ** The scoring run and the combined call *)

Lemma active_ids_iff store r :
  List.NoDup (ids store) -> In r store ->
  existsb (Z.eqb (id r)) (ids (active store)) = negb (is_duplicate r).
Proof.
  intros NS Hr. apply eq_true_iff_eq. rewrite existsb_exists, negb_true_iff. split.
  - intros (x & Hx & E). apply Z.eqb_eq in E. subst x.
    apply in_map_iff in Hx. destruct Hx as (m & Em & Hm).
    assert (m = r) by (apply (same_id_same_row store); auto using active_in). subst m.
    unfold active in Hm. apply filter_In in Hm. now apply negb_true_iff.
  - intros Hd. exists (id r). split; [|apply Z.eqb_refl].
    apply in_map. unfold active. apply filter_In. split; [assumption|now rewrite Hd].
Qed.

(** The [try] block of [score_all_listings] without faults, on a store
    with distinct primary keys. *)
Lemma score_body_run
        (self : YachtScorer.Scorer) (json_len : string -> option nat)
        (f : Engine.Faults) (store : list YachtListing) :
  List.NoDup (ids store) ->
  Engine.query_fault f = None -> Engine.commit_fault f = None ->
  Engine.score_body self json_len f (Engine.SessionLocal store)
  = (Engine.Returns
       (Engine.mkScoreResults (Z.of_nat (List.length (active store)))
          (Z.of_nat (List.length (active store)))),
     Engine.SessionLocal (map (rescore self json_len) store)).
Proof.
  intros NS Hq Hc.
  unfold Engine.score_body, Engine.bind, Engine.query_active.
  rewrite Hq. cbn [Engine.SessionLocal Engine.rows]. fold (active store).
  rewrite (for_each_written
             (fun l x => Engine.with_score (YachtScorer.calculate_score self json_len l) x))
    by reflexivity.
  unfold Engine.commit. rewrite Hc. cbn [Engine.rows Engine.dirty].
  unfold Engine.ret, Engine.SessionLocal. cbn [Engine.rows]. f_equal. f_equal.
  rewrite commit_written;
    [| assumption | now apply NoDup_ids_filter | intros m; apply active_in].
  apply map_ext_in. intros r Hr. cbv beta. rewrite (active_ids_iff store r NS Hr).
  unfold rescore. destruct (is_duplicate r); reflexivity.
Qed.

Lemma score_run
        (self : YachtScorer.Scorer) (json_len : string -> option nat)
        (f : Engine.Faults) (store : list YachtListing) :
  List.NoDup (ids store) ->
  Engine.query_fault f = None -> Engine.commit_fault f = None ->
  Engine.score_all_listings self json_len f store
  = (Engine.Returns
       (Engine.mkScoreResults (Z.of_nat (List.length (active store)))
          (Z.of_nat (List.length (active store)))),
     map (rescore self json_len) store).
Proof.
  intros NS Hq Hc. apply run_in_session_returns.
  now apply score_body_run.
Qed.

(** X12: on a store with distinct primary keys and without a fault of the
    query or the commit, [score_all_listings] reports every unflagged row
    as processed and as scored, writes its score, and leaves the flagged
    rows, the other columns and the row order as they were. *)
Theorem score_all_listings_success
        (self : YachtScorer.Scorer) (json_len : string -> option nat)
        (f : Engine.Faults) (store : list YachtListing) :
  List.NoDup (ids store) ->
  Engine.query_fault f = None -> Engine.commit_fault f = None ->
  Engine.score_all_listings self json_len f store
  = (Engine.Returns
       (Engine.mkScoreResults (Z.of_nat (List.length (active store)))
          (Z.of_nat (List.length (active store)))),
     map (rescore self json_len) store).
Proof.
  intros NS Hq Hc. unfold Engine.score_all_listings.
  rewrite (run_in_session_returns _ _ _ _ _
             (score_body_run self json_len f store NS Hq Hc)).
  reflexivity.
Qed.

Lemma score_all_listings_success_witness :
  Engine.score_all_listings (YachtScorer.init 2024) Samples.no_json
    Fleet.no_faults Fleet.chain
  = (Engine.Returns
       (Engine.mkScoreResults (Z.of_nat (List.length (active Fleet.chain)))
          (Z.of_nat (List.length (active Fleet.chain)))),
     map (rescore (YachtScorer.init 2024) Samples.no_json) Fleet.chain).
Proof.
  apply (score_all_listings_success (YachtScorer.init 2024) Samples.no_json
           Fleet.no_faults Fleet.chain).
  - repeat constructor; simpl; lia.
  - reflexivity.
  - reflexivity.
Defined.

Lemma calculate_score_with_score self json_len v r :
  YachtScorer.calculate_score self json_len (Engine.with_score v r)
  = YachtScorer.calculate_score self json_len r.
Proof.
  unfold YachtScorer.calculate_score, YachtScorer.raw_score.
  rewrite (condition_factor_ext (Engine.with_score v r) r eq_refl).
  rewrite (images_factor_ext json_len (Engine.with_score v r) r eq_refl).
  rewrite (description_factor_ext (Engine.with_score v r) r eq_refl).
  rewrite (location_factor_ext (Engine.with_score v r) r eq_refl).
  rewrite (seller_factor_ext (Engine.with_score v r) r eq_refl).
  rewrite (brand_factor_ext (Engine.with_score v r) r eq_refl).
  rewrite (length_factor_ext (Engine.with_score v r) r eq_refl).
  rewrite (price_factor_ext (Engine.with_score v r) r eq_refl eq_refl).
  rewrite (age_factor_ext self (Engine.with_score v r) r eq_refl).
  reflexivity.
Qed.

Lemma rescore_rescore self json_len r :
  rescore self json_len (rescore self json_len r) = rescore self json_len r.
Proof.
  unfold rescore. destruct (is_duplicate r) eqn:E; [now rewrite E|].
  cbn [Engine.with_score is_duplicate]. rewrite E.
  rewrite calculate_score_with_score. reflexivity.
Qed.

Lemma id_rescore self json_len r : id (rescore self json_len r) = id r.
Proof. unfold rescore. destruct (is_duplicate r); reflexivity. Qed.

(** X13: scoring a second time with the same scorer, both runs without
    faults, leaves the store as the first run left it: the score written
    does not feed back into the score. *)
Theorem score_all_listings_twice
        (self : YachtScorer.Scorer) (json_len : string -> option nat)
        (f : Engine.Faults) (store : list YachtListing) :
  List.NoDup (ids store) ->
  Engine.query_fault f = None -> Engine.commit_fault f = None ->
  snd (Engine.score_all_listings self json_len f
         (snd (Engine.score_all_listings self json_len f store)))
  = snd (Engine.score_all_listings self json_len f store).
Proof.
  intros NS Hq Hc. rewrite (score_run self json_len f store NS Hq Hc).
  cbn [snd]. rewrite score_run; [|  | assumption | assumption].
  - cbn [snd]. rewrite map_map. apply map_ext. intros r. apply rescore_rescore.
  - unfold ids. rewrite map_map.
    erewrite map_ext; [exact NS|]. intros r. apply id_rescore.
Qed.

Lemma score_all_listings_twice_witness :
  snd (Engine.score_all_listings (YachtScorer.init 2024) Samples.no_json
         Fleet.no_faults
         (snd (Engine.score_all_listings (YachtScorer.init 2024) Samples.no_json
                 Fleet.no_faults Fleet.chain)))
  = snd (Engine.score_all_listings (YachtScorer.init 2024) Samples.no_json
           Fleet.no_faults Fleet.chain).
Proof.
  apply (score_all_listings_twice (YachtScorer.init 2024) Samples.no_json
           Fleet.no_faults Fleet.chain).
  - repeat constructor; simpl; lia.
  - reflexivity.
  - reflexivity.
Defined.

Lemma rescore_mark_member self json_len groups r :
  is_marked groups r = true ->
  rescore self json_len (mark groups r) = Engine.with_is_duplicate true r.
Proof. intros H. unfold mark. rewrite H. reflexivity. Qed.

(** X15: when the deduplication goes through and the scoring run then
    fails at its query or its commit, [run_deduplication_and_scoring]
    raises that exception and the store keeps the flags the first run
    committed: the two runs are not one transaction. *)
Theorem run_scoring_failure_keeps_flags
        (now_year : Z) (json_len : string -> option nat)
        (f_dedup f_score : Engine.Faults) (store : list YachtListing) (e : Engine.exn) :
  List.NoDup (ids store) ->
  Engine.query_fault f_dedup = None -> Engine.commit_fault f_dedup = None ->
  Engine.query_fault f_score = Some e
  \/ (Engine.query_fault f_score = None /\ Engine.commit_fault f_score = Some e) ->
  Engine.run_deduplication_and_scoring now_year json_len f_dedup f_score store
  = (Engine.Raises e,
     map (mark (YachtDeduplicator.find_duplicates (active store))) store).
Proof.
  intros NS Hq Hc Hs. unfold Engine.run_deduplication_and_scoring.
  rewrite (deduplicate_run f_dedup store NS Hq Hc).
  destruct Hs as [Hs|[Hs1 Hs2]].
  - now rewrite (score_query_fails _ _ _ _ e Hs).
  - now rewrite (score_commit_fails _ _ _ _ e Hs1 Hs2).
Qed.

Lemma run_scoring_failure_keeps_flags_witness :
  Engine.run_deduplication_and_scoring 2024 Samples.no_json
    Fleet.no_faults Fleet.disk_full Fleet.chain
  = (Engine.Raises "disk full"%string,
     map (mark (YachtDeduplicator.find_duplicates (active Fleet.chain))) Fleet.chain).
Proof.
  apply (run_scoring_failure_keeps_flags 2024 Samples.no_json
           Fleet.no_faults Fleet.disk_full Fleet.chain "disk full"%string).
  - repeat constructor; simpl; lia.
  - reflexivity.
  - reflexivity.
  - right. split; reflexivity.
Defined.

(** X14: when the deduplication fails at its query or its commit,
    [run_deduplication_and_scoring] raises that exception, no scorer is
    run and the store is as it was. *)
Theorem run_dedup_failure_skips_scoring
        (now_year : Z) (json_len : string -> option nat)
        (f_dedup f_score : Engine.Faults) (store : list YachtListing) (e : Engine.exn) :
  Engine.query_fault f_dedup = Some e
  \/ (Engine.query_fault f_dedup = None /\ Engine.commit_fault f_dedup = Some e) ->
  Engine.run_deduplication_and_scoring now_year json_len f_dedup f_score store
  = (Engine.Raises e, store).
Proof.
  intros Hs. unfold Engine.run_deduplication_and_scoring.
  destruct Hs as [Hs|[Hs1 Hs2]].
  - now rewrite (deduplicate_query_fails _ _ e Hs).
  - now rewrite (deduplicate_commit_fails _ _ e Hs1 Hs2).
Qed.

Lemma run_dedup_failure_skips_scoring_witness :
  Engine.run_deduplication_and_scoring 2024 Samples.no_json
    Fleet.disk_full Fleet.no_faults Fleet.chain
  = (Engine.Raises "disk full"%string, Fleet.chain).
Proof.
  apply (run_dedup_failure_skips_scoring 2024 Samples.no_json
           Fleet.disk_full Fleet.no_faults Fleet.chain "disk full"%string).
  right. split; reflexivity.
Defined.

(** X16: without faults and with distinct primary keys,
    [run_deduplication_and_scoring] returns the results of both runs; the
    scoring run processes the rows the deduplication left unflagged, so
    in the store the rows just flagged keep their old score and every
    other unflagged row gets the score of a scorer built for [now_year]. *)
Theorem run_deduplication_and_scoring_success
        (now_year : Z) (json_len : string -> option nat)
        (f_dedup f_score : Engine.Faults) (store : list YachtListing) :
  List.NoDup (ids store) ->
  Engine.query_fault f_dedup = None -> Engine.commit_fault f_dedup = None ->
  Engine.query_fault f_score = None -> Engine.commit_fault f_score = None ->
  let groups := YachtDeduplicator.find_duplicates (active store) in
  let remaining := Z.of_nat (List.length (survivors groups (active store))) in
  Engine.run_deduplication_and_scoring now_year json_len f_dedup f_score store
  = (Engine.Returns
       (Engine.mkDedupResults (Z.of_nat (List.length (active store)))
          (Engine.count_found groups) (Engine.count_marked groups),
        Engine.mkScoreResults remaining remaining),
     map (fun r =>
            if is_marked groups r then Engine.with_is_duplicate true r
            else rescore (YachtScorer.init now_year) json_len r) store).
Proof.
  intros NS Hq Hc Hq' Hc' groups remaining.
  unfold Engine.run_deduplication_and_scoring.
  rewrite (deduplicate_run f_dedup store NS Hq Hc).
  rewrite score_run; [| now rewrite ids_map_mark | assumption | assumption].
  rewrite active_map_mark. fold groups. fold remaining. f_equal.
  rewrite map_map. apply map_ext. intros r.
  unfold mark. destruct (is_marked _ r); reflexivity.
Qed.

Lemma run_deduplication_and_scoring_success_witness :
  let groups := YachtDeduplicator.find_duplicates (active Fleet.chain) in
  let remaining := Z.of_nat (List.length (survivors groups (active Fleet.chain))) in
  Engine.run_deduplication_and_scoring 2024 Samples.no_json
    Fleet.no_faults Fleet.no_faults Fleet.chain
  = (Engine.Returns
       (Engine.mkDedupResults (Z.of_nat (List.length (active Fleet.chain)))
          (Engine.count_found groups) (Engine.count_marked groups),
        Engine.mkScoreResults remaining remaining),
     map (fun r =>
            if is_marked groups r then Engine.with_is_duplicate true r
            else rescore (YachtScorer.init 2024) Samples.no_json r) Fleet.chain).
Proof.
  apply (run_deduplication_and_scoring_success 2024 Samples.no_json
           Fleet.no_faults Fleet.no_faults Fleet.chain).
  - repeat constructor; simpl; lia.
  - reflexivity.
  - reflexivity.
  - reflexivity.
  - reflexivity.
Defined.

(** ** Scoring: lowest score, year and images *)

Lemma final_score_table :
  forallb (fun k => leb (lit 83 100) (final_score k)
                    && forallb (fun k' => (k' <? k) || leb (final_score k) (final_score k'))
                         (Zrange 2 23))
          (Zrange 2 23) = true.
Proof. vm_compute. reflexivity. Qed.

Lemma final_score_min k : 2 <= k <= 24 -> leb (lit 83 100) (final_score k) = true.
Proof.
  intros H. pose proof final_score_table as T. rewrite forallb_forall in T.
  specialize (T k (In_Zrange 2 23 k ltac:(lia))). now apply andb_prop in T.
Qed.

Lemma final_score_mono k k' :
  2 <= k <= 24 -> 2 <= k' <= 24 -> k <= k' ->
  leb (final_score k) (final_score k') = true.
Proof.
  intros H H' Hle. pose proof final_score_table as T. rewrite forallb_forall in T.
  specialize (T k (In_Zrange 2 23 k ltac:(lia))). apply andb_prop in T.
  destruct T as [_ T]. rewrite forallb_forall in T.
  specialize (T k' (In_Zrange 2 23 k' ltac:(lia))).
  apply orb_prop in T. destruct T as [T|T]; [|exact T].
  apply Z.ltb_lt in T. lia.
Qed.

(** X17: every listing scores at least [0.83], and a row with none of
    the optional columns scores exactly that: [calculate_score] never
    returns [0.0]. *)
Theorem calculate_score_at_least
        (self : YachtScorer.Scorer) (json_len : string -> option nat)
        (l : YachtListing) :
  leb (lit 83 100) (YachtScorer.calculate_score self json_len l) = true
  /\ YachtScorer.calculate_score self json_len (Samples.bare (id l) (title l))
     = lit 83 100.
Proof.
  split.
  - unfold YachtScorer.calculate_score.
    destruct (raw_score_half self json_len l) as (k & Hk & ->).
    now apply final_score_min.
  - vm_compute. reflexivity.
Qed.

Lemma later_rules_add (json_len : string -> option nat) (l : YachtListing) :
  exists t, 0 <= t <= 18
            /\ forall k, 2 <= k <= 6 -> later_rules json_len l (half k) = half (k + t).
Proof.
  destruct (price_factor_bound l) as (j1 & B1 & E1).
  destruct (length_factor_bound l) as (j2 & B2 & E2).
  destruct (brand_factor_bound l) as (j3 & B3 & E3).
  destruct (seller_factor_bound l) as (j4 & B4 & E4).
  destruct (location_factor_bound l) as (j5 & B5 & E5).
  destruct (description_factor_bound l) as (j6 & B6 & E6).
  destruct (images_factor_bound json_len l) as (j7 & B7 & E7).
  destruct (condition_factor_bound l) as (j8 & B8 & E8).
  exists (j1 + j2 + j3 + j4 + j5 + j6 + j7 + j8). split; [lia|].
  intros k Hk. unfold later_rules.
  rewrite E1, bump_half by lia. rewrite E2, bump_half by lia.
  rewrite E3, bump_half by lia. rewrite E4, bump_half by lia.
  rewrite E5, bump_half by lia. rewrite E6, bump_half by lia.
  rewrite E7, bump_half by lia. rewrite E8, bump_half by lia.
  f_equal. lia.
Qed.

Lemma age_factor_points self l y s :
  year l = Some y -> y <> 0 ->
  YachtScorer.age_factor self l s = bump (age_points self y) s.
Proof.
  intros Hy Hn. unfold YachtScorer.age_factor, age_points. rewrite Hy.
  apply Z.eqb_neq in Hn. rewrite Hn. cbn [negb].
  destruct (_ <=? 5); [reflexivity|]. destruct (_ <=? 10); [reflexivity|].
  destruct (_ <=? 15); [reflexivity|]. destruct (_ <=? 20); reflexivity.
Qed.

Lemma age_points_mono self y1 y2 :
  y1 <= y2 -> 0 <= age_points self y1 /\ age_points self y1 <= age_points self y2
              /\ age_points self y2 <= 4.
Proof.
  intros H. unfold age_points.
  repeat match goal with
         | |- context [?a <=? ?b] => destruct (Z.leb_spec a b)
         end; lia.
Qed.

Lemma later_rules_with_year json_len y l s :
  later_rules json_len (with_year y l) s = later_rules json_len l s.
Proof.
  unfold later_rules.
  rewrite (condition_factor_ext (with_year y l) l eq_refl).
  rewrite (images_factor_ext json_len (with_year y l) l eq_refl).
  rewrite (description_factor_ext (with_year y l) l eq_refl).
  rewrite (location_factor_ext (with_year y l) l eq_refl).
  rewrite (seller_factor_ext (with_year y l) l eq_refl).
  rewrite (brand_factor_ext (with_year y l) l eq_refl).
  rewrite (length_factor_ext (with_year y l) l eq_refl).
  rewrite (price_factor_ext (with_year y l) l eq_refl eq_refl).
  reflexivity.
Qed.

Lemma calculate_score_year self json_len l :
  exists t, 0 <= t <= 18
    /\ forall y', y' <> 0 ->
         YachtScorer.calculate_score self json_len (with_year (Some y') l)
         = final_score (2 + age_points self y' + t).
Proof.
  destruct (later_rules_add json_len l) as (t & Ht & E).
  exists t. split; [assumption|]. intros y' Hy'.
  unfold YachtScorer.calculate_score, YachtScorer.raw_score.
  change (add (of_Z 0) (of_Z 1)) with (half 2).
  rewrite (age_factor_points self (with_year (Some y') l) y' _ eq_refl Hy').
  pose proof (age_points_mono self y' y' (Z.le_refl _)) as B.
  rewrite bump_half by lia.
  change (YachtScorer.condition_factor _ _) with
    (later_rules json_len (with_year (Some y') l) (half (2 + age_points self y'))).
  rewrite later_rules_with_year, E by lia. reflexivity.
Qed.

(** X18: a listing never scores lower than the same listing with an
    earlier (non-zero) year, whatever its other columns. *)
Theorem calculate_score_newer_not_lower
        (self : YachtScorer.Scorer) (json_len : string -> option nat)
        (l : YachtListing) (y1 y2 : Z) :
  y1 <> 0 -> y2 <> 0 -> y1 <= y2 ->
  leb (YachtScorer.calculate_score self json_len (with_year (Some y1) l))
      (YachtScorer.calculate_score self json_len (with_year (Some y2) l)) = true.
Proof.
  intros H1 H2 Hle.
  destruct (calculate_score_year self json_len l) as (t & Ht & E).
  rewrite (E y1 H1), (E y2 H2).
  pose proof (age_points_mono self y1 y2 Hle).
  apply final_score_mono; lia.
Qed.

Lemma calculate_score_newer_not_lower_witness :
  leb (YachtScorer.calculate_score (YachtScorer.init 2024) Samples.no_json
         (with_year (Some 1998) Samples.best_row))
      (YachtScorer.calculate_score (YachtScorer.init 2024) Samples.no_json
         (with_year (Some 2012) Samples.best_row)) = true.
Proof.
  apply (calculate_score_newer_not_lower (YachtScorer.init 2024) Samples.no_json
           Samples.best_row 1998 2012); lia.
Defined.

(** X19: an [images] value that the JSON reader rejects (or whose parsed
    value has no length) is swallowed: the listing scores as if the
    column were empty. *)
Theorem calculate_score_unreadable_images
        (self : YachtScorer.Scorer) (json_len : string -> option nat)
        (l : YachtListing) :
  json_len (PyStr.or_empty (images l)) = None ->
  YachtScorer.calculate_score self json_len l
  = YachtScorer.calculate_score self json_len (without_images l).
Proof.
  intros H. unfold YachtScorer.calculate_score, YachtScorer.raw_score.
  rewrite (condition_factor_ext (without_images l) l eq_refl).
  assert (I1 : forall s, YachtScorer.images_factor json_len l s = s).
  { intros s. unfold YachtScorer.images_factor. rewrite H.
    destruct (PyStr.opt_truthy _); reflexivity. }
  assert (I2 : forall s, YachtScorer.images_factor json_len (without_images l) s = s)
    by reflexivity.
  rewrite I1, I2.
  rewrite (description_factor_ext (without_images l) l eq_refl).
  rewrite (location_factor_ext (without_images l) l eq_refl).
  rewrite (seller_factor_ext (without_images l) l eq_refl).
  rewrite (brand_factor_ext (without_images l) l eq_refl).
  rewrite (length_factor_ext (without_images l) l eq_refl).
  rewrite (price_factor_ext (without_images l) l eq_refl eq_refl).
  rewrite (age_factor_ext self (without_images l) l eq_refl).
  reflexivity.
Qed.

Lemma calculate_score_unreadable_images_witness :
  YachtScorer.calculate_score (YachtScorer.init 2024) Samples.no_json
    Samples.best_row
  = YachtScorer.calculate_score (YachtScorer.init 2024) Samples.no_json
      (without_images Samples.best_row).
Proof.
  apply (calculate_score_unreadable_images (YachtScorer.init 2024)
           Samples.no_json Samples.best_row).
  reflexivity.
Defined.

(** ** Text normalisation: the result is in normal form *)

Section NormalForm.

Import PyStr.
Local Open Scope nat_scope.

Section Chars.

Lemma lower_char_idem c : lower_char (lower_char c) = lower_char c.
Proof. destruct c as [[] [] [] [] [] [] [] []]; vm_compute; reflexivity. Qed.

Lemma word_not_space c : isword c = true -> isspace c = false.
Proof. destruct c as [[] [] [] [] [] [] [] []]; vm_compute; congruence. Qed.

Lemma space_not_word c : isspace c = true -> isword c = false.
Proof.
  intros H. destruct (isword c) eqn:E; [|reflexivity].
  apply word_not_space in E. congruence.
Qed.

End Chars.

Section StopWords.

Lemma match_literal_run w :
  allword w = true ->
  forall s last,
    Re.word_at last = true ->
    match Re.match_literal w s last with
    | Some (l, rest) => Re.boundary l (Re.head rest)
    | None => false
    end = String.eqb (word_prefix s) w.
Proof.
  induction w as [|c w IH]; intros Hw s last Hl.
  - cbn [Re.match_literal]. unfold Re.boundary. rewrite Hl.
    destruct s as [|d s]; [reflexivity|]. cbn [Re.head Re.word_at word_prefix].
    destruct (isword d); reflexivity.
  - cbn [allword] in Hw. apply andb_prop in Hw. destruct Hw as [Hc Hw].
    cbn [Re.match_literal]. destruct s as [|d s]; [reflexivity|].
    destruct (Ascii.eqb c d) eqn:E.
    + apply Ascii.eqb_eq in E. subst d. rewrite IH by assumption.
      cbn [word_prefix]. rewrite Hc. cbn [String.eqb]. now rewrite Ascii.eqb_refl.
    + cbn [word_prefix]. destruct (isword d); [|reflexivity].
      cbn [String.eqb]. rewrite Ascii.eqb_sym, E. reflexivity.
Qed.

Lemma match_alternative_run w s :
  allword w = true -> w <> EmptyString ->
  Re.match_alternative w s = String.eqb (word_prefix s) w.
Proof.
  intros Hw Hne. unfold Re.match_alternative.
  destruct w as [|c w]; [congruence|].
  cbn [allword] in Hw. apply andb_prop in Hw. destruct Hw as [Hc Hw].
  cbn [Re.match_literal]. destruct s as [|d s]; [reflexivity|].
  destruct (Ascii.eqb c d) eqn:E.
  - apply Ascii.eqb_eq in E. subst d. rewrite match_literal_run by assumption.
    cbn [word_prefix]. rewrite Hc. cbn [String.eqb]. now rewrite Ascii.eqb_refl.
  - cbn [word_prefix]. destruct (isword d); [|reflexivity].
    cbn [String.eqb]. rewrite Ascii.eqb_sym, E. reflexivity.
Qed.

Lemma stop_words_shape :
  Forall (fun w => allword w = true /\ w <> EmptyString) Re.stop_words.
Proof. repeat constructor; discriminate. Qed.

Lemma find_ext_in {A} (f g : A -> bool) (l : list A) :
  (forall x, In x l -> f x = g x) -> List.find f l = List.find g l.
Proof.
  induction l as [|x l IH]; intros H; [reflexivity|]. cbn [List.find].
  rewrite (H x (or_introl eq_refl)). destruct (g x); [reflexivity|].
  apply IH. intros y Hy. apply H. now right.
Qed.

Lemma find_alternative s :
  List.find (fun w => Re.match_alternative w s) Re.stop_words
  = List.find (fun w => String.eqb (word_prefix s) w) Re.stop_words.
Proof.
  apply find_ext_in. intros w Hw.
  pose proof stop_words_shape as F. rewrite List.Forall_forall in F.
  destruct (F w Hw). now apply match_alternative_run.
Qed.

Lemma run_nonword c r : isword c = false -> word_prefix (String c r) = EmptyString.
Proof. intros H. cbn [word_prefix]. now rewrite H. Qed.

Lemma match_stop_word_run b s :
  Re.match_stop_word b s
  = if Re.word_at b then None
    else option_map String.length
           (List.find (fun w => String.eqb (word_prefix s) w) Re.stop_words).
Proof.
  unfold Re.match_stop_word. rewrite find_alternative. unfold Re.boundary.
  destruct s as [|c r].
  - cbn [Re.head Re.word_at word_prefix]. destruct (Re.word_at b); reflexivity.
  - cbn [Re.head Re.word_at]. destruct (Re.word_at b), (isword c) eqn:E;
      cbn [Bool.eqb negb]; try reflexivity.
    + now rewrite (run_nonword c r E).
    + now rewrite (run_nonword c r E).
Qed.

Lemma match_none_hit b s :
  Re.match_stop_word b s = None <-> stop_word_here (Re.word_at b) s = false.
Proof.
  rewrite match_stop_word_run. unfold stop_word_here. destruct (Re.word_at b); cbn [negb andb].
  - tauto.
  - destruct (List.find _ _) as [w|] eqn:E; cbn [option_map].
    + apply find_some in E. split; [discriminate|]. intros H.
      assert (existsb (fun w => String.eqb (word_prefix s) w) Re.stop_words = true).
      { apply existsb_exists. exists w. exact E. }
      congruence.
    + split; [|reflexivity]. intros _. apply not_true_is_false.
      rewrite existsb_exists. intros (w & Hw & Ew).
      pose proof (find_none _ _ E w Hw) as Ew'. cbv beta in Ew'. congruence.
Qed.

Lemma clean_fixed s :
  forall b, no_stop_word (Re.word_at b) s -> Re.sub_stop_words_from b O s = s.
Proof.
  induction s as [|c r IH]; intros b H; [reflexivity|].
  destruct H as [H1 H2]. cbn [Re.sub_stop_words_from].
  apply match_none_hit in H1. rewrite H1. f_equal. now apply IH.
Qed.

End StopWords.

Section Scanner.

Lemma hit_nonword bw c r : isword c = false -> stop_word_here bw (String c r) = false.
Proof.
  intros H. unfold stop_word_here. rewrite (run_nonword c r H).
  destruct bw; reflexivity.
Qed.

Lemma hit_same_run bw s s' : word_prefix s = word_prefix s' -> stop_word_here bw s = stop_word_here bw s'.
Proof. intros E. unfold stop_word_here. now rewrite E. Qed.

Lemma run_inside_word s :
  forall b, Re.word_at b = true -> word_prefix (Re.sub_stop_words_from b O s) = word_prefix s.
Proof.
  induction s as [|c r IH]; intros b Hb; [reflexivity|].
  cbn [Re.sub_stop_words_from]. rewrite match_stop_word_run, Hb.
  cbn [word_prefix]. destruct (isword c) eqn:E; [|reflexivity].
  f_equal. now apply IH.
Qed.

Lemma after_run_nonword s :
  Re.word_at (Re.head (skip_chars (String.length (word_prefix s)) s)) = false.
Proof.
  induction s as [|c r IH]; [reflexivity|].
  cbn [word_prefix]. destruct (isword c) eqn:E; cbn [String.length skip_chars].
  - exact IH.
  - cbn [Re.head Re.word_at]. exact E.
Qed.

Lemma find_stop_word_length s w :
  List.find (fun w => String.eqb (word_prefix s) w) Re.stop_words = Some w ->
  word_prefix s = w /\ exists n, String.length w = S n.
Proof.
  intros E. apply find_some in E. destruct E as [Hin E].
  apply String.eqb_eq in E. split; [assumption|].
  pose proof stop_words_shape as F. rewrite List.Forall_forall in F.
  destruct (F w Hin) as [_ Hne]. destruct w; [congruence|]. now eexists.
Qed.

(** The scanner's output holds no match: [bo] is the kind of the
    character last written; while a match is being passed over the last
    character written is the replacing space and the character after the
    match is no word character. *)
Lemma sub_stop_words_clean s :
  forall b k bo,
    (k = O /\ bo = Re.word_at b)
    \/ (bo = false /\ Re.word_at (Re.head (skip_chars k s)) = false) ->
    no_stop_word bo (Re.sub_stop_words_from b k s).
Proof.
  induction s as [|c r IH]; intros b k bo Inv; [exact I|].
  cbn [Re.sub_stop_words_from]. destruct k as [|k].
  - destruct (Re.match_stop_word b (String c r)) as [n|] eqn:Em.
    + (* a match starts here *)
      rewrite match_stop_word_run in Em.
      destruct (Re.word_at b) eqn:Eb; [discriminate|].
      destruct (List.find _ _) as [w|] eqn:Ef; [|discriminate].
      injection Em as <-. destruct (find_stop_word_length _ _ Ef) as [Er [n En]].
      cbn [no_stop_word]. split; [now apply hit_nonword|].
      apply IH. right. split; [reflexivity|].
      rewrite En. cbn [Nat.sub]. rewrite Nat.sub_0_r.
      pose proof (after_run_nonword (String c r)) as A.
      rewrite Er, En in A. exact A.
    + (* no match here *)
      assert (Hrun : word_prefix (String c (Re.sub_stop_words_from (Some c) O r))
                     = word_prefix (String c r)).
      { cbn [word_prefix]. destruct (isword c) eqn:E; [|reflexivity].
        f_equal. now apply run_inside_word. }
      cbn [no_stop_word]. split.
      * rewrite (hit_same_run _ _ _ Hrun).
        destruct Inv as [[_ ->]|[-> Hh]].
        -- now apply match_none_hit.
        -- cbn [skip_chars Re.head Re.word_at] in Hh. now apply hit_nonword.
      * apply IH. left. split; reflexivity.
  - destruct Inv as [[Hk _]|[Hb Hh]]; [discriminate|].
    apply IH. right. split; [assumption|exact Hh].
Qed.

Lemma run_sub_spaces s : word_prefix (Re.sub_spaces_from false s) = word_prefix s.
Proof.
  induction s as [|c r IH]; [reflexivity|].
  cbn [Re.sub_spaces_from]. destruct (isspace c) eqn:E.
  - rewrite (run_nonword c r (space_not_word c E)). reflexivity.
  - cbn [word_prefix]. destruct (isword c); [|reflexivity]. now rewrite IH.
Qed.

Lemma sub_spaces_clean s :
  forall in_run bw,
    (in_run = true -> bw = false) ->
    no_stop_word bw s -> no_stop_word bw (Re.sub_spaces_from in_run s).
Proof.
  induction s as [|c r IH]; intros in_run bw Hin H; [exact I|].
  destruct H as [H1 H2]. cbn [Re.sub_spaces_from].
  destruct (isspace c) eqn:E.
  - pose proof (space_not_word c E) as W. rewrite W in H2.
    destruct in_run.
    + rewrite (Hin eq_refl). apply IH; [reflexivity|assumption].
    + cbn [no_stop_word]. split; [now apply hit_nonword|].
      change (isword " "%char) with false. apply IH; [reflexivity|assumption].
  - cbn [no_stop_word]. split.
    + rewrite (hit_same_run bw _ (String c r)); [exact H1|]. cbn [word_prefix].
      destruct (isword c); [|reflexivity]. now rewrite run_sub_spaces.
    + apply IH; [discriminate|assumption].
Qed.

Lemma lstrip_clean s : no_stop_word false s -> no_stop_word false (lstrip s).
Proof.
  induction s as [|c r IH]; intros H; [exact I|].
  cbn [lstrip]. destruct (isspace c) eqn:E; [|exact H].
  destruct H as [_ H]. rewrite (space_not_word c E) in H. now apply IH.
Qed.

Lemma rstrip_cons c r :
  rstrip (String c r)
  = match rstrip r with
    | EmptyString => if isspace c then EmptyString else String c EmptyString
    | _ => String c (rstrip r)
    end.
Proof. cbn [rstrip]. destruct (rstrip r); reflexivity. Qed.

Lemma run_rstrip s : word_prefix (rstrip s) = word_prefix s.
Proof.
  induction s as [|c r IH]; [reflexivity|].
  rewrite rstrip_cons. destruct (rstrip r) as [|d r'] eqn:E.
  - destruct (isspace c) eqn:Es.
    + now rewrite (run_nonword c r (space_not_word c Es)).
    + cbn [word_prefix]. destruct (isword c); [|reflexivity]. now rewrite <- IH.
  - cbn [word_prefix]. destruct (isword c); [|reflexivity]. now rewrite <- IH.
Qed.

Lemma rstrip_clean s : forall bw, no_stop_word bw s -> no_stop_word bw (rstrip s).
Proof.
  induction s as [|c r IH]; intros bw H; [exact I|].
  destruct H as [H1 H2]. pose proof (IH _ H2) as H3.
  assert (Hr : word_prefix (String c (rstrip r)) = word_prefix (String c r)).
  { cbn [word_prefix]. destruct (isword c); [|reflexivity]. now rewrite run_rstrip. }
  rewrite rstrip_cons. destruct (rstrip r) as [|d r'] eqn:E.
  - destruct (isspace c); [exact I|].
    cbn [no_stop_word]. split; [|exact I]. now rewrite (hit_same_run _ _ _ Hr).
  - cbn [no_stop_word]. split; [now rewrite (hit_same_run _ _ _ Hr)|exact H3].
Qed.

End Scanner.

Section Shape.

Lemma single_spaced_weaken s : single_spaced true s -> single_spaced false s.
Proof.
  destruct s as [|c r]; [intros H; exact H|]. cbn [single_spaced].
  destruct (isspace c); [|intros H; exact H]. intros [H _]. discriminate.
Qed.

Lemma sub_spaces_single_spaced s :
  forall in_run, single_spaced in_run (Re.sub_spaces_from in_run s).
Proof.
  induction s as [|c r IH]; intros in_run; [exact I|].
  cbn [Re.sub_spaces_from]. destruct (isspace c) eqn:E.
  - destruct in_run; [apply IH|].
    cbn [single_spaced]. change (isspace " "%char) with true.
    split; [reflexivity|]. split; [reflexivity|apply IH].
  - cbn [single_spaced]. rewrite E. destruct in_run; apply IH.
Qed.

Lemma single_spaced_fixed s :
  forall in_run, single_spaced in_run s -> Re.sub_spaces_from in_run s = s.
Proof.
  induction s as [|c r IH]; intros in_run H; [reflexivity|].
  cbn [single_spaced] in H. cbn [Re.sub_spaces_from].
  destruct (isspace c).
  - destruct H as (-> & -> & H). f_equal. now apply IH.
  - f_equal. now apply IH.
Qed.

Lemma lstrip_single_spaced s : single_spaced false s -> single_spaced false (lstrip s).
Proof.
  induction s as [|c r IH]; intros H; [exact I|].
  cbn [lstrip]. cbn [single_spaced] in H. destruct (isspace c) eqn:E.
  - destruct H as (_ & _ & H). apply IH. now apply single_spaced_weaken.
  - cbn [single_spaced]. now rewrite E.
Qed.

Lemma single_spaced_cons in_run c r :
  single_spaced in_run (String c r)
  = if isspace c then in_run = false /\ c = " "%char /\ single_spaced true r
    else single_spaced false r.
Proof. reflexivity. Qed.

Lemma rstrip_single_spaced s :
  forall in_run, single_spaced in_run s -> single_spaced in_run (rstrip s).
Proof.
  induction s as [|c r IH]; intros in_run H; [exact I|].
  rewrite rstrip_cons. rewrite single_spaced_cons in H.
  destruct (isspace c) eqn:Es.
  - destruct H as (H1 & H2 & H3). pose proof (IH _ H3) as H4.
    destruct (rstrip r) as [|d r']; [exact I|].
    rewrite single_spaced_cons, Es. auto.
  - pose proof (IH _ H) as H4.
    destruct (rstrip r) as [|d r']; rewrite single_spaced_cons, Es; [exact I|exact H4].
Qed.

Lemma rstrip_idem s : rstrip (rstrip s) = rstrip s.
Proof.
  induction s as [|c r IH]; [reflexivity|].
  rewrite rstrip_cons. destruct (rstrip r) as [|d r'] eqn:E.
  - destruct (isspace c) eqn:Es; [reflexivity|].
    cbn [rstrip]. now rewrite Es.
  - rewrite rstrip_cons, IH. reflexivity.
Qed.

(** [rstrip] keeps a first character that is no whitespace. *)
Lemma lstrip_rstrip s : lstrip s = s -> lstrip (rstrip s) = rstrip s.
Proof.
  destruct s as [|c r]; [reflexivity|]. intros H.
  assert (Es : isspace c = false).
  { destruct (isspace c) eqn:E; [|reflexivity]. exfalso.
    cbn [lstrip] in H. rewrite E in H.
    assert (L : forall s, String.length (lstrip s) <= String.length s).
    { induction s as [|d s IH]; cbn [lstrip]; [lia|].
      destruct (isspace d); cbn [String.length]; lia. }
    pose proof (L r) as Hl. rewrite H in Hl. cbn [String.length] in Hl. lia. }
  rewrite rstrip_cons. destruct (rstrip r); rewrite ?Es; cbn [lstrip]; now rewrite Es.
Qed.

Lemma lstrip_idem s : lstrip (lstrip s) = lstrip s.
Proof.
  induction s as [|c r IH]; [reflexivity|].
  cbn [lstrip]. destruct (isspace c) eqn:E; [exact IH|].
  cbn [lstrip]. now rewrite E.
Qed.

Lemma strip_idem s : strip (strip s) = strip s.
Proof.
  unfold strip. rewrite (lstrip_rstrip (lstrip s) (lstrip_idem s)).
  apply rstrip_idem.
Qed.

Lemma lower_fixed s :
  (forall c, occurs c s = true -> lower_char c = c) -> lower s = s.
Proof.
  induction s as [|c r IH]; intros H; [reflexivity|]. cbn [lower]. f_equal.
  - apply H. cbn [occurs]. now rewrite Ascii.eqb_refl.
  - apply IH. intros d Hd. apply H. cbn [occurs]. now rewrite Hd, orb_true_r.
Qed.

Lemma sub_non_word_space_fixed s :
  (forall c, occurs c s = true -> isword c = true \/ c = " "%char) ->
  Re.sub_non_word_space s = s.
Proof.
  induction s as [|c r IH]; intros H; [reflexivity|]. cbn [Re.sub_non_word_space]. f_equal.
  - destruct (H c) as [W| ->]; [cbn [occurs]; now rewrite Ascii.eqb_refl| |reflexivity].
    now rewrite W.
  - apply IH. intros d Hd. apply H. cbn [occurs]. now rewrite Hd, orb_true_r.
Qed.

Lemma occurs_lower c s : occurs c (lower s) = true -> lower_char c = c.
Proof.
  induction s as [|d r IH]; cbn [lower occurs]; [discriminate|].
  rewrite orb_true_iff, Ascii.eqb_eq. intros [->|H]; [apply lower_char_idem|auto].
Qed.

Lemma occurs_sub_non_word_space_from c s :
  occurs c (Re.sub_non_word_space s) = true -> c = " "%char \/ occurs c s = true.
Proof.
  induction s as [|d r IH]; cbn [Re.sub_non_word_space occurs]; [discriminate|].
  rewrite !orb_true_iff, !Ascii.eqb_eq. intros [E|H].
  - destruct (negb (isword d) && negb (isspace d)); auto.
  - destruct (IH H); auto.
Qed.

End Shape.


(** The characters of a normalised text: unchanged by [lower], and word
    characters or U+0020. *)
Lemma normalize_text_char text c :
  occurs c (YachtDeduplicator.normalize_text text) = true ->
  lower_char c = c /\ (isword c = true \/ c = " "%char).
Proof.
  unfold YachtDeduplicator.normalize_text.
  destruct (negb (truthy text)); [discriminate|].
  intros H. apply occurs_strip in H.
  apply occurs_sub_spaces_from in H. destruct H as [->|[H S]]; [split; auto|].
  apply occurs_sub_stop_words_from in H. destruct H as [->|H]; [split; auto|].
  split.
  - apply occurs_sub_non_word_space_from in H. destruct H as [->|H]; [reflexivity|].
    now apply occurs_lower in H.
  - apply occurs_sub_non_word_space in H. destruct H as [H|H]; [auto|congruence].
Qed.

Lemma normalize_text_clean text :
  no_stop_word false (YachtDeduplicator.normalize_text text)
  /\ single_spaced false (YachtDeduplicator.normalize_text text)
  /\ strip (YachtDeduplicator.normalize_text text) = YachtDeduplicator.normalize_text text.
Proof.
  unfold YachtDeduplicator.normalize_text.
  destruct (negb (truthy text)); [repeat split|].
  split; [|split].
  - unfold strip. apply rstrip_clean, lstrip_clean.
    unfold Re.sub_spaces. apply sub_spaces_clean; [discriminate|].
    unfold Re.sub_stop_words. apply sub_stop_words_clean. left. split; reflexivity.
  - unfold strip. apply rstrip_single_spaced, lstrip_single_spaced.
    apply sub_spaces_single_spaced.
  - apply strip_idem.
Qed.

Lemma lower_idem s : lower (lower s) = lower s.
Proof.
  induction s as [|c r IH]; [reflexivity|]. cbn [lower].
  now rewrite lower_char_idem, IH.
Qed.

End NormalForm.

(** X20: [normalize_text] is idempotent: normalising a normalised text
    changes nothing. *)
Theorem normalize_text_idempotent (text : string) :
  YachtDeduplicator.normalize_text (YachtDeduplicator.normalize_text text)
  = YachtDeduplicator.normalize_text text.
Proof.
  destruct (normalize_text_clean text) as (C & S & T).
  pose proof (normalize_text_char text) as Hc.
  set (out := YachtDeduplicator.normalize_text text) in *.
  unfold YachtDeduplicator.normalize_text at 1.
  destruct (negb (PyStr.truthy out)) eqn:E.
  - destruct out; [reflexivity|discriminate].
  - rewrite (lower_fixed out) by (intros c H; now apply Hc).
    rewrite (sub_non_word_space_fixed out) by (intros c H; now apply Hc).
    unfold Re.sub_stop_words. rewrite (clean_fixed out None C).
    unfold Re.sub_spaces. rewrite (single_spaced_fixed out false S).
    exact T.
Qed.

(** X21: in a normalised text every whitespace character is a single
    U+0020 standing between two other characters: no run of spaces, no
    tab or line break, nothing to strip at either end. *)
Theorem normalize_text_tidy (text : string) :
  single_spaced false (YachtDeduplicator.normalize_text text)
  /\ PyStr.lstrip (YachtDeduplicator.normalize_text text)
     = YachtDeduplicator.normalize_text text
  /\ PyStr.rstrip (YachtDeduplicator.normalize_text text)
     = YachtDeduplicator.normalize_text text.
Proof.
  destruct (normalize_text_clean text) as (_ & S & T).
  split; [exact S|].
  unfold YachtDeduplicator.normalize_text in *.
  destruct (negb (PyStr.truthy text)); [split; reflexivity|].
  unfold PyStr.strip. split.
  - apply lstrip_rstrip, lstrip_idem.
  - apply rstrip_idem.
Qed.

(** X22: [normalize_text] ignores letter case: two texts with the same
    lower-case form normalise to the same text. *)
Theorem normalize_text_ignores_case (text1 text2 : string) :
  PyStr.lower text1 = PyStr.lower text2 ->
  YachtDeduplicator.normalize_text text1 = YachtDeduplicator.normalize_text text2.
Proof.
  intros H. unfold YachtDeduplicator.normalize_text. rewrite H.
  assert (T : PyStr.truthy text1 = PyStr.truthy text2).
  { destruct text1, text2; cbn [PyStr.lower] in H; try discriminate H; reflexivity. }
  now rewrite T.
Qed.

Lemma normalize_text_ignores_case_witness :
  YachtDeduplicator.normalize_text "Bavaria 46 Cruiser"%string
  = YachtDeduplicator.normalize_text "BAVARIA 46 cruiser"%string.
Proof.
  apply (normalize_text_ignores_case "Bavaria 46 Cruiser"%string
           "BAVARIA 46 cruiser"%string).
  vm_compute. reflexivity.
Defined.

(** ** Text similarity: how much can match *)

Section BoundsB.

Variables a b : list ascii.
Local Open Scope nat_scope.

Lemma j2len_prev_from blo d j :
  runs_from blo d -> blo <= j -> blo + Difflib.j2len_prev d j <= j.
Proof.
  intros H Hj. destruct j as [|j']; simpl; [lia|].
  destruct (d !! j') as [v|] eqn:E; simpl; [|lia].
  specialize (H _ _ E). lia.
Qed.

Lemma scan_row_within_b i blo bhi js :
  forall j2len newj2len best,
    runs_from blo j2len -> runs_from blo newj2len ->
    block_within_b blo bhi best ->
    runs_from blo (fst (Difflib.scan_row i blo bhi js j2len newj2len best))
    /\ block_within_b blo bhi (snd (Difflib.scan_row i blo bhi js j2len newj2len best)).
Proof.
  induction js as [|j js IH]; intros j2len newj2len best Hold Hnew Hbest;
    cbn [Difflib.scan_row]; [auto|].
  destruct (j <? blo) eqn:E1; [now apply IH|].
  destruct (bhi <=? j) eqn:E2; [auto|].
  apply Nat.ltb_ge in E1. apply Nat.leb_gt in E2.
  pose proof (j2len_prev_from blo _ j Hold E1) as Hk.
  apply IH; try assumption.
  - intros j' v. rewrite lookup_insert. destruct (decide (j = j')).
    + intros [= <-]. subst. lia.
    + apply Hnew.
  - destruct (_ <? _); [|assumption]. unfold block_within_b. simpl. lia.
Qed.

Lemma scan_rows_within_b alo ahi blo bhi :
  blo <= bhi ->
  block_within_b blo bhi (Difflib.scan_rows a b alo ahi blo bhi).
Proof.
  intros Hb. unfold Difflib.scan_rows.
  set (step := fun (st : gmap nat nat * Difflib.Match) i => _).
  assert (G : forall l st,
             runs_from blo (fst st) -> block_within_b blo bhi (snd st) ->
             block_within_b blo bhi (snd (fold_left step l st))).
  { induction l as [|i l IH]; intros st Hd Hm; [exact Hm|].
    cbn [fold_left]. apply IH; unfold step; apply scan_row_within_b; try assumption.
    - intros j v. rewrite lookup_empty. discriminate.
    - intros j v. rewrite lookup_empty. discriminate. }
  apply G.
  - intros j v. cbn [fst]. rewrite lookup_empty. discriminate.
  - split; simpl; lia.
Qed.

Lemma extend_left_within_b alo blo besti :
  forall bestj k,
    blo <= bestj ->
    blo <= Difflib.m_b (Difflib.extend_left a b alo blo besti bestj k)
    /\ Difflib.m_b (Difflib.extend_left a b alo blo besti bestj k)
       + Difflib.m_size (Difflib.extend_left a b alo blo besti bestj k)
       = bestj + k.
Proof.
  induction besti as [|i IH]; intros bestj k H; simpl; [lia|].
  destruct bestj as [|j]; simpl; [lia|].
  destruct (alo <? S i); simpl; [|lia].
  destruct (blo <? S j) eqn:E; simpl; [|lia].
  destruct (Difflib.same_at a b i j); simpl; [|lia].
  apply Nat.ltb_lt in E. destruct (IH j (S k)) as [H1 H2]; lia.
Qed.

Lemma extend_right_within_b bhi besti bestj room :
  forall k, bestj + k <= bhi ->
            bestj + Difflib.extend_right a b bhi besti bestj k room <= bhi.
Proof.
  induction room as [|r IH]; intros k H; simpl; [lia|].
  destruct (bestj + k <? bhi) eqn:E; simpl; [|lia].
  destruct (Difflib.same_at a b _ _); [|lia].
  apply Nat.ltb_lt in E. apply IH. lia.
Qed.

Lemma extend_left_same_a alo blo besti :
  forall bestj k,
    Difflib.m_size (Difflib.extend_left a b alo blo besti bestj k) >= k.
Proof.
  induction besti as [|i IH]; intros bestj k; simpl; [lia|].
  destruct bestj as [|j]; simpl; [lia|].
  destruct (_ && _); simpl; [|lia]. specialize (IH j (S k)). lia.
Qed.

Lemma find_longest_match_within_b alo ahi blo bhi :
  blo <= bhi ->
  block_within_b blo bhi (Difflib.find_longest_match a b alo ahi blo bhi).
Proof.
  intros H. unfold Difflib.find_longest_match.
  pose proof (scan_rows_within_b alo ahi blo bhi H) as [S1 S2].
  remember (Difflib.scan_rows a b alo ahi blo bhi) as m eqn:Em. clear Em.
  destruct (extend_left_within_b alo blo (Difflib.m_a m) (Difflib.m_b m)
              (Difflib.m_size m) S1) as [L1 L2].
  remember (Difflib.extend_left a b alo blo _ _ _) as m' eqn:Em'. clear Em'.
  pose proof (extend_right_within_b bhi (Difflib.m_a m') (Difflib.m_b m')
                (ahi - (Difflib.m_a m' + Difflib.m_size m')) (Difflib.m_size m')
                ltac:(lia)).
  split; simpl; lia.
Qed.

Lemma total_size_app l1 l2 : total_size (l1 ++ l2) = total_size l1 + total_size l2.
Proof. induction l1 as [|x l IH]; simpl; [reflexivity|]. rewrite IH. lia. Qed.

Lemma total_size_one x : total_size [x] = Difflib.m_size x.
Proof. unfold total_size. simpl. lia. Qed.

Lemma total_size_cons x l : total_size (x :: l) = Difflib.m_size x + total_size l.
Proof. reflexivity. Qed.

(** The blocks found and the characters still pending never add up to
    more than there was to begin with, in [a] and in [b]. *)
Lemma run_queue_total :
  forall fuel q blocks,
    Forall ordered q -> Forall ordered_b q ->
    total_size (Difflib.run_queue a b fuel q blocks)
    <= total_size blocks + pending_a q
    /\ total_size (Difflib.run_queue a b fuel q blocks)
       <= total_size blocks + pending_b q.
Proof.
  induction fuel as [|fuel IH]; intros q blocks Ha Hb; [simpl; lia|].
  destruct q as [|[[[alo ahi] blo] bhi] q']; [simpl; lia|].
  inversion Ha as [|? ? Hra Ha']; subst. inversion Hb as [|? ? Hrb Hb']; subst.
  unfold ordered in Hra. unfold ordered_b in Hrb. simpl in Hra, Hrb.
  cbn [Difflib.run_queue pending_a pending_b].
  pose proof (find_longest_match_within a b alo ahi blo bhi Hra) as [A1 A2].
  pose proof (find_longest_match_within_b alo ahi blo bhi Hrb) as [B1 B2].
  remember (Difflib.find_longest_match a b alo ahi blo bhi) as x eqn:Ex. clear Ex.
  destruct (Difflib.m_size x =? 0) eqn:Ek.
  - destruct (IH q' blocks Ha' Hb'). lia.
  - destruct ((alo <? Difflib.m_a x) && (blo <? Difflib.m_b x));
      destruct ((Difflib.m_a x + Difflib.m_size x <? ahi)
                && (Difflib.m_b x + Difflib.m_size x <? bhi));
      match goal with
      | |- context [Difflib.run_queue a b fuel ?q2 ?bl] =>
          destruct (IH q2 bl) as [I1 I2];
          [ repeat (apply List.Forall_cons; [unfold ordered; simpl; lia|]); assumption
          | repeat (apply List.Forall_cons; [unfold ordered_b; simpl; lia|]); assumption
          | rewrite total_size_app, total_size_one in I1, I2;
            cbn [pending_a pending_b] in I1, I2; lia ]
      end.
Qed.

Lemma total_size_insert_sorted x l :
  total_size (Difflib.insert_sorted x l) = Difflib.m_size x + total_size l.
Proof.
  induction l as [|y l IH]; [reflexivity|]. cbn [Difflib.insert_sorted].
  destruct (Difflib.match_leb x y); rewrite !total_size_cons; [reflexivity|].
  rewrite IH. lia.
Qed.

Lemma total_size_sort l : total_size (Difflib.sort_blocks l) = total_size l.
Proof.
  induction l as [|x l IH]; [reflexivity|].
  cbn [Difflib.sort_blocks fold_right]. fold (Difflib.sort_blocks l).
  rewrite total_size_insert_sorted, IH. reflexivity.
Qed.

Lemma total_size_collapse l :
  forall cur, total_size (Difflib.collapse cur l) = Difflib.m_size cur + total_size l.
Proof.
  induction l as [|x l IH]; intros cur; cbn [Difflib.collapse].
  - destruct (Difflib.m_size cur =? 0) eqn:E.
    + apply Nat.eqb_eq in E. rewrite E. reflexivity.
    + rewrite total_size_one. unfold total_size. simpl. lia.
  - rewrite total_size_cons. destruct (_ && _).
    + rewrite IH. cbn [Difflib.m_size]. lia.
    + rewrite total_size_app, IH.
      destruct (Difflib.m_size cur =? 0) eqn:E.
      * apply Nat.eqb_eq in E. rewrite E. reflexivity.
      * rewrite total_size_one. lia.
Qed.

Lemma matches_total : Difflib.matches a b = total_size (Difflib.get_matching_blocks a b).
Proof.
  unfold Difflib.matches.
  assert (G : forall l n, fold_left (fun acc x => acc + Difflib.m_size x) l n
                          = n + total_size l).
  { induction l as [|x l IH]; intros n; simpl; [lia|]. rewrite IH. lia. }
  now rewrite G.
Qed.

Lemma matches_bound :
  Difflib.matches a b <= List.length a /\ Difflib.matches a b <= List.length b.
Proof.
  rewrite matches_total. unfold Difflib.get_matching_blocks.
  rewrite total_size_app, total_size_collapse, total_size_sort, total_size_one.
  cbn [Difflib.m_size].
  destruct (run_queue_total (2 * List.length a + 1)
              [(0, List.length a, 0, List.length b)] []) as [H1 H2].
  - apply List.Forall_cons; [unfold ordered; simpl; lia|apply List.Forall_nil].
  - apply List.Forall_cons; [unfold ordered_b; simpl; lia|apply List.Forall_nil].
  - cbn [pending_a pending_b] in H1, H2. change (total_size []) with 0 in H1, H2. lia.
Qed.

End BoundsB.

(** ** Text similarity: a text against itself *)

Section Identical.

Variable s : list ascii.
Local Open Scope nat_scope.

Lemma indices_from_spec c l :
  forall j0 j, In j (Difflib.indices_from c l j0) <-> j0 <= j /\ l !! (j - j0) = Some c.
Proof.
  induction l as [|d l IH]; intros j0 j; cbn [Difflib.indices_from].
  - split; [intros []|]. intros [_ H]. discriminate.
  - assert (Hcase : j0 <= j /\ (d :: l) !! (j - j0) = Some c
                    <-> (j = j0 /\ d = c) \/ (S j0 <= j /\ l !! (j - S j0) = Some c)).
    { destruct (Nat.eq_dec j j0) as [->|Hne].
      - rewrite Nat.sub_diag. cbn. split.
        + intros [_ [= ->]]. now left.
        + intros [[_ ->]|[H _]]; [split; [lia|reflexivity]|lia].
      - split.
        + intros [H1 H2]. right. split; [lia|].
          replace (j - j0) with (S (j - S j0)) in H2 by lia. exact H2.
        + intros [[H _]|[H1 H2]]; [contradiction|]. split; [lia|].
          replace (j - j0) with (S (j - S j0)) by lia. exact H2. }
    rewrite Hcase. destruct (Ascii.eqb c d) eqn:E.
    + apply Ascii.eqb_eq in E. subst d. cbn [In]. rewrite IH. intuition.
    + rewrite IH. split; [tauto|]. intros [[_ ->]|H]; [|exact H].
      rewrite Ascii.eqb_refl in E. discriminate.
Qed.

Lemma indices_from_above c l : forall j0, above j0 (Difflib.indices_from c l j0).
Proof.
  induction l as [|d l IH]; intros j0; cbn [Difflib.indices_from]; [exact I|].
  assert (W : forall lo js, above (S lo) js -> above lo js).
  { intros lo js. destruct js; cbn [above]; [tauto|]. intros [? ?]. split; [lia|assumption]. }
  destruct (Ascii.eqb c d).
  - cbn [above]. split; [lia|apply IH].
  - apply W, IH.
Qed.

Lemma above_In lo js j : above lo js -> In j js -> lo <= j.
Proof.
  revert lo. induction js as [|x js IH]; intros lo H Hin; [destruct Hin|].
  destruct H as [H1 H2]. destruct Hin as [->|Hin]; [assumption|].
  specialize (IH _ H2 Hin). lia.
Qed.

Lemma same_at_diag i : i < List.length s -> Difflib.same_at s s i i = true.
Proof.
  intros H. unfold Difflib.same_at.
  destruct (lookup_lt_is_Some_2 s i H) as [c ->]. apply Ascii.eqb_refl.
Qed.

Lemma extend_left_diag p :
  forall k, p <= List.length s ->
            Difflib.extend_left s s 0 0 p p k = Difflib.mkMatch 0 0 (p + k).
Proof.
  induction p as [|i IH]; intros k H; [reflexivity|].
  cbn [Difflib.extend_left]. rewrite same_at_diag by lia.
  cbn [Nat.ltb Nat.leb andb]. rewrite IH by lia. f_equal. lia.
Qed.

Lemma extend_right_diag room :
  forall size, size + room = List.length s ->
               Difflib.extend_right s s (List.length s) 0 0 size room = List.length s.
Proof.
  induction room as [|r IH]; intros size H; cbn [Difflib.extend_right]; [lia|].
  cbn [Nat.add]. rewrite same_at_diag by lia.
  replace (size <? List.length s) with true by (symmetry; apply Nat.ltb_lt; lia).
  cbn [andb]. apply IH. lia.
Qed.

Lemma j2len_prev_diag i j2len best j :
  row_state s i (j2len, best) ->
  Difflib.j2len_prev j2len j <= diag s i
  /\ Difflib.j2len_prev j2len j <= diag s j
  /\ (j = i -> Difflib.j2len_prev j2len j = diag s i).
Proof.
  intros (H1 & H2 & _ & _). cbn [fst] in *.
  destruct j as [|j']; cbn [Difflib.j2len_prev].
  - split; [lia|]. split; [lia|]. intros <-. reflexivity.
  - destruct (j2len !! j') as [v|] eqn:E.
    + change (default 0 (Some v)) with v.
      destruct (H1 _ _ E) as [A B]. split; [assumption|]. split; [assumption|].
      intros <-. destruct (kept s j') eqn:K.
      * specialize (H2 j' eq_refl K). congruence.
      * assert (diag s (S j') = 0) by (cbn [diag]; now rewrite K). lia.
    + change (default 0 (@None nat)) with 0.
      split; [lia|]. split; [lia|]. intros <-.
      destruct (kept s j') eqn:K.
      * specialize (H2 j' eq_refl K). congruence.
      * cbn [diag]. now rewrite K.
Qed.

Lemma scan_row_diag i j2len js :
  forall newj2len best,
    i < List.length s -> kept s i = true ->
    row_state s i (j2len, best) ->
    above 0 js ->
    (forall j, In j js -> j < List.length s /\ kept s j = true) ->
    (forall j v, newj2len !! j = Some v -> v <= diag s (S i) /\ v <= diag s (S j)) ->
    In i js \/ (newj2len !! i = Some (diag s (S i))
                /\ diag s (S i) <= Difflib.m_size best) ->
    row_state s (S i)
      (Difflib.scan_row i 0 (List.length s) js j2len newj2len best).
Proof.
  intros newj2len best Hi Ki Hrow. revert newj2len best Hrow.
  assert (Dsi : diag s (S i) = S (diag s i)) by (cbn [diag]; now rewrite Ki).
  generalize 0 at 1 as lo.
  induction js as [|j js IH]; intros lo newj2len best Hrow Hab Hjs Hnew Hkey.
  - cbn [Difflib.scan_row]. destruct Hkey as [[]|[Hk1 Hk2]].
    destruct Hrow as (_ & _ & Hd & Hb). cbn [fst snd] in *.
    split; [exact Hnew|]. split.
    { intros i' [= <-] _. exact Hk1. }
    split; [exact Hd|].
    intros j Hj. destruct (Nat.eq_dec j i) as [->|Hne]; [assumption|]. apply Hb. lia.
  - cbn [Difflib.scan_row]. change (j <? 0) with false. cbv iota.
    destruct (Hjs j (or_introl eq_refl)) as [Hjn Kj].
    replace (List.length s <=? j) with false by (symmetry; apply Nat.leb_gt; lia).
    destruct Hab as [Hlo Hab].
    destruct (j2len_prev_diag i j2len best j Hrow) as (P1 & P2 & P3).
    assert (Dsj : diag s (S j) = S (diag s j)) by (cbn [diag]; now rewrite Kj).
    set (k := Difflib.j2len_prev j2len j + 1) in *.
    assert (Hnew' : forall j0 v, <[j:=k]> newj2len !! j0 = Some v ->
                                 v <= diag s (S i) /\ v <= diag s (S j0)).
    { intros j0 v. rewrite lookup_insert. destruct (decide (j = j0)) as [<-|].
      - intros [= <-]. unfold k. lia.
      - apply Hnew. }
    pose proof Hrow as (R1 & R2 & Rd & Rb). cbn [fst snd] in *.
    destruct (Nat.lt_trichotomy j i) as [Hlt|[->|Hgt]].
    + (* before the diagonal: no longer than a block already found *)
      assert (Hk : k <= Difflib.m_size best) by (specialize (Rb j Hlt); unfold k; lia).
      replace (Difflib.m_size best <? k) with false by (symmetry; apply Nat.ltb_ge; lia).
      cbv iota.
      apply (IH (S j)); try assumption.
      * intros j0 Hj0. apply Hjs. now right.
      * destruct Hkey as [[E|Hin]|[Hk1 Hk2]]; [lia|now left|].
        right. split; [|assumption]. rewrite lookup_insert_ne by lia. exact Hk1.
    + (* on the diagonal *)
      assert (Ek : k = diag s (S i)) by (unfold k; rewrite (P3 eq_refl); lia).
      destruct (Difflib.m_size best <? k) eqn:E.
      * apply (IH (S i)).
        -- split; [exact R1|]. split; [exact R2|]. cbn [fst snd Difflib.m_a Difflib.m_b Difflib.m_size].
           split; [reflexivity|]. apply Nat.ltb_lt in E.
           intros j0 Hj0. specialize (Rb j0 Hj0). lia.
        -- assumption.
        -- intros j0 Hj0. apply Hjs. now right.
        -- assumption.
        -- right. cbn [Difflib.m_size]. split; [|lia]. rewrite lookup_insert_eq. now rewrite Ek.
      * apply Nat.ltb_ge in E. apply (IH (S i)); try assumption.
        -- intros j0 Hj0. apply Hjs. now right.
        -- right. split; [|lia]. rewrite lookup_insert_eq. now rewrite Ek.
    + (* past the diagonal: row [i] was met before *)
      destruct Hkey as [[E|Hin]|[Hk1 Hk2]]; [lia| |].
      { pose proof (above_In _ _ _ Hab Hin). lia. }
      assert (Hk : k <= Difflib.m_size best) by (unfold k; lia).
      replace (Difflib.m_size best <? k) with false by (symmetry; apply Nat.ltb_ge; lia).
      cbv iota.
      apply (IH (S j)); try assumption.
      * intros j0 Hj0. apply Hjs. now right.
      * right. split; [|assumption]. rewrite lookup_insert_ne by lia. exact Hk1.
Qed.


Lemma b2j_get_kept i c :
  s !! i = Some c -> kept s i = true ->
  above 0 (Difflib.b2j_get s c)
  /\ (forall j, In j (Difflib.b2j_get s c) -> j < List.length s /\ kept s j = true)
  /\ In i (Difflib.b2j_get s c).
Proof.
  intros Hc Hk. unfold kept in Hk. rewrite Hc in Hk. apply negb_true_iff in Hk.
  unfold Difflib.b2j_get. rewrite Hk.
  split; [apply indices_from_above|]. split.
  - intros j Hj. apply indices_from_spec in Hj. destruct Hj as [_ Hj].
    rewrite Nat.sub_0_r in Hj. split.
    + apply lookup_lt_is_Some. now exists c.
    + unfold kept. now rewrite Hj, Hk.
  - apply indices_from_spec. rewrite Nat.sub_0_r. split; [lia|assumption].
Qed.

Lemma b2j_get_dropped i c :
  s !! i = Some c -> kept s i = false -> Difflib.b2j_get s c = [].
Proof.
  intros Hc Hk. unfold kept in Hk. rewrite Hc in Hk. apply negb_false_iff in Hk.
  unfold Difflib.b2j_get. now rewrite Hk.
Qed.

Lemma row_step i st :
  i < List.length s -> row_state s i st ->
  row_state s (S i)
    (Difflib.scan_row i 0 (List.length s)
       (match s !! i with Some c => Difflib.b2j_get s c | None => [] end)
       (fst st) ∅ (snd st)).
Proof.
  intros Hi Hrow. destruct (lookup_lt_is_Some_2 s i Hi) as [c Hc]. rewrite Hc.
  destruct (kept s i) eqn:K.
  - destruct (b2j_get_kept i c Hc K) as (Hab & Hjs & Hin).
    apply scan_row_diag; try assumption.
    + intros j v. rewrite lookup_empty. discriminate.
    + now left.
  - rewrite (b2j_get_dropped i c Hc K). cbn [Difflib.scan_row].
    destruct Hrow as (_ & _ & Hd & Hb).
    split; [intros j v; cbn [fst]; rewrite lookup_empty; discriminate|].
    split; [intros i' [= <-]; congruence|]. cbn [snd]. split; [exact Hd|].
    intros j Hj. destruct (Nat.eq_dec j i) as [->|Hne].
    + cbn [diag]. rewrite K. lia.
    + apply Hb. lia.
Qed.

Lemma scan_rows_diag :
  Difflib.m_a (Difflib.scan_rows s s 0 (List.length s) 0 (List.length s))
  = Difflib.m_b (Difflib.scan_rows s s 0 (List.length s) 0 (List.length s)).
Proof.
  unfold Difflib.scan_rows. rewrite Nat.sub_0_r.
  set (step := fun (st : gmap nat nat * Difflib.Match) i => _).
  assert (G : forall n i st,
             i + n <= List.length s -> row_state s i st ->
             row_state s (i + n) (fold_left step (seq i n) st)).
  { induction n as [|n IH]; intros i st Hn Hrow; cbn [seq fold_left].
    - now rewrite Nat.add_0_r.
    - replace (i + S n) with (S i + n) by lia. apply IH; [lia|].
      unfold step. apply row_step; [lia|assumption]. }
  destruct (G (List.length s) 0 (∅, Difflib.mkMatch 0 0 0)) as (_ & _ & H & _).
  - lia.
  - split; [intros j v; cbn [fst]; rewrite lookup_empty; discriminate|].
    split; [discriminate|]. split; [reflexivity|]. intros j Hj. lia.
  - exact H.
Qed.

Lemma find_longest_match_self :
  Difflib.find_longest_match s s 0 (List.length s) 0 (List.length s)
  = Difflib.mkMatch 0 0 (List.length s).
Proof.
  unfold Difflib.find_longest_match.
  pose proof (scan_rows_within s s 0 (List.length s) 0 (List.length s)) as [_ B].
  pose proof scan_rows_diag as D.
  remember (Difflib.scan_rows s s 0 (List.length s) 0 (List.length s)) as m eqn:Em.
  clear Em. rewrite <- D. rewrite extend_left_diag by lia.
  cbn [Difflib.m_a Difflib.m_b Difflib.m_size]. f_equal.
  apply extend_right_diag. cbn [Nat.add] in B. lia.
Qed.

Lemma matches_self : Difflib.matches s s = List.length s.
Proof.
  rewrite matches_total. unfold Difflib.get_matching_blocks.
  rewrite total_size_app, total_size_collapse, total_size_sort, total_size_one.
  cbn [Difflib.m_size].
  replace (2 * List.length s + 1) with (S (2 * List.length s)) by lia.
  cbn [Difflib.run_queue]. rewrite find_longest_match_self.
  cbn [Difflib.m_a Difflib.m_b Difflib.m_size].
  destruct (List.length s =? 0) eqn:E.
  - apply Nat.eqb_eq in E. rewrite E. reflexivity.
  - change (0 <? 0) with false. cbn [andb Nat.add].
    rewrite Nat.ltb_irrefl. cbn [andb app].
    destruct (2 * List.length s); cbn [Difflib.run_queue];
      rewrite total_size_one; cbn [Difflib.m_size]; lia.
Qed.

End Identical.

Lemma self_ratio_table :
  forallb (fun n => bool_decide
                      (div (mul (of_Z 2) (of_Z n)) (of_Z (n + n)) = of_Z 1))
          (Zrange 1 500) = true.
Proof. vm_compute. reflexivity. Qed.

Lemma length_list_ascii s : List.length (list_ascii_of_string s) = String.length s.
Proof. induction s as [|c s IH]; [reflexivity|]. cbn. now rewrite IH. Qed.

(** X23: a text of at most 500 characters (the width of the [title]
    column) compared with itself has similarity exactly [1.0]. *)
Theorem text_similarity_self (text : string) :
  (String.length text <= 500)%nat ->
  YachtDeduplicator.text_similarity text text = of_Z 1.
Proof.
  intros H. unfold YachtDeduplicator.text_similarity, Difflib.ratio.
  rewrite matches_self, length_list_ascii.
  destruct (String.length text + String.length text =? 0)%nat eqn:E; [reflexivity|].
  apply Nat.eqb_neq in E.
  pose proof self_ratio_table as T. rewrite forallb_forall in T.
  assert (R : In (Z.of_nat (String.length text)) (Zrange 1 500))
    by (apply In_Zrange; lia).
  specialize (T _ R).
  apply bool_decide_eq_true in T. rewrite Nat2Z.inj_add. exact T.
Qed.

Lemma text_similarity_self_witness :
  YachtDeduplicator.text_similarity "bavaria 46 cruiser"%string
    "bavaria 46 cruiser"%string = of_Z 1.
Proof.
  apply (text_similarity_self "bavaria 46 cruiser"%string).
  simpl. lia.
Defined.

(** X24: the similarity of two texts that are not both empty is
    [2.0 * m / (len(text1) + len(text2))] for a number [m] of matched
    characters that exceeds neither length; two empty texts have
    similarity [1.0]. *)
Theorem text_similarity_fraction (text1 text2 : string) :
  exists m : nat,
    (m <= String.length text1)%nat /\ (m <= String.length text2)%nat
    /\ YachtDeduplicator.text_similarity text1 text2
       = if (String.length text1 + String.length text2 =? 0)%nat
         then of_Z 1
         else div (mul (of_Z 2) (of_Z (Z.of_nat m)))
                  (of_Z (Z.of_nat (String.length text1 + String.length text2))).
Proof.
  exists (Difflib.matches (list_ascii_of_string text1) (list_ascii_of_string text2)).
  pose proof (matches_bound (list_ascii_of_string text1)
                (list_ascii_of_string text2)) as [B1 B2].
  rewrite !length_list_ascii in B1, B2.
  split; [exact B1|]. split; [exact B2|].
  unfold YachtDeduplicator.text_similarity, Difflib.ratio.
  rewrite !length_list_ascii. reflexivity.
Qed.
